(** * myst-preview: a model of [src/myst_preview/cli.py]

    The command-line tool stages one document in a temporary workspace,
    runs an external renderer on it, and tears everything down again.
    All of its behaviour is effects on the file system, on sockets and on
    one child process, so the embedding is a state-and-error monad over
    an explicit world:

    - the file system is a finite map from canonical absolute paths to
      nodes (regular file, directory, symbolic link), with the kernel's
      path resolution written out (symbolic links are followed, at most
      [MAXSYMLINKS] of them);
    - everything the program cannot decide by itself (which ports are
      free, what the renderer does, when a signal arrives, which system
      calls fail) is a field of an environment record [Env];
    - a computation ends with a value, with an exception, with
      [sys.exit], or never (the main thread waits for ever).

    The model comes first, then the vocabulary of the properties and
    the sample machines, then the lemmas and the theorems. *)

From Stdlib Require Import ZArith Ascii String List Bool Lia.
From stdpp Require Import base option list strings gmap fin_maps pretty.

Open Scope string_scope.
Open Scope list_scope.
Open Scope Z_scope.

(** ** Paths and nodes *)

(** An absolute path is the list of its components, root first. *)
Abbreviation path := (list string).

Inductive node :=
  | File (content : string)
  | Dir
  | Link (target : path).

#[global] Instance node_eq_dec : EqDecision node.
Proof. solve_decision. Defined.

Abbreviation FS := (gmap (list string) node).

Definition show_path (p : path) : string :=
  match p with
  | [] => "/"
  | _ => String.concat "" (map (fun c => "/" +:+ c) p)
  end.

(** [strip_prefix d k] is [Some r] exactly when [k = d ++ r]. *)
Fixpoint strip_prefix (d k : path) : option path :=
  match d, k with
  | [], _ => Some k
  | x :: d', y :: k' => if String.eqb x y then strip_prefix d' k' else None
  | _ :: _, [] => None
  end.

(** [under d k]: [k] is [d] itself or lies below it. *)
Definition under (d k : path) : bool :=
  match strip_prefix d k with Some _ => true | None => false end.

Definition child_name (d k : path) : option string :=
  match strip_prefix d k with
  | Some [n] => Some n
  | _ => None
  end.

(** The root directory always exists and has no entry in the map. *)
Definition node_at (fs : FS) (q : path) : option node :=
  match q with
  | [] => Some Dir
  | _ => fs !! q
  end.

Definition is_nil {A} (l : list A) : bool :=
  match l with [] => true | _ => false end.

(** ** Path resolution

    [walk hops fs follow_last cur rest] resolves the components [rest]
    from the canonical directory [cur].  A symbolic link met on the way
    restarts the walk at its (absolute) target; the last component is
    followed only when [follow_last] is set ([stat] against [lstat]).
    The result is the canonical place of the entry, which may not exist
    yet; [None] is a failed resolution (a missing or non-directory
    intermediate component, or too many links). *)
Fixpoint walk (hops : nat) (fs : FS) (follow_last : bool)
    : path -> list string -> option path :=
  fix go (cur : path) (rest : list string) {struct rest} : option path :=
    match rest with
    | [] => Some cur
    | c :: rest' =>
      if String.eqb c "." then go cur rest'
      else if String.eqb c ".." then go (removelast cur) rest'
      else
        let p := cur ++ [c] in
        match fs !! p with
        | Some (Link t) =>
            if negb follow_last && is_nil rest' then Some p
            else match hops with
                 | O => None
                 | S h => walk h fs follow_last [] (t ++ rest')
                 end
        | Some Dir => go p rest'
        | Some (File _) | None =>
            if is_nil rest' then Some p else None
        end
    end.

Definition MAXSYMLINKS : nat := 40.

(** [stat]-like and [lstat]-like resolution of an absolute path. *)
Definition resolve (fs : FS) (p : path) : option path :=
  walk MAXSYMLINKS fs true [] p.
Definition lresolve (fs : FS) (p : path) : option path :=
  walk MAXSYMLINKS fs false [] p.

Definition stat (fs : FS) (p : path) : option node :=
  match resolve fs p with Some q => node_at fs q | None => None end.
Definition lstat (fs : FS) (p : path) : option node :=
  match lresolve fs p with Some q => node_at fs q | None => None end.

(** [Path.exists], [os.path.lexists], [Path.is_symlink], [Path.is_dir]. *)
Definition path_exists (fs : FS) (p : path) : bool :=
  match stat fs p with Some _ => true | None => false end.
Definition lexists (fs : FS) (p : path) : bool :=
  match lstat fs p with Some _ => true | None => false end.
Definition is_symlink (fs : FS) (p : path) : bool :=
  match lstat fs p with Some (Link _) => true | _ => false end.
Definition is_dir (fs : FS) (p : path) : bool :=
  match stat fs p with Some Dir => true | _ => false end.

(** Names of the entries of the canonical directory [d]. *)
Definition children (fs : FS) (d : path) : list string :=
  omap (child_name d) (map fst (map_to_list fs)).

(** ** Exceptions *)

(** The exception classes the program can meet.  All but
    [OverflowError] are subclasses of Python's [OSError]. *)
Inductive exn_class :=
  | OSError
  | FileExistsError
  | FileNotFoundError
  | NotADirectoryError
  | IsADirectoryError
  | ShutilError
  | OverflowError.

Record exn := Exn { cls : exn_class; msg : string }.

Definition is_OSError (e : exn) : bool :=
  match cls e with
  | OverflowError => false
  | _ => true
  end.

(** ** System calls that the environment may fail

    Besides the failures that follow from the state of the file system
    (an entry that is missing or in the way), any call can fail for a
    reason outside the model: permissions, a full disk, a read-only
    mount.  The environment says which. *)
Inductive syscall :=
  | SysMkdir (p : path)
  | SysSymlink (p : path)
  | SysUnlink (p : path)
  | SysWrite (p : path)
  | SysRead (p : path)
  | SysScandir (p : path)
  | SysRemove (p : path).

Section FileSystem.

Variable faulty : syscall -> bool.

(** A failure that the environment causes. *)
Definition os_error (what : string) (p : path) : exn :=
  Exn OSError (what +:+ ": " +:+ show_path p).

(** The failures that follow from the state of the file system, with
    the text that CPython gives them. *)
Definition errno (c : exn_class) (p : path) : exn :=
  Exn c ((match c with
          | FileNotFoundError => "[Errno 2] No such file or directory: '"
          | FileExistsError => "[Errno 17] File exists: '"
          | NotADirectoryError => "[Errno 20] Not a directory: '"
          | IsADirectoryError => "[Errno 21] Is a directory: '"
          | _ => "[Errno 5] Input/output error: '"
          end) +:+ show_path p +:+ "'").

(** [os.mkdir] *)
Definition mkdir (p : path) (fs : FS) : exn + FS :=
  if faulty (SysMkdir p) then inl (os_error "mkdir failed" p)
  else match lresolve fs p with
       | None => inl (errno FileNotFoundError p)
       | Some q =>
           match node_at fs q with
           | Some _ => inl (errno FileExistsError p)
           | None => inr (<[q := Dir]> fs)
           end
       end.

(** [os.symlink(src, dst)]: a new link at [dst] pointing to [src]. *)
Definition os_symlink (src dst : path) (fs : FS) : exn + FS :=
  if faulty (SysSymlink dst) then inl (os_error "symlink failed" dst)
  else match lresolve fs dst with
       | None => inl (errno FileNotFoundError dst)
       | Some q =>
           match node_at fs q with
           | Some _ => inl (errno FileExistsError dst)
           | None => inr (<[q := Link src]> fs)
           end
       end.

(** [Path.unlink] *)
Definition unlink (p : path) (fs : FS) : exn + FS :=
  if faulty (SysUnlink p) then inl (os_error "unlink failed" p)
  else match lresolve fs p with
       | None => inl (errno FileNotFoundError p)
       | Some q =>
           match node_at fs q with
           | Some (File _) | Some (Link _) => inr (delete q fs)
           | Some Dir => inl (errno IsADirectoryError p)
           | None => inl (errno FileNotFoundError p)
           end
       end.

(** [Path.write_text]: opens for writing, which follows a symbolic link
    at [p] and creates or truncates the file the link leads to. *)
Definition write_text (p : path) (s : string) (fs : FS) : exn + FS :=
  if faulty (SysWrite p) then inl (os_error "write failed" p)
  else match resolve fs p with
       | None => inl (errno FileNotFoundError p)
       | Some q =>
           match node_at fs q with
           | Some Dir => inl (errno IsADirectoryError p)
           | Some (Link _) => inl (os_error "too many links" p)
           | Some (File _) | None => inr (<[q := File s]> fs)
           end
       end.

(** Reading a regular file, following links. *)
Definition read_text (p : path) (fs : FS) : exn + string :=
  if faulty (SysRead p) then inl (os_error "read failed" p)
  else match stat fs p with
       | Some (File c) => inr c
       | Some Dir => inl (errno IsADirectoryError p)
       | _ => inl (errno FileNotFoundError p)
       end.

(** [os.listdir] / [Path.iterdir]: the names in a directory. *)
Definition listdir (p : path) (fs : FS) : exn + list string :=
  if faulty (SysScandir p) then inl (os_error "scandir failed" p)
  else match resolve fs p with
       | None => inl (errno FileNotFoundError p)
       | Some q =>
           match node_at fs q with
           | Some Dir => inr (children fs q)
           | Some _ => inl (errno NotADirectoryError p)
           | None => inl (errno FileNotFoundError p)
           end
       end.

(** An entry [k] cannot be removed when the environment refuses the
    removal of [k] itself or of something below it (a directory is only
    removed once it is empty). *)
Definition stuck (fs : FS) (k : path) : bool :=
  existsb (fun kv : path * node => under k kv.1 && faulty (SysRemove kv.1))
          (map_to_list fs).

Definition survives (fs : FS) (q : path) (kv : path * node) : Prop :=
  (negb (under q kv.1) || stuck fs kv.1) = true.

#[global] Instance survives_dec fs q kv : Decision (survives fs q kv).
Proof. unfold survives. apply _. Defined.

(** [shutil.rmtree(p)].  The tree is removed bottom up without following
    links; [rmtree] refuses to start on a symbolic link.  Returned are
    the file system after the attempt, and the first error, if any.
    With an error, the entries that could be removed are gone all the
    same.  The root directory itself can never be removed. *)
Definition rmtree_run (p : path) (fs : FS) : FS * option exn :=
  match lresolve fs p with
  | None => (fs, Some (errno FileNotFoundError p))
  | Some q =>
      match node_at fs q with
      | Some Dir =>
          (filter (survives fs q) fs,
           if stuck fs q || is_nil q
           then Some (os_error "cannot remove" p) else None)
      | Some (Link _) =>
          (fs, Some (Exn OSError "Cannot call rmtree on a symbolic link"))
      | Some (File _) => (fs, Some (errno NotADirectoryError p))
      | None => (fs, Some (errno FileNotFoundError p))
      end
  end.

(** [shutil.rmtree(p)] with the default [ignore_errors=False]: the
    first error is raised.  How much of the tree is gone by then depends
    on the order of the scan; here a failed removal leaves the tree as
    it was. *)
Definition rmtree (p : path) (fs : FS) : exn + FS :=
  match rmtree_run p fs with
  | (fs', None) => inr fs'
  | (_, Some e) => inl e
  end.

(** [os.makedirs(p)]: the missing ancestors first, then [p] itself,
    which must not exist. *)
Fixpoint makedirs_from (pre : path) (rest : list string) (fs : FS)
    : exn + FS :=
  match rest with
  | [] => inl (errno FileExistsError pre)
  | [c] => mkdir (pre ++ [c]) fs
  | c :: rest' =>
      let d := pre ++ [c] in
      if path_exists fs d then makedirs_from d rest' fs
      else match mkdir d fs with
           | inl e => inl e
           | inr fs' => makedirs_from d rest' fs'
           end
  end.

Definition makedirs (p : path) (fs : FS) : exn + FS :=
  makedirs_from [] p fs.

(** [shutil.copytree(src, dst)] with its defaults: links in the source
    tree are followed and what they lead to is copied; errors on single
    entries are collected, the copy goes on, and one [shutil.Error] is
    raised at the end.  Failing to list [src] or to create [dst] raises
    at once.  [depth] bounds the nesting of directories. *)
Fixpoint copytree_run (depth : nat) (src dst : path) (fs : FS)
    : FS * option exn :=
  match depth with
  | O => (fs, Some (os_error "nesting too deep" src))
  | S depth' =>
      match listdir src fs with
      | inl e => (fs, Some e)
      | inr names =>
          match makedirs dst fs with
          | inl e => (fs, Some e)
          | inr fs1 =>
              let step (acc : FS * bool) (name : string) : FS * bool :=
                let s := src ++ [name] in
                let d := dst ++ [name] in
                if is_dir acc.1 s then
                  match copytree_run depth' s d acc.1 with
                  | (fs', None) => (fs', acc.2)
                  | (fs', Some _) => (fs', true)
                  end
                else
                  match read_text s acc.1 with
                  | inl _ => (acc.1, true)
                  | inr c =>
                      match write_text d c acc.1 with
                      | inl _ => (acc.1, true)
                      | inr fs' => (fs', acc.2)
                      end
                  end in
              let r := fold_left step names (fs1, false) in
              (r.1, if r.2 then Some (Exn ShutilError (show_path src))
                    else None)
          end
      end
  end.

Definition COPY_DEPTH : nat := 64.

Definition copytree (src dst : path) (fs : FS) : FS * option exn :=
  copytree_run COPY_DEPTH src dst fs.

End FileSystem.

(** ** Strings: [str.format], [Path.suffix], [Path.stem], path parsing *)

(** [str.format] with keyword arguments [kw], for templates with plain
    [{name}] fields:
    [field] is the name being read after an opening brace.  [None] is
    Python's [KeyError] (unknown field) or [ValueError] (unclosed
    brace). *)
Fixpoint str_format (kw : list (string * string)) (field : option string)
    (s : string) : option string :=
  match s with
  | EmptyString =>
      match field with None => Some EmptyString | Some _ => None end
  | String c s' =>
      match field with
      | None =>
          if Ascii.eqb c "{"%char then str_format kw (Some EmptyString) s'
          else option_map (String c) (str_format kw None s')
      | Some f =>
          if Ascii.eqb c "}"%char then
            match List.find (fun kv => String.eqb (fst kv) f) kw with
            | Some kv =>
                option_map (String.append (snd kv)) (str_format kw None s')
            | None => None
            end
          else str_format kw (Some (f +:+ String c EmptyString)) s'
      end
  end.

(** [name.rfind('.')], counted from the left; [None] is Python's -1. *)
Fixpoint rfind_dot (s : string) : option nat :=
  match s with
  | EmptyString => None
  | String c s' =>
      match rfind_dot s' with
      | Some i => Some (S i)
      | None => if Ascii.eqb c "."%char then Some O else None
      end
  end.

(** The position at which [pathlib] splits a name into stem and suffix:
    the last dot, unless it is the first or the last character. *)
Definition split_point (name : string) : option nat :=
  match rfind_dot name with
  | Some i =>
      if (Nat.ltb 0 i && Nat.ltb i (String.length name - 1))%bool
      then Some i else None
  | None => None
  end.

Definition name_suffix (name : string) : string :=
  match split_point name with
  | Some i => String.substring i (String.length name - i) name
  | None => EmptyString
  end.

Definition name_stem (name : string) : string :=
  match split_point name with
  | Some i => String.substring 0 i name
  | None => name
  end.

(** [Path.name], [Path.parent], [Path.suffix], [Path.stem] *)
Definition path_name (p : path) : string := List.last p EmptyString.
Definition path_parent (p : path) : path := removelast p.
Definition path_suffix (p : path) : string := name_suffix (path_name p).
Definition path_stem (p : path) : string := name_stem (path_name p).

Fixpoint split_on (sep : ascii) (s : string) (cur : string) : list string :=
  match s with
  | EmptyString => [cur]
  | String c s' =>
      if Ascii.eqb c sep then cur :: split_on sep s' EmptyString
      else split_on sep s' (cur +:+ String c EmptyString)
  end.

(** [Path(s)] made absolute against the current directory: empty and
    [.] components are dropped by [pathlib], [..] is kept. *)
Definition path_parts (s : string) : list string :=
  List.filter (fun c => negb (String.eqb c "" || String.eqb c "."))
              (split_on "/"%char s EmptyString).

Definition abspath (cwd : path) (s : string) : path :=
  if String.prefix "/" s then path_parts s else cwd ++ path_parts s.

(** [Path.resolve()], not strict: a path that cannot be resolved is
    left as it is. *)
Definition path_resolve (fs : FS) (p : path) : path :=
  match resolve fs p with Some q => q | None => p end.

(** [range(a, b)] *)
Definition py_range (a b : Z) : list Z :=
  map (fun i => a + Z.of_nat i) (seq 0 (Z.to_nat (b - a))).

(** ** The world, and computations on it *)

Inductive child_state :=
  | NoChild
  | Running
  | Exited (rc : Z).

Inductive event :=
  | EvSignal
  | EvSockOpen
  | EvBind (port : Z) (bound : bool)
  | EvSockClose
  | EvRun (cmd : list string) (cwd : path)
  | EvRunKilled
  | EvPopen (cmd : list string) (cwd : path) (host : string)
  | EvTerminate
  | EvWait (seconds : Z) (exited : bool)
  | EvKill
  | EvRmtree (p : path) (clean : bool)
  | EvBrowser (url : string).

(** [w_proc] is the variable [proc] that [main] shares with its
    [cleanup] closure (set: it holds the [Popen] handle); [w_child] is
    the state of the process behind the handle. *)
Record World := mkWorld {
  w_fs : FS;
  w_out : list string;
  w_err : list string;
  w_log : list event;
  w_proc : bool;
  w_child : child_state
}.

Definition set_fs (f : FS) (w : World) : World :=
  mkWorld f (w_out w) (w_err w) (w_log w) (w_proc w) (w_child w).
Definition print_out (s : string) (w : World) : World :=
  mkWorld (w_fs w) (w_out w ++ [s]) (w_err w) (w_log w) (w_proc w) (w_child w).
Definition print_err (s : string) (w : World) : World :=
  mkWorld (w_fs w) (w_out w) (w_err w ++ [s]) (w_log w) (w_proc w) (w_child w).
Definition record (e : event) (w : World) : World :=
  mkWorld (w_fs w) (w_out w) (w_err w) (w_log w ++ [e]) (w_proc w) (w_child w).
Definition set_proc (b : bool) (w : World) : World :=
  mkWorld (w_fs w) (w_out w) (w_err w) (w_log w) b (w_child w).
Definition set_child (c : child_state) (w : World) : World :=
  mkWorld (w_fs w) (w_out w) (w_err w) (w_log w) (w_proc w) c.

(** How a computation ends: with a value, with an exception, with
    [sys.exit(code)], or never (the main thread waits for ever). *)
Inductive res (A : Type) :=
  | Ok (a : A)
  | Raise (e : exn)
  | SysExit (code : Z)
  | Blocked.
Arguments Ok {A} a.
Arguments Raise {A} e.
Arguments SysExit {A} code.
Arguments Blocked {A}.

Definition M (A : Type) : Type := World -> res A * World.

#[global] Instance M_ret : MRet M := fun A a w => (Ok a, w).
#[global] Instance M_bind : MBind M := fun A B f m w =>
  match m w with
  | (Ok a, w') => f a w'
  | (Raise e, w') => (Raise e, w')
  | (SysExit c, w') => (SysExit c, w')
  | (Blocked, w') => (Blocked, w')
  end.

Definition raise {A} (e : exn) : M A := fun w => (Raise e, w).
Definition sys_exit {A} (code : Z) : M A := fun w => (SysExit code, w).
Definition get_fs : M FS := fun w => (Ok (w_fs w), w).
Definition tell (f : World -> World) : M unit := fun w => (Ok tt, f w).
Definition when (b : bool) (m : M unit) : M unit :=
  if b then m else mret tt.

(** A file-system call that either raises or updates the file system. *)
Definition fs_call (op : FS -> exn + FS) : M unit := fun w =>
  match op (w_fs w) with
  | inl e => (Raise e, w)
  | inr fs' => (Ok tt, set_fs fs' w)
  end.

(** The process exit status that a result of [main] leads to: falling
    off the end is status 0, an uncaught exception is status 1. *)
Definition exit_status {A} (r : res A) : option Z :=
  match r with
  | Ok _ => Some 0
  | SysExit c => Some c
  | Raise _ => Some 1
  | Blocked => None
  end.

(** ** The environment *)

(** Places at which a signal can reach the main thread once the
    handlers are installed. *)
Inductive point :=
  | PStart
  | PStaged
  | PBuild
  | PWaitPort
  | PWaitChild
  | PFinally.

Inductive run_outcome :=
  | Ran (fs' : FS) (returncode : Z)
  | Hangs (fs' : FS)
  | LaunchError (e : exn).

Record Env := mkEnv {
  (** system calls that fail for outside reasons *)
  faulty : syscall -> bool;
  (** does [bind] to this (valid) port succeed, or is the port taken *)
  bind_ok : Z -> bool;
  (** [shutil.which] *)
  which : string -> option string;
  (** [tempfile.gettempdir()] and the random names [mkdtemp] draws *)
  tmp_root : path;
  tmp_names : list string;
  (** [Path.cwd()] *)
  cwd : path;
  (** a signal (SIGINT or SIGTERM) arrives at this point *)
  signal_at : point -> bool;
  (** build mode: what the renderer does to the file system until it
      exits with its return code ([Ran]), or, if it never exits, until
      the main thread stops waiting for it ([Hangs]); or the failure to
      start it *)
  run_build : list string -> path -> FS -> run_outcome;
  (** serve mode: does [Popen] start the child *)
  popen_error : option exn;
  (** serve mode: what the child has done to the file system by the
      time the main thread stops waiting for it *)
  serve_fs : FS -> FS;
  (** serve mode: the child's own exit code, if it ever exits by itself *)
  child_exit : option Z;
  (** does the port accept a connection within 30 seconds *)
  port_up : bool;
  (** does the child exit within 5 seconds of [terminate] *)
  graceful : bool
}.

(** ** The program *)

Definition SUPPORTED_EXTENSIONS : list string :=
  [".md"; ".ipynb"; ".rst"; ".tex"].

Definition MYST_YML_TEMPLATE : string :=
"version: 1
site:
  template: {theme}
project:
  toc:
    - file: {slug}
".

(** The parsed command line ([argparse] itself is not modelled). *)
Record Args := mkArgs {
  a_file : string;
  a_port : Z;
  a_theme : string;
  a_execute : bool;
  a_build : bool;
  a_output : option string;
  a_no_open : bool
}.

(** Python's truth value of an optional string. *)
Definition truthy (o : option string) : bool :=
  match o with
  | Some s => negb (String.eqb s "")
  | None => false
  end.

Fixpoint insert_sorted (s : string) (l : list string) : list string :=
  match l with
  | [] => [s]
  | x :: l' => if String.leb s x then s :: l else x :: insert_sorted s l'
  end.

Definition sorted (l : list string) : list string :=
  fold_right insert_sorted [] l.

Section Program.

Variable E : Env.

(** *** Sockets and [find_free_port] *)

(** [s.bind(("", port))]: a port outside 0..65535 is refused by the
    socket module with [OverflowError] before any system call; a valid
    port is bound, or is in use ([OSError]). *)
Definition sock_bind (port : Z) : M unit := fun w =>
  if (port <? 0) || (65535 <? port) then
    (Raise (Exn OverflowError "bind(): port must be 0-65535."),
     record (EvBind port false) w)
  else if bind_ok E port then (Ok tt, record (EvBind port true) w)
  else (Raise (Exn OSError "[Errno 98] Address already in use"),
        record (EvBind port false) w).

(** [with socket.socket(...) as s: body]: the socket is closed however
    the body ends. *)
Definition with_socket {A} (body : M A) : M A := fun w =>
  let r := body (record EvSockOpen w) in
  (r.1, record EvSockClose r.2).

(** The [for] loop of [find_free_port]: [Some port] is the [return]
    inside the loop, [None] is the loop running to its end. *)
Fixpoint scan_ports (ports : list Z) : M (option Z) :=
  match ports with
  | [] => mret None
  | port :: rest => fun w =>
      match with_socket (sock_bind port) w with
      | (Ok _, w') => (Ok (Some port), w')
      | (Raise e, w') =>
          if is_OSError e then scan_ports rest w' else (Raise e, w')
      | (SysExit c, w') => (SysExit c, w')
      | (Blocked, w') => (Blocked, w')
      end
  end.

(** [end_ = 0] is the default value of the parameter [end]. *)
Definition effective_end (start end_ : Z) : Z :=
  if end_ =? 0 then start + 50 else end_.

Definition find_free_port (start end_ : Z) : M Z :=
  let end_ := effective_end start end_ in
  found ← scan_ports (py_range start (end_ + 1));
  match found with
  | Some port => mret port
  | None =>
      tell (print_err ("Error: no free port found in range "
                       +:+ pretty start +:+ "-" +:+ pretty end_));;
      sys_exit 1
  end.

(** *** [find_myst] *)

Definition find_myst : M (list string) :=
  let myst := which E "myst" in
  if truthy myst then mret [default "" myst]
  else
    let npx := which E "npx" in
    if truthy npx then mret [default "" npx; "-y"; "mystmd"]
    else
      tell (print_err
              "Error: 'myst' not found. Install with: npm install -g mystmd");;
      sys_exit 1.

(** *** [tempfile.mkdtemp(prefix="myst-preview-")] *)

Fixpoint mkdtemp_from (names : list string) (fs : FS) : exn + (path * FS) :=
  match names with
  | [] =>
      inl (Exn FileExistsError "No usable temporary directory name found")
  | n :: rest =>
      let file := tmp_root E ++ ["myst-preview-" +:+ n] in
      match mkdir (faulty E) file fs with
      | inr fs' => inr (file, fs')
      | inl e =>
          match cls e with
          | FileExistsError => mkdtemp_from rest fs
          | _ => inl e
          end
      end
  end.

Definition mkdtemp : M path := fun w =>
  match mkdtemp_from (tmp_names E) (w_fs w) with
  | inl e => (Raise e, w)
  | inr (d, fs') => (Ok d, set_fs fs' w)
  end.

(** *** Teardown *)

(** [proc.poll()] *)
Definition poll (w : World) : option Z :=
  match w_child w with
  | Exited rc => Some rc
  | _ => None
  end.

Definition stop_child (w : World) : World :=
  if w_proc w && bool_decide (poll w = None) then
    let w1 := record EvTerminate w in
    let w2 :=
      if graceful E then set_child (Exited (-15)) (record (EvWait 5 true) w1)
      else set_child (Exited (-9))
                     (record EvKill (record (EvWait 5 false) w1)) in
    set_proc false w2
  else w.

(** [shutil.rmtree(tmpdir, ignore_errors=True)] *)
Definition remove_workspace (tmpdir : path) (w : World) : World :=
  let r := rmtree_run (faulty E) tmpdir (w_fs w) in
  record (EvRmtree tmpdir (bool_decide (r.2 = None))) (set_fs r.1 w).

Definition cleanup (tmpdir : path) : M unit :=
  tell (fun w => remove_workspace tmpdir (stop_child w)).

Definition cleanup_and_exit {A} (tmpdir : path) : M A :=
  cleanup tmpdir;; sys_exit 0.

(** The arrival of SIGINT or SIGTERM: both run [cleanup_and_exit]. *)
Definition on_signal {A} (tmpdir : path) : M A :=
  tell (record EvSignal);; cleanup_and_exit tmpdir.

(** A place where a signal may reach the main thread. *)
Definition checkpoint (tmpdir : path) (pt : point) : M unit :=
  if signal_at E pt then on_signal tmpdir else mret tt.

(** *** Staging *)

(** The body of the loop over [source_dir.iterdir()]. *)
Fixpoint link_items (source_dir tmpdir : path) (items : list string)
    : M unit :=
  match items with
  | [] => mret tt
  | name :: rest =>
      if String.prefix "." name then link_items source_dir tmpdir rest
      else
        let target := tmpdir ++ [name] in
        fs ← get_fs;
        when (negb (path_exists fs target))
             (fs_call (os_symlink (faulty E) (source_dir ++ [name]) target));;
        link_items source_dir tmpdir rest
  end.

Definition stage_links (source_dir tmpdir : path) : M unit :=
  fs ← get_fs;
  match listdir (faulty E) source_dir fs with
  | inl e => raise e
  | inr items => link_items source_dir tmpdir items
  end.

Definition descriptor (theme slug : string) : option string :=
  str_format [("theme", theme); ("slug", slug)] None MYST_YML_TEMPLATE.

Definition write_descriptor (tmpdir : path) (theme slug : string) : M unit :=
  let myst_yml := tmpdir ++ ["myst.yml"] in
  fs ← get_fs;
  when (is_symlink fs myst_yml) (fs_call (unlink (faulty E) myst_yml));;
  match descriptor theme slug with
  | Some text => fs_call (write_text (faulty E) myst_yml text)
  | None => raise (Exn OSError "KeyError")
  end.

(** *** Build mode *)

(** [subprocess.run(cmd, cwd=tmpdir)]: waits for the child.  A signal
    while it waits runs the handler; the [SystemExit] it raises makes
    [subprocess.run] kill the child before it lets the exit through.
    Without a signal it returns when the child exits, and never if the
    child never does. *)
Definition subprocess_run (tmpdir : path) (cmd : list string) : M Z :=
  fun w =>
    match run_build E cmd tmpdir (w_fs w) with
    | LaunchError e => (Raise e, w)
    | Ran fs' rc =>
        let w1 := record (EvRun cmd tmpdir) (set_fs fs' w) in
        if signal_at E PBuild then
          let r := on_signal tmpdir w1 in (r.1, record EvRunKilled r.2)
        else (Ok rc, w1)
    | Hangs fs' =>
        let w1 := record (EvRun cmd tmpdir) (set_fs fs' w) in
        if signal_at E PBuild then
          let r := on_signal tmpdir w1 in (r.1, record EvRunKilled r.2)
        else (Blocked, w1)
    end.

Definition output_dir (args : Args) : path :=
  if truthy (a_output args) then abspath (cwd E) (default "" (a_output args))
  else cwd E ++ ["_build"; "html"].

Definition copy_output (tmpdir : path) (args : Args) : M unit :=
  let build_dir := tmpdir ++ ["_build"; "html"] in
  let output := output_dir args in
  fs ← get_fs;
  when (path_exists fs output) (fs_call (rmtree (faulty E) output));;
  (fun w =>
     match copytree (faulty E) build_dir output (w_fs w) with
     | (fs', None) => (Ok tt, set_fs fs' w)
     | (fs', Some e) => (Raise e, set_fs fs' w)
     end);;
  tell (print_out ("Output written to " +:+ show_path output)).

Definition build (tmpdir source : path) (args : Args)
    (myst_cmd : list string) : M unit :=
  let cmd := myst_cmd ++ ["build"; "--html"]
             ++ (if a_execute args then ["--execute"] else []) in
  tell (print_out ("Building " +:+ path_name source
                   +:+ " to static HTML..."));;
  returncode ← subprocess_run tmpdir cmd;
  when (returncode =? 0) (copy_output tmpdir args);;
  sys_exit returncode.

(** *** Serve mode *)

(** What the running child does to the file system meanwhile. *)
Definition child_runs : M unit :=
  tell (fun w => set_fs (serve_fs E (w_fs w)) w).

(** [subprocess.Popen(cmd, cwd=tmpdir, env={..., "HOST": "0.0.0.0"})]
    and the assignment to [proc]. *)
Definition popen (tmpdir : path) (cmd : list string) : M unit :=
  match popen_error E with
  | Some e => raise e
  | None =>
      tell (fun w => set_proc true (set_child Running
                       (record (EvPopen cmd tmpdir "0.0.0.0") w)))
  end.

(** [wait_for_port(port)] polls for up to 30 seconds; whether the port
    comes up in time is the environment's. *)
Definition wait_for_port (tmpdir : path) (port : Z) : M bool :=
  child_runs;;
  checkpoint tmpdir PWaitPort;;
  mret (port_up E).

(** [proc.wait()]: returns when the child exits by itself; a signal
    ends the wait through the handler; otherwise it never returns. *)
Definition proc_wait (tmpdir : path) : M unit :=
  child_runs;;
  checkpoint tmpdir PWaitChild;;
  match child_exit E with
  | Some rc => tell (set_child (Exited rc))
  | None => fun w => (Blocked, w)
  end.

Definition serve (tmpdir source : path) (args : Args)
    (myst_cmd : list string) : M unit :=
  port ← find_free_port (a_port args) 0;
  when (negb (port =? a_port args))
       (tell (print_out ("Port " +:+ pretty (a_port args)
                         +:+ " is in use, using " +:+ pretty port
                         +:+ " instead.")));;
  let cmd := myst_cmd ++ ["start"; "--port"; pretty port; "--keep-host"]
             ++ (if a_execute args then ["--execute"] else []) in
  tell (print_out ("Starting MyST preview of " +:+ path_name source));;
  tell (print_out "Press Ctrl+C to stop.
");;
  popen tmpdir cmd;;
  when (negb (a_no_open args))
       (up ← wait_for_port tmpdir port;
        when up (tell (record (EvBrowser ("http://localhost:"
                                          +:+ pretty port)))));;
  proc_wait tmpdir.

(** *** [main] *)

(** The body of the [try] block. *)
Definition supervise (tmpdir source : path) (args : Args) : M unit :=
  checkpoint tmpdir PStart;;
  stage_links (path_parent source) tmpdir;;
  write_descriptor tmpdir (a_theme args) (path_stem source);;
  checkpoint tmpdir PStaged;;
  myst_cmd ← find_myst;
  if a_build args then build tmpdir source args myst_cmd
  else serve tmpdir source args myst_cmd.

(** [try: body except Exception as e: handler e finally: final].
    [SystemExit] is not an [Exception] and passes the handler; the
    [finally] block runs on every way out of the body, and what it
    raises replaces the pending result. *)
Definition try_except_finally (body : M unit) (handler : exn -> M unit)
    (final : M unit) : M unit := fun w =>
  match body w with
  | (Blocked, w1) => (Blocked, w1)
  | (r, w1) =>
      let r2 := match r with
                | Raise e => handler e w1
                | _ => (r, w1)
                end in
      match final r2.2 with
      | (Ok _, w3) => (r2.1, w3)
      | (r3, w3) => (r3, w3)
      end
  end.

(** The part of [main] after the workspace exists. *)
Definition run_in_workspace (tmpdir source : path) (args : Args) : M unit :=
  tell (set_proc false);;
  try_except_finally
    (supervise tmpdir source args)
    (fun e => tell (print_err ("Error: " +:+ msg e)))
    (checkpoint tmpdir PFinally;; cleanup tmpdir).

(** What validation makes of the command line: the resolved source
    path, or the message of the error. *)
Definition validate (args : Args) (fs : FS) : string + path :=
  let source := path_resolve fs (abspath (cwd E) (a_file args)) in
  if negb (path_exists fs source) then
    inl ("Error: " +:+ a_file args +:+ " does not exist")
  else if negb (existsb (String.eqb (path_suffix source))
                        SUPPORTED_EXTENSIONS) then
    inl ("Error: unsupported file type '" +:+ path_suffix source
         +:+ "'. Supported: "
         +:+ String.concat ", " (sorted SUPPORTED_EXTENSIONS))
  else inr source.

Definition main (args : Args) : M unit :=
  fs ← get_fs;
  match validate args fs with
  | inl message => tell (print_err message);; sys_exit 1
  | inr source =>
      tmpdir ← mkdtemp;
      run_in_workspace tmpdir source args
  end.

End Program.

(** ** [wait_for_port] with its clock

    In [main] only the verdict of [wait_for_port] matters, and the model
    above takes it from the environment.  Here the function is modelled
    by itself, with the clock it reads: [time.monotonic()] counted in
    milliseconds.  The clock advances while a [connect_ex] is under way
    and while the thread sleeps; how long a connection attempt takes and
    whether it succeeds, and by how much a sleep overruns, is the
    network's and the scheduler's. *)
Module Polling.

Record Net := mkNet {
  (** [s.connect_ex(("127.0.0.1", port))], started at a given time: does
      it return 0, and after how many milliseconds *)
  connect_ex : Z -> Z -> bool * N;
  (** by how many milliseconds a [time.sleep] that ends at a given time
      at the earliest overruns *)
  oversleep : Z -> N
}.

Inductive step :=
  | SockOpen
  | SetTimeout (ms : Z)
  | Connect (port : Z) (started : Z) (connected : bool)
  | SockClose
  | Sleep (ms : Z).

Record State := mkState {
  now : Z;
  trace : list step
}.

(** One pass through the body of the [with] statement. *)
Definition round (port started : Z) (connected : bool) : list step :=
  [SockOpen; SetTimeout 500; Connect port started connected; SockClose].

(** The [while] loop.  [fuel] bounds the number of passes; [None] is a
    loop that has not ended within them. *)
Fixpoint poll_loop (fuel : nat) (net : Net) (port deadline : Z) (st : State)
    : option (bool * State) :=
  if now st <? deadline then
    match fuel with
    | O => None
    | S fuel' =>
        let r := connect_ex net port (now st) in
        let t1 := now st + Z.of_N r.2 in
        let tr1 := trace st ++ round port (now st) r.1 in
        if r.1 then Some (true, mkState t1 tr1)
        else
          let t2 := t1 + 250 + Z.of_N (oversleep net (t1 + 250)) in
          poll_loop fuel' net port deadline
                    (mkState t2 (tr1 ++ [Sleep 250]))
    end
  else Some (false, st).

(** [timeout] is in milliseconds; the default is 30 seconds. *)
Definition DEFAULT_TIMEOUT : Z := 30000.

Definition wait_for_port (fuel : nat) (net : Net) (port timeout : Z)
    (st : State) : option (bool * State) :=
  let deadline := now st + timeout in
  poll_loop fuel net port deadline st.

(** The number of passes that a timeout leaves room for: one for every
    quarter of a second begun. *)
Definition passes (timeout : Z) : nat := Z.to_nat ((timeout + 249) / 250).

(** The connection attempts of a trace: when each was started and how it
    ended. *)
Definition connects (tr : list step) : list (Z * bool) :=
  omap (fun s => match s with
                 | Connect _ started connected => Some (started, connected)
                 | _ => None
                 end) tr.

(** The sockets that are open at the end of a trace, given those open at
    its start; [None] if a socket is closed that was not open. *)
Fixpoint open_sockets (n : nat) (tr : list step) : option nat :=
  match tr with
  | [] => Some n
  | SockOpen :: tr' => open_sockets (S n) tr'
  | SockClose :: tr' =>
      match n with
      | O => None
      | S n' => open_sockets n' tr'
      end
  | _ :: tr' => open_sockets n tr'
  end.

(** A network on which the port comes up after 600 milliseconds, each
    refused attempt taking 10. *)
Definition slow_start : Net :=
  mkNet (fun _ t => (600 <=? t, 10%N)) (fun _ => 1%N).

(** Where polling port 3000 on it from time 0 ends: the fourth attempt
    succeeds. *)
Definition slow_start_end : State :=
  mkState 793
    (round 3000 0 false ++ [Sleep 250]
     ++ round 3000 261 false ++ [Sleep 250]
     ++ round 3000 522 false ++ [Sleep 250]
     ++ round 3000 783 true).

End Polling.

(** ** The vocabulary of the properties *)

Definition record_all (evs : list event) (w : World) : World :=
  mkWorld (w_fs w) (w_out w) (w_err w) (w_log w ++ evs) (w_proc w)
          (w_child w).

Definition valid_port (p : Z) : Prop := 0 <= p <= 65535.

(** What one candidate leaves in the log. *)
Definition attempt (port : Z) (bound : bool) : list event :=
  [EvSockOpen; EvBind port bound; EvSockClose].

(** A component that path resolution treats as a name. *)
Definition is_plain (c : string) : bool :=
  negb (String.eqb c ".") && negb (String.eqb c "..").

(** A directory all of whose ancestors are directories too. *)
Definition real_dir (fs : FS) (d : path) : Prop :=
  forall p, p <> [] -> p `prefix_of` d -> fs !! p = Some Dir.

(** The workspace: [fs0] is the file system before [mkdtemp], in which
    the path of the workspace led to the free place [q]; a workspace
    state is a later file system in which [q] is a directory and which
    differs from [fs0] only at [q] and below. *)
Definition ws_state (fs0 : FS) (q : path) (fs : FS) : Prop :=
  fs !! q = Some Dir
  /\ forall k, under q k = false -> fs !! k = fs0 !! k.

(** A file system is a tree when every entry sits in a directory. *)
Definition is_tree (fs : FS) : bool :=
  forallb (fun k => match node_at fs (removelast k) with
                    | Some Dir => true
                    | _ => false
                    end)
          (map fst (map_to_list fs)).

(** The text of the generated descriptor. *)
Definition descriptor_text (theme slug : string) : string :=
  "version: 1
site:
  template: " +:+ theme +:+ "
project:
  toc:
    - file: " +:+ slug +:+ "
".

(** Staging and descriptor generation as [main] runs them for the
    command line [args] and the validated [source]. *)
Definition stage (E : Env) (args : Args) (source tmpdir : path) : M unit :=
  stage_links E (path_parent source) tmpdir;;
  write_descriptor E tmpdir (a_theme args) (path_stem source).

Definition benign (e : event) : Prop :=
  match e with
  | EvSignal | EvRmtree _ _ => False
  | _ => True
  end.

Definition quiet {A} (m : M A) : Prop :=
  forall w r w', m w = (r, w') ->
  exists evs, w_log w' = w_log w ++ evs /\ Forall benign evs.

(** The path of the workspace leads to nothing. *)
Definition gone (tmpdir : path) (w : World) : Prop :=
  lexists (w_fs w) tmpdir = false.

(** What [cleanup] does to the world. *)
Definition teardown (E : Env) (tmpdir : path) (w : World) : World :=
  remove_workspace E tmpdir (stop_child E w).

(** A computation of the [try] block is tidy when it either logs no
    signal and no removal, or has run the signal handler: then it ends
    in [sys.exit(0)], a removal of the workspace was attempted, and the
    workspace is gone if an attempt met no error. *)
Definition handled (tmpdir : path) {A} (evs : list event) (r : res A)
    (w' : World) : Prop :=
  r = SysExit 0 /\ EvSignal ∈ evs
  /\ (exists c, EvRmtree tmpdir c ∈ evs)
  /\ (EvRmtree tmpdir true ∈ evs -> gone tmpdir w').

Definition tidy (tmpdir : path) {A} (m : M A) : Prop :=
  forall w r w', m w = (r, w') ->
  exists evs, w_log w' = w_log w ++ evs
              /\ (Forall benign evs \/ handled tmpdir evs r w').

Definition exits {A} (P : Z -> Prop) (m : M A) : Prop :=
  forall w c w', m w = (SysExit c, w') -> P c.

Definition never_exits {A} (m : M A) : Prop := exits (fun _ => False) m.

(** Neither a renderer nor a package runner is on the search path. *)
Definition renderer_missing (E : Env) : Prop :=
  truthy (which E "myst") = false /\ truthy (which E "npx") = false.

(** Every port of the range searched from [start] is a valid port
    number that is taken. *)
Definition ports_exhausted (E : Env) (start : Z) : Prop :=
  forall q, start <= q <= start + 50 -> valid_port q /\ bind_ok E q = false.

(** What can make the [try] block end the process with the status [c]:
    build mode, where [c] is the renderer's return code; no renderer;
    no free port. *)
Definition exit_cause (E : Env) (args : Args) (c : Z) : Prop :=
  (a_build args = true
   /\ exists cmd cwd fs fs', run_build E cmd cwd fs = Ran fs' c)
  \/ (c = 1 /\ renderer_missing E)
  \/ (c = 1 /\ a_build args = false /\ ports_exhausted E (a_port args)).

(** [blocks P m]: whenever [m] never ends, [P] holds. *)
Definition blocks {A} (P : Prop) (m : M A) : Prop :=
  forall w w', m w = (Blocked, w') -> P.

Definition never_blocks {A} (m : M A) : Prop := blocks False m.

(** The two ways in which the main thread waits for ever: for a build
    that never finishes, or for a server that never exits, with no
    signal arriving in either case. *)
Definition waits_for_ever (E : Env) (args : Args) : Prop :=
  (a_build args = true /\ signal_at E PBuild = false
   /\ exists cmd cwd fs fs', run_build E cmd cwd fs = Hangs fs')
  \/ (a_build args = false /\ signal_at E PWaitChild = false
      /\ child_exit E = None).

(** The claim C1 as the specification states it: the workspace is gone
    at the end of every invocation that created it. *)
Definition workspace_always_removed : Prop :=
  forall E args w0 source tmpdir w1 r w',
    validate E args (w_fs w0) = inr source ->
    mkdtemp E w0 = (Ok tmpdir, w1) ->
    main E args w0 = (r, w') ->
    r <> Blocked ->
    lexists (w_fs w') tmpdir = false.

(** *** Traces, invariants and the renderer *)

(** What a sequence of candidates leaves in the log: one open-bind-close
    triple for each. *)
Definition attempts (tried : list (Z * bool)) : list event :=
  flat_map (fun qb : Z * bool => attempt qb.1 qb.2) tried.

(** The exception with which [bind] refuses a number that is no port. *)
Definition bad_port : exn := Exn OverflowError "bind(): port must be 0-65535.".

(** A path all of whose components are names. *)
Definition plain_path (p : path) : Prop :=
  Forall (fun c => is_plain c = true) p.

(** [emits P m]: every event that [m] adds to the log satisfies [P]. *)
Definition emits {A} (P : event -> Prop) (m : M A) : Prop :=
  forall w r w', m w = (r, w') ->
  exists evs, w_log w' = w_log w ++ evs /\ Forall P evs.

(** An event that starts nothing: neither the renderer, in either mode,
    nor the browser. *)
Definition no_launch (e : event) : Prop :=
  match e with
  | EvRun _ _ | EvPopen _ _ _ | EvBrowser _ => False
  | _ => True
  end.

(** The port that serve mode settles on: the first one from the port of
    the command line that can be bound, those before it being in use. *)
Definition chosen_port (E : Env) (args : Args) (port : Z) : Prop :=
  a_port args <= port <= a_port args + 50
  /\ valid_port port /\ bind_ok E port = true
  /\ forall q, a_port args <= q < port -> valid_port q /\ bind_ok E q = false.

(** What is started, and how: the renderer for a build, the renderer as
    a server, the browser. *)
Definition launch (E : Env) (args : Args) (tmpdir : path) (e : event)
    : Prop :=
  match e with
  | EvRun cmd cwd =>
      a_build args = true /\ cwd = tmpdir
      /\ exists myst_cmd,
           (forall w, find_myst E w = (Ok myst_cmd, w))
           /\ cmd = myst_cmd ++ ["build"; "--html"]
                    ++ (if a_execute args then ["--execute"] else [])
  | EvPopen cmd cwd host =>
      a_build args = false /\ cwd = tmpdir /\ host = "0.0.0.0"
      /\ exists myst_cmd port,
           (forall w, find_myst E w = (Ok myst_cmd, w))
           /\ chosen_port E args port
           /\ cmd = myst_cmd ++ ["start"; "--port"; pretty port; "--keep-host"]
                    ++ (if a_execute args then ["--execute"] else [])
  | EvBrowser url =>
      a_build args = false /\ a_no_open args = false /\ port_up E = true
      /\ exists port, chosen_port E args port
                      /\ url = "http://localhost:" +:+ pretty port
  | _ => True
  end.

(** [fs_only m]: [m] changes nothing in the world but the file system. *)
Definition fs_only {A} (m : M A) : Prop :=
  forall w r w', m w = (r, w') -> w' = set_fs (w_fs w') w.

(** [preserves I m]: [m] keeps the invariant [I] of the world. *)
Definition preserves {A} (I : World -> Prop) (m : M A) : Prop :=
  forall w r w', I w -> m w = (r, w') -> I w'.

(** A child that runs is one that [proc] holds: it is within reach of
    [cleanup]. *)
Definition child_held (w : World) : Prop :=
  w_child w = Running -> w_proc w = true.

(** [outside q fs0 fs]: [fs] is [fs0] everywhere but at [q] and below. *)
Definition outside (q : path) (fs0 fs : FS) : Prop :=
  forall k, under q k = false -> fs !! k = fs0 !! k.

(** A renderer that keeps to the workspace at [q]: run to serve or to
    build, it changes nothing outside of it. *)
Definition confined_renderer (E : Env) (q : path) : Prop :=
  (forall fs, outside q fs (serve_fs E fs))
  /\ (forall cmd cwd fs,
        match run_build E cmd cwd fs with
        | Ran fs' _ | Hangs fs' => outside q fs fs'
        | LaunchError _ => True
        end).

(** No build succeeds: the renderer never returns 0. *)
Definition build_fails (E : Env) : Prop :=
  forall cmd cwd fs fs', run_build E cmd cwd fs <> Ran fs' 0.

(** A renderer that turns file systems that are trees into file systems
    that are trees. *)
Definition sound_renderer (E : Env) : Prop :=
  (forall fs, is_tree fs = true -> is_tree (serve_fs E fs) = true)
  /\ (forall cmd cwd fs, is_tree fs = true ->
        match run_build E cmd cwd fs with
        | Ran fs' _ | Hangs fs' => is_tree fs' = true
        | LaunchError _ => True
        end).

(** [extends fs fs']: every entry of [fs] is still there in [fs'], as a
    directory, as the same link, or as a file (whose content may have
    changed); [fs'] may have more entries. *)
Definition extends (fs fs' : FS) : Prop :=
  forall k,
    match fs !! k with
    | Some Dir => fs' !! k = Some Dir
    | Some (Link t) => fs' !! k = Some (Link t)
    | Some (File _) => exists c, fs' !! k = Some (File c)
    | None => True
    end.

(** No signal arrives during the run. *)
Definition undisturbed (E : Env) : Prop := forall pt, signal_at E pt = false.

(** ** Sample machines and runs *)

(** An environment without faults and without signals, a renderer that
    does nothing, a search path with [myst] on it; and a machine on
    which the ports 3000 and 3001 are taken. *)
Definition no_fault (_ : syscall) : bool := false.

Definition no_signal (_ : point) : bool := false.

Definition idle_renderer (_ : list string) (_ : path) (fs : FS)
    : run_outcome := Ran fs 0.

Definition only_myst (name : string) : option string :=
  if String.eqb name "myst" then Some "/usr/bin/myst" else None.

Definition busy_env : Env :=
  mkEnv no_fault (fun p => 3002 <=? p) only_myst ["tmp"] ["k3x9q2ab"]
        ["proj"] no_signal idle_renderer None (fun fs => fs) (Some 0)
        true true.

Definition empty_world : World := mkWorld ∅ [] [] [] false NoChild.

(** A small project, as in the scenario of the specification: a
    document, a picture in a subdirectory, a data file, a hidden
    directory, and a descriptor of the project's own. *)
Definition project_fs : FS :=
  list_to_map
    [ (["proj"], Dir);
      (["proj"; "notes.md"], File "# Notes");
      (["proj"; "img"], Dir);
      (["proj"; "img"; "figure.png"], File "PNG");
      (["proj"; "data.csv"], File "a,b");
      (["proj"; ".git"], Dir);
      (["proj"; "myst.yml"], File "version: 1 # the project's own");
      (["tmp"], Dir) ].

Definition project_world : World := mkWorld project_fs [] [] [] false NoChild.

Definition notes_args : Args :=
  mkArgs "notes.md" 3000 "book-theme" false false None false.

Definition sample_tmpdir : path := ["tmp"; "myst-preview-k3x9q2ab"].

Definition staged_w1 : World := (mkdtemp busy_env project_world).2.

Definition staged_w2 : World :=
  (stage_links busy_env ["proj"] sample_tmpdir staged_w1).2.

Definition described_w2 : World :=
  (stage busy_env notes_args ["proj"; "notes.md"] sample_tmpdir staged_w1).2.

Definition missing_args : Args :=
  mkArgs "missing.md" 3000 "book-theme" false false None false.

Definition csv_args : Args :=
  mkArgs "data.csv" 3000 "book-theme" false false None false.

(** A machine on which the generated descriptor cannot be removed. *)
Definition locked (s : syscall) : bool :=
  match s with
  | SysRemove p => bool_decide (p = sample_tmpdir ++ ["myst.yml"])
  | _ => false
  end.

Definition locked_env : Env :=
  mkEnv locked (fun _ => true) only_myst ["tmp"] ["k3x9q2ab"] ["proj"]
        no_signal idle_renderer None (fun fs => fs) (Some 0) true true.

(** A run that is interrupted while it waits for a child that does not
    react to [terminate]. *)
Definition at_wait (pt : point) : bool :=
  match pt with PWaitChild => true | _ => false end.

Definition interrupted_env : Env :=
  mkEnv no_fault (fun _ => true) only_myst ["tmp"] ["k3x9q2ab"] ["proj"]
        at_wait idle_renderer None (fun fs => fs) None true false.

Definition interrupted_w1 : World :=
  (mkdtemp interrupted_env project_world).2.

(** A renderer that dies with status 3 after being started to serve. *)
Definition crashing_env : Env :=
  mkEnv no_fault (fun _ => true) only_myst ["tmp"] ["k3x9q2ab"] ["proj"]
        no_signal idle_renderer None (fun fs => fs) (Some 3) true true.

(** A command line that asks for a port number beyond 65535. *)
Definition far_port_args : Args :=
  mkArgs "notes.md" 70000 "book-theme" false false None false.

(** [mkdir -p] *)
Definition mkdir_p (p : path) (fs : FS) : FS :=
  fold_left
    (fun fs d =>
       if path_exists fs d then fs
       else match mkdir no_fault d fs with
            | inr fs' => fs'
            | inl _ => fs
            end)
    (map (fun n => take n p) (seq 1 (length p))) fs.

(** A renderer that writes one page to [_build/html] below its working
    directory, through whatever links lie on that path, and succeeds. *)
Definition html_renderer (_ : list string) (cwd : path) (fs : FS)
    : run_outcome :=
  let fs1 := mkdir_p (cwd ++ ["_build"; "html"]) fs in
  match write_text no_fault (cwd ++ ["_build"; "html"; "index.html"])
                   "<html>notes</html>" fs1 with
  | inr fs2 => Ran fs2 0
  | inl _ => Ran fs1 1
  end.

Definition build_env : Env :=
  mkEnv no_fault (fun _ => true) only_myst ["tmp"] ["k3x9q2ab"] ["proj"]
        no_signal html_renderer None (fun fs => fs) (Some 0) true true.

Definition build_args : Args :=
  mkArgs "notes.md" 3000 "book-theme" false true None false.

Definition first_build : res unit * World :=
  main build_env build_args project_world.

Definition second_build : res unit * World :=
  main build_env build_args first_build.2.

(** *** More machines *)

(** A machine with neither [myst] nor [npx] on the search path. *)
Definition no_tools (_ : string) : option string := None.

Definition bare_env : Env :=
  mkEnv no_fault (fun _ => true) no_tools ["tmp"] ["k3x9q2ab"] ["proj"]
        no_signal idle_renderer None (fun fs => fs) (Some 0) true true.

(** A machine on which the link to [img] cannot be made. *)
Definition no_img_link (s : syscall) : bool :=
  match s with
  | SysSymlink p => bool_decide (p = sample_tmpdir ++ ["img"])
  | _ => false
  end.

Definition brittle_env : Env :=
  mkEnv no_img_link (fun _ => true) only_myst ["tmp"] ["k3x9q2ab"] ["proj"]
        no_signal idle_renderer None (fun fs => fs) (Some 0) true true.

(** A renderer that fails with status 2 and leaves the file system as
    it is. *)
Definition failing_renderer (_ : list string) (_ : path) (fs : FS)
    : run_outcome := Ran fs 2.

Definition failing_env : Env :=
  mkEnv no_fault (fun _ => true) only_myst ["tmp"] ["k3x9q2ab"] ["proj"]
        no_signal failing_renderer None (fun fs => fs) (Some 0) true true.

(** The world of a first build at the moment the renderer has
    returned. *)
Definition built_w : World :=
  match html_renderer [] sample_tmpdir (w_fs described_w2) with
  | Ran fs _ => set_fs fs described_w2
  | _ => described_w2
  end.

(** * Properties *)

(** ** Generalities on the monad *)

Lemma record_record_all e evs w :
  record e (record_all evs w) = record_all (evs ++ [e]) w.
Proof. unfold record, record_all; simpl. by rewrite <- app_assoc. Qed.

Lemma record_all_nil w : record_all [] w = w.
Proof. destruct w; unfold record_all; simpl. by rewrite app_nil_r. Qed.

Lemma record_all_app evs1 evs2 w :
  record_all evs2 (record_all evs1 w) = record_all (evs1 ++ evs2) w.
Proof. unfold record_all; simpl. by rewrite <- app_assoc. Qed.

Lemma bind_unfold {A B} (m : M A) (f : A -> M B) w :
  (m ≫= f) w =
  match m w with
  | (Ok a, w') => f a w'
  | (Raise e, w') => (Raise e, w')
  | (SysExit c, w') => (SysExit c, w')
  | (Blocked, w') => (Blocked, w')
  end.
Proof. reflexivity. Qed.

(** A run ends in the world that it ends in. *)
Lemma run_eq {A} (x : res A * World) (r : res A) : x.1 = r -> x = (r, x.2).
Proof. destruct x. simpl. by intros ->. Qed.

(** ** The port scan *)

Lemma map_seq_split {A} (f : nat -> A) pre p post :
  forall s n, map f (seq s n) = pre ++ p :: post ->
  pre = map f (seq s (length pre)) /\ p = f (s + length pre)%nat
  /\ (length pre < n)%nat.
Proof.
  induction pre as [|x pre IH]; intros s n Heq.
  - destruct n as [|n]; simpl in Heq; [discriminate|].
    injection Heq as Hp _. simpl. rewrite Nat.add_0_r. auto with lia.
  - destruct n as [|n]; simpl in Heq; [discriminate|].
    injection Heq as Hx Hrest.
    destruct (IH _ _ Hrest) as (Hpre & Hp & Hlen).
    simpl. rewrite <- Hpre, <- Hx.
    replace (s + S (length pre))%nat with (S s + length pre)%nat by lia.
    auto with lia.
Qed.

Lemma py_range_split a b pre p post :
  py_range a b = pre ++ p :: post ->
  pre = py_range a p /\ a <= p < b.
Proof.
  unfold py_range. intros Heq.
  destruct (map_seq_split _ _ _ _ _ _ Heq) as (Hpre & Hp & Hlen).
  simpl in Hp.
  assert (Hn : Z.to_nat (p - a) = length pre) by lia.
  rewrite Hn. split; [exact Hpre | lia].
Qed.

Lemma elem_of_py_range a b q : q ∈ py_range a b <-> a <= q < b.
Proof.
  unfold py_range. rewrite list_elem_of_fmap. split.
  - intros (i & -> & Hi). apply elem_of_seq in Hi. lia.
  - intros Hq. exists (Z.to_nat (q - a)). split; [lia|].
    apply elem_of_seq. lia.
Qed.

Section PortScan.

Variable E : Env.

Lemma with_socket_bind port w :
  with_socket (sock_bind E port) w =
  if (port <? 0) || (65535 <? port) then
    (Raise (Exn OverflowError "bind(): port must be 0-65535."),
     record_all (attempt port false) w)
  else if bind_ok E port then (Ok tt, record_all (attempt port true) w)
  else (Raise (Exn OSError "[Errno 98] Address already in use"),
        record_all (attempt port false) w).
Proof.
  unfold with_socket, sock_bind, attempt.
  destruct ((port <? 0) || (65535 <? port)); [|destruct (bind_ok E port)];
    simpl; unfold record, record_all; simpl; by rewrite <- !app_assoc.
Qed.

Lemma scan_ports_cons port rest w :
  scan_ports E (port :: rest) w =
  match with_socket (sock_bind E port) w with
  | (Ok _, w') => (Ok (Some port), w')
  | (Raise e, w') =>
      if is_OSError e then scan_ports E rest w' else (Raise e, w')
  | (SysExit c, w') => (SysExit c, w')
  | (Blocked, w') => (Blocked, w')
  end.
Proof. reflexivity. Qed.

(** The loop returns a port exactly after refusing, one by one, every
    candidate before it. *)
Lemma scan_ports_found ports : forall w p w',
  scan_ports E ports w = (Ok (Some p), w') ->
  exists pre post,
    ports = pre ++ p :: post
    /\ Forall (fun q => valid_port q /\ bind_ok E q = false) pre
    /\ valid_port p /\ bind_ok E p = true
    /\ w' = record_all
              (flat_map (fun q => attempt q false) pre ++ attempt p true) w.
Proof.
  induction ports as [|port rest IH]; intros w p w' Hrun; [discriminate|].
  rewrite scan_ports_cons, with_socket_bind in Hrun.
  destruct ((port <? 0) || (65535 <? port)) eqn:Hrange; [discriminate|].
  apply orb_false_elim in Hrange as [Hlo Hhi].
  assert (Hvalid : valid_port port) by (unfold valid_port; lia).
  destruct (bind_ok E port) eqn:Hbind.
  - injection Hrun as <- <-. exists [], rest. simpl. auto.
  - simpl in Hrun. apply IH in Hrun
      as (pre & post & -> & Hpre & Hp & Hok & ->).
    exists (port :: pre), post.
    split; [done|]. split; [by constructor|]. do 2 (split; [done|]).
    by rewrite record_all_app.
Qed.

(** The loop runs to its end exactly when every candidate is refused
    with an [OSError]. *)
Lemma scan_ports_exhausted ports : forall w,
  Forall (fun q => valid_port q /\ bind_ok E q = false) ports ->
  scan_ports E ports w =
  (Ok None, record_all (flat_map (fun q => attempt q false) ports) w).
Proof.
  induction ports as [|port rest IH]; intros w Hall.
  - simpl. by rewrite record_all_nil.
  - apply Forall_cons in Hall as [[Hvalid Hbind] Hrest].
    rewrite scan_ports_cons, with_socket_bind.
    assert ((port <? 0) || (65535 <? port) = false) as ->
      by (unfold valid_port in Hvalid; lia).
    rewrite Hbind. simpl. rewrite IH by done.
    by rewrite record_all_app.
Qed.

End PortScan.

Section FindFreePort.

Variable E : Env.

(** When every candidate is a valid port number and is taken, the
    search prints the range and ends the process with status 1. *)
Lemma find_free_port_exhausted start end_ w :
  (forall q, start <= q <= effective_end start end_ ->
             valid_port q /\ bind_ok E q = false) ->
  find_free_port E start end_ w =
  (SysExit 1,
   print_err ("Error: no free port found in range " +:+ pretty start
              +:+ "-" +:+ pretty (effective_end start end_))
     (record_all (flat_map (fun q => attempt q false)
                    (py_range start (effective_end start end_ + 1))) w)).
Proof.
  intros Hall. unfold find_free_port. rewrite bind_unfold.
  rewrite scan_ports_exhausted; [done|].
  apply Forall_forall. intros q Hq. apply elem_of_py_range in Hq.
  apply Hall. lia.
Qed.

(** C4. If [find_free_port start end_] returns a port [p], then [p] lies
    between [start] and the end of the range ([start + 50] when [end_]
    has its default 0); [p] is the first candidate, going up from
    [start], whose bind succeeds: every candidate before it was tried
    and refused; and each socket, the bound one included, has been
    closed before the function returns: the log grows by one
    open-bind-close triple per candidate, in order, and the last bind
    is the successful one. *)
Theorem find_free_port_returns start end_ w p w' :
  find_free_port E start end_ w = (Ok p, w') ->
  start <= p <= effective_end start end_
  /\ valid_port p /\ bind_ok E p = true
  /\ (forall q, start <= q < p -> valid_port q /\ bind_ok E q = false)
  /\ w' = record_all (flat_map (fun q => attempt q false) (py_range start p)
                      ++ attempt p true) w.
Proof.
  unfold find_free_port. rewrite bind_unfold. intros Hrun.
  destruct (scan_ports E _ w) as [[[p0|]|e|c|] w1] eqn:Hscan;
    try discriminate.
  injection Hrun as -> ->.
  apply scan_ports_found in Hscan
    as (pre & post & Hsplit & Hpre & Hvalid & Hok & ->).
  apply py_range_split in Hsplit as [-> Hbounds].
  split; [lia|]. do 2 (split; [done|]). split; [|done].
  intros q Hq. rewrite Forall_forall in Hpre. apply Hpre.
  apply elem_of_py_range. lia.
Qed.

(** C8 (what the code does on a range of invalid port numbers).  For the
    port 70000 no candidate of the range can be bound, yet the search
    neither prints its message nor exits: [bind] refuses the number with
    an [OverflowError], which [except OSError] does not catch, and the
    exception leaves [find_free_port] at the first candidate. *)
Theorem find_free_port_invalid_port w :
  find_free_port E 70000 0 w =
  (Raise (Exn OverflowError "bind(): port must be 0-65535."),
   record_all (attempt 70000 false) w)
  /\ w_err (find_free_port E 70000 0 w).2 = w_err w.
Proof.
  assert (Hrun : find_free_port E 70000 0 w =
    (Raise (Exn OverflowError "bind(): port must be 0-65535."),
     record_all (attempt 70000 false) w)).
  { unfold find_free_port. rewrite bind_unfold.
    change (py_range 70000 (effective_end 70000 0 + 1))
      with (70000 :: py_range 70001 70051).
    by rewrite scan_ports_cons, with_socket_bind. }
  by rewrite Hrun.
Qed.

End FindFreePort.

Lemma find_free_port_returns_witness :
  3000 <= 3002 <= effective_end 3000 0
  /\ valid_port 3002 /\ bind_ok busy_env 3002 = true
  /\ (forall q, 3000 <= q < 3002 ->
        valid_port q /\ bind_ok busy_env q = false)
  /\ (find_free_port busy_env 3000 0 empty_world).2
     = record_all (flat_map (fun q => attempt q false) (py_range 3000 3002)
                   ++ attempt 3002 true) empty_world.
Proof.
  apply (find_free_port_returns busy_env 3000 0 empty_world 3002).
  apply run_eq. vm_compute. reflexivity.
Defined.

(** ** Validation *)

Lemma existsb_eqb_In s l : existsb (String.eqb s) l = true <-> In s l.
Proof.
  rewrite existsb_exists. split.
  - intros (x & Hin & Heq). apply String.eqb_eq in Heq. by subst.
  - intros Hin. exists s. split; [done | apply String.eqb_refl].
Qed.


(** ** Paths *)

Lemma strip_prefix_spec d : forall k r,
  strip_prefix d k = Some r <-> k = d ++ r.
Proof.
  induction d as [|x d IH]; intros k r; simpl.
  - split; [by intros [= ->] | by intros ->].
  - destruct k as [|y k]; [split; discriminate|].
    destruct (String.eqb_spec x y) as [->|Hne].
    + rewrite IH. split; [by intros -> | by intros [= ->]].
    + split; [discriminate | intros [= Hxy _]; by subst].
Qed.

Lemma under_spec q k : under q k = true <-> q `prefix_of` k.
Proof.
  unfold under. split.
  - destruct (strip_prefix q k) as [r|] eqn:H; [|discriminate].
    intros _. apply strip_prefix_spec in H. by exists r.
  - intros [r ->].
    by rewrite (proj2 (strip_prefix_spec q (q ++ r) r) eq_refl).
Qed.

Lemma under_app q r : under q (q ++ r) = true.
Proof. apply under_spec. by exists r. Qed.

Lemma under_refl q : under q q = true.
Proof. apply under_spec. reflexivity. Qed.

Lemma child_name_spec d k n : child_name d k = Some n <-> k = d ++ [n].
Proof.
  unfold child_name. split.
  - destruct (strip_prefix d k) as [[|x [|y r]]|] eqn:H; try discriminate.
    intros [= ->]. by apply strip_prefix_spec.
  - intros ->.
    by rewrite (proj2 (strip_prefix_spec d (d ++ [n]) [n]) eq_refl).
Qed.

Lemma prefix_snoc_inv (p cur : path) c :
  p `prefix_of` cur ++ [c] -> p = cur ++ [c] \/ p `prefix_of` cur.
Proof.
  intros [k Hk]. destruct k as [|x k _] using rev_ind.
  - left. by rewrite app_nil_r in Hk.
  - right. rewrite app_assoc in Hk.
    apply app_inj_tail in Hk as [-> _]. by exists k.
Qed.

Lemma prefix_removelast (cur : path) : removelast cur `prefix_of` cur.
Proof.
  destruct cur as [|x cur _] using rev_ind; [done|].
  rewrite removelast_last. by exists [x].
Qed.

Lemma not_hidden_plain n : String.prefix "." n = false -> is_plain n = true.
Proof.
  intros H. unfold is_plain.
  destruct (String.eqb_spec n ".") as [->|_]; [discriminate|].
  destruct (String.eqb_spec n "..") as [->|_]; [discriminate|done].
Qed.

(** ** Path resolution *)

Lemma walk_nil h fs fl cur : walk h fs fl cur [] = Some cur.
Proof. by destruct h. Qed.

Lemma walk_cons h fs fl cur c rest :
  walk h fs fl cur (c :: rest) =
  if String.eqb c "." then walk h fs fl cur rest
  else if String.eqb c ".." then walk h fs fl (removelast cur) rest
  else
    match fs !! (cur ++ [c]) with
    | Some (Link t) =>
        if negb fl && is_nil rest then Some (cur ++ [c])
        else match h with
             | O => None
             | S h' => walk h' fs fl [] (t ++ rest)
             end
    | Some Dir => walk h fs fl (cur ++ [c]) rest
    | Some (File _) | None =>
        if is_nil rest then Some (cur ++ [c]) else None
    end.
Proof. by destruct h. Qed.

(** The one step into a directory [q] for a plain name. *)
Lemma walk_plain_nofollow h fs q n :
  is_plain n = true -> walk h fs false q [n] = Some (q ++ [n]).
Proof.
  intros Hn. apply andb_prop in Hn as [H1 H2].
  rewrite walk_cons.
  destruct (String.eqb n "."); [done|]. destruct (String.eqb n ".."); [done|].
  destruct (fs !! (q ++ [n])) as [[| |]|]; simpl; by rewrite ?walk_nil.
Qed.

Lemma walk_plain_follow h fs q n :
  is_plain n = true ->
  (forall t, fs !! (q ++ [n]) <> Some (Link t)) ->
  walk h fs true q [n] = Some (q ++ [n]).
Proof.
  intros Hn Hnot. apply andb_prop in Hn as [H1 H2].
  rewrite walk_cons.
  destruct (String.eqb n "."); [done|]. destruct (String.eqb n ".."); [done|].
  destruct (fs !! (q ++ [n])) as [[| |t]|] eqn:Hlook; simpl;
    rewrite ?walk_nil; try done.
  by destruct (Hnot t).
Qed.

Lemma real_dir_nil fs : real_dir fs [].
Proof. intros p Hp Hpre. apply prefix_nil_inv in Hpre. contradiction. Qed.

Lemma real_dir_snoc fs cur c :
  real_dir fs cur -> fs !! (cur ++ [c]) = Some Dir -> real_dir fs (cur ++ [c]).
Proof.
  intros Hcur Hdir p Hp Hpre.
  apply prefix_snoc_inv in Hpre as [->|Hpre]; auto.
Qed.

Lemma real_dir_removelast fs cur :
  real_dir fs cur -> real_dir fs (removelast cur).
Proof.
  intros Hcur p Hp Hpre. apply Hcur; [done|].
  etrans; [exact Hpre | apply prefix_removelast].
Qed.

(** *** Resolution into a directory that has just been made

    [fs0] is a file system in which nothing is at [q]; [fs'] is any
    later state in which [q] is a directory and which differs from
    [fs0] only at [q] and below.  A path that led to the free place [q]
    in [fs0] leads into the directory [q] in [fs']. *)
Section FreshDir.

Variables (fs0 fs' : FS) (q : path).
Hypothesis Hq : q <> [].
Hypothesis Hfree : fs0 !! q = None.
Hypothesis Hdir : fs' !! q = Some Dir.
Hypothesis Hagree : forall k, under q k = false -> fs' !! k = fs0 !! k.

Lemma fresh_step cur c :
  real_dir fs0 cur -> cur ++ [c] <> q ->
  fs' !! (cur ++ [c]) = fs0 !! (cur ++ [c]).
Proof.
  intros Hcur Hne. apply Hagree.
  destruct (under q (cur ++ [c])) eqn:Hu; [|done].
  apply under_spec, prefix_snoc_inv in Hu as [->|Hpre]; [done|].
  pose proof (Hcur q Hq Hpre). congruence.
Qed.

#[local] Abbreviation leads_in fl more h rest cur :=
  (real_dir fs0 cur ->
   walk h fs0 false cur rest = Some q ->
   exists h', walk h fs' fl cur (rest ++ more) = walk h' fs' fl q more).

Lemma walk_into_fresh_step fl more h :
  (forall h1, h = S h1 -> forall rest cur, leads_in fl more h1 rest cur) ->
  forall rest cur, leads_in fl more h rest cur.
Proof.
  intros IHh.
  induction rest as [|c rest IH]; intros cur Hcur Hwalk.
  - rewrite walk_nil in Hwalk. injection Hwalk as ->. by exists h.
  - rewrite walk_cons in Hwalk. simpl app. rewrite walk_cons.
    destruct (String.eqb c "."); [by apply IH|].
    destruct (String.eqb c "..");
      [by apply IH; [apply real_dir_removelast|]|].
    destruct (decide (cur ++ [c] = q)) as [Heq|Hne].
    { rewrite Heq, Hfree in Hwalk. rewrite Heq, Hdir.
      destruct rest; [|discriminate]. by exists h. }
    rewrite (fresh_step _ _ Hcur Hne).
    destruct (fs0 !! (cur ++ [c])) as [[| |t]|] eqn:Hlook.
    + destruct rest; cbn [is_nil] in Hwalk; [congruence | discriminate].
    + apply IH; [by apply real_dir_snoc | done].
    + cbn [negb andb] in Hwalk.
      destruct rest as [|c' rest]; cbn [is_nil] in Hwalk; [congruence|].
      rewrite andb_false_r. simpl app.
      destruct h as [|h1]; [discriminate|].
      destruct (IHh h1 eq_refl (t ++ c' :: rest) [] (real_dir_nil _) Hwalk)
        as [h' Hh'].
      exists h'. rewrite <- Hh'. by rewrite <- app_assoc.
    + destruct rest; cbn [is_nil] in Hwalk; [congruence | discriminate].
Qed.

Lemma walk_into_fresh fl more h : forall rest cur, leads_in fl more h rest cur.
Proof.
  induction h as [|h IHh]; apply walk_into_fresh_step.
  - intros h1 Hh1. discriminate.
  - intros h1 [= <-]. exact IHh.
Qed.

End FreshDir.

(** *** Resolution after a tree has been removed

    [fs'] is [fs] without the tree at [q].  A path that led to [q]
    leads nowhere in [fs']. *)
Section RemovedTree.

Variables (fs fs' : FS) (q : path).
Hypothesis Hq : q <> [].
Hypothesis Hgone : forall k, under q k = true -> fs' !! k = None.
Hypothesis Hsame : forall k, under q k = false -> fs' !! k = fs !! k.

#[local] Abbreviation leads_nowhere h rest cur :=
  (walk h fs false cur rest = Some q ->
   match walk h fs' false cur rest with
   | Some r => node_at fs' r = None
   | None => True
   end).

Lemma removed_here cur :
  under q cur = true -> cur <> [] -> node_at fs' cur = None.
Proof. intros Hu Hne. destruct cur; [done|]. by apply Hgone. Qed.

Lemma walk_removed_step h :
  (forall h1, h = S h1 -> forall rest cur, leads_nowhere h1 rest cur) ->
  forall rest cur, leads_nowhere h rest cur.
Proof.
  intros IHh.
  induction rest as [|c rest IH]; intros cur Hwalk.
  - rewrite walk_nil in *. injection Hwalk as ->.
    apply removed_here; [apply under_refl | done].
  - rewrite walk_cons in Hwalk. rewrite walk_cons.
    destruct (String.eqb c "."); [by apply IH|].
    destruct (String.eqb c ".."); [by apply IH|].
    assert (Hne : cur ++ [c] <> []) by (by destruct cur).
    destruct (under q (cur ++ [c])) eqn:Hu.
    { rewrite (Hgone _ Hu).
      destruct rest; cbn [is_nil]; [by apply removed_here | done]. }
    assert (Hnot : Some (cur ++ [c]) <> Some q).
    { intros [= Heq]. by rewrite Heq, under_refl in Hu. }
    rewrite (Hsame _ Hu).
    destruct (fs !! (cur ++ [c])) as [[| |t]|] eqn:Hlook.
    + destruct rest; cbn [is_nil] in *; [done | discriminate].
    + by apply IH.
    + cbn [negb andb] in *.
      destruct rest as [|c' rest]; cbn [is_nil] in *; [done|].
      destruct h as [|h1]; [discriminate|]. by apply (IHh h1 eq_refl).
    + destruct rest; cbn [is_nil] in *; [done | discriminate].
Qed.

Lemma walk_removed h : forall rest cur, leads_nowhere h rest cur.
Proof.
  induction h as [|h IHh]; apply walk_removed_step.
  - intros h1 Hh1. discriminate.
  - intros h1 [= <-]. exact IHh.
Qed.

End RemovedTree.

(** ** [rmtree] *)

Lemma under_trans q k k' :
  under q k = true -> under k k' = true -> under q k' = true.
Proof. rewrite !under_spec. intros. by etrans. Qed.

Section Rmtree.

Variable flt : syscall -> bool.

Lemma stuck_up fs q k :
  under q k = true -> stuck flt fs k = true -> stuck flt fs q = true.
Proof.
  unfold stuck. rewrite !existsb_exists.
  intros Hu (kv & Hin & Hbad). exists kv. split; [done|].
  apply andb_prop in Hbad as [Huk Hf]. apply andb_true_intro.
  split; [by eapply under_trans | done].
Qed.

Lemma lookup_after_rmtree fs q k :
  filter (survives flt fs q) fs !! k =
  if negb (under q k) || stuck flt fs k then fs !! k else None.
Proof.
  destruct (negb (under q k) || stuck flt fs k) eqn:Hs.
  - destruct (fs !! k) as [x|] eqn:Hk.
    + by apply map_lookup_filter_Some.
    + apply map_lookup_filter_None. by left.
  - apply map_lookup_filter_None. right. intros x Hk.
    unfold survives. simpl. by rewrite Hs.
Qed.

(** A removal without error leaves nothing at or below the place the
    path led to, and touches nothing else. *)
Lemma rmtree_run_clean p fs fs' :
  rmtree_run flt p fs = (fs', None) ->
  exists q, lresolve fs p = Some q /\ q <> []
    /\ (forall k, under q k = true -> fs' !! k = None)
    /\ (forall k, under q k = false -> fs' !! k = fs !! k).
Proof.
  unfold rmtree_run.
  destruct (lresolve fs p) as [q|] eqn:Hres; [|discriminate].
  destruct (node_at fs q) as [[| |]|]; try discriminate.
  destruct (stuck flt fs q) eqn:Hstuck; [discriminate|].
  destruct q as [|c q]; [discriminate|]. simpl orb. cbv iota.
  intros [= <-]. exists (c :: q). split; [done|]. split; [done|].
  split; intros k Hu; rewrite lookup_after_rmtree, Hu; simpl.
  - destruct (stuck flt fs k) eqn:Hk; [|done].
    by rewrite (stuck_up _ _ _ Hu Hk) in Hstuck.
  - done.
Qed.

(** Whatever happens, [rmtree] only ever removes entries. *)
Lemma rmtree_run_shrinks p fs k :
  (rmtree_run flt p fs).1 !! k = None
  \/ (rmtree_run flt p fs).1 !! k = fs !! k.
Proof.
  unfold rmtree_run.
  destruct (lresolve fs p) as [q|]; [|by right].
  destruct (node_at fs q) as [[| |]|]; try by right.
  simpl. rewrite lookup_after_rmtree.
  destruct (negb (under q k) || stuck flt fs k); auto.
Qed.

Lemma rmtree_run_absent p fs :
  lexists fs p = false -> (rmtree_run flt p fs).1 = fs.
Proof.
  unfold lexists, lstat, rmtree_run.
  destruct (lresolve fs p) as [q|]; [|done].
  by destruct (node_at fs q) as [[| |]|].
Qed.

Lemma rmtree_clean_absent p fs fs' :
  rmtree_run flt p fs = (fs', None) -> lexists fs' p = false.
Proof.
  intros Hrun.
  destruct (rmtree_run_clean _ _ _ Hrun) as (q & Hres & Hq & Hgone & Hsame).
  pose proof (walk_removed fs fs' q Hq Hgone Hsame _ _ _ Hres) as Hwalk.
  unfold lexists, lstat, lresolve.
  destruct (walk MAXSYMLINKS fs' false [] p); [by rewrite Hwalk | done].
Qed.

End Rmtree.

(** ** The workspace

    [fs0] is the file system before [mkdtemp]; the path [tmpdir] led to
    the free place [q] there.  A workspace state is a later file system
    in which [q] is a directory and which differs from [fs0] only at [q]
    and below. *)

Lemma node_at_snoc fs (d : path) n : node_at fs (d ++ [n]) = fs !! (d ++ [n]).
Proof. by destruct d. Qed.

Lemma snoc_ne (d : path) (n : string) : d ++ [n] <> d.
Proof.
  intros H. apply (f_equal length) in H. rewrite length_app in H.
  simpl in H. lia.
Qed.

Lemma under_strict_ne q k : under q k = false -> k <> q.
Proof. intros Hu ->. by rewrite under_refl in Hu. Qed.

Section Workspace.

Variables (fs0 : FS) (tmpdir q : path).
Hypothesis Hres0 : lresolve fs0 tmpdir = Some q.
Hypothesis Hfree : node_at fs0 q = None.

Lemma ws_nonroot : q <> [].
Proof. intros Heq. rewrite Heq in Hfree. discriminate. Qed.

Lemma ws_free : fs0 !! q = None.
Proof. pose proof ws_nonroot. destruct q; [done | exact Hfree]. Qed.

Lemma ws_state_fresh : ws_state fs0 q (<[q := Dir]> fs0).
Proof.
  split; [apply lookup_insert_eq|].
  intros k Hu. apply lookup_insert_ne. intros ->.
  by rewrite under_refl in Hu.
Qed.

Lemma ws_state_insert fs n x :
  ws_state fs0 q fs -> ws_state fs0 q (<[q ++ [n] := x]> fs).
Proof.
  intros [Hdir Hagree]. split.
  - rewrite lookup_insert_ne; [done | apply snoc_ne].
  - intros k Hu. rewrite lookup_insert_ne; [by apply Hagree|].
    intros <-. by rewrite under_app in Hu.
Qed.

Lemma ws_state_delete fs n :
  ws_state fs0 q fs -> ws_state fs0 q (delete (q ++ [n]) fs).
Proof.
  intros [Hdir Hagree]. split.
  - rewrite lookup_delete_ne; [done | apply snoc_ne].
  - intros k Hu. rewrite lookup_delete_ne; [by apply Hagree|].
    intros <-. by rewrite under_app in Hu.
Qed.

Lemma walk_ws fs fl more :
  ws_state fs0 q fs ->
  exists h, walk MAXSYMLINKS fs fl [] (tmpdir ++ more) = walk h fs fl q more.
Proof.
  intros [Hdir Hagree].
  exact (walk_into_fresh fs0 fs q ws_nonroot ws_free Hdir Hagree fl more
           MAXSYMLINKS tmpdir [] (real_dir_nil _) Hres0).
Qed.

Lemma lresolve_ws_root fs : ws_state fs0 q fs -> lresolve fs tmpdir = Some q.
Proof.
  intros Hws. destruct (walk_ws fs false [] Hws) as [h Hh].
  unfold lresolve. rewrite app_nil_r in Hh. by rewrite Hh, walk_nil.
Qed.

Lemma lresolve_ws fs n :
  ws_state fs0 q fs -> is_plain n = true ->
  lresolve fs (tmpdir ++ [n]) = Some (q ++ [n]).
Proof.
  intros Hws Hn. destruct (walk_ws fs false [n] Hws) as [h Hh].
  unfold lresolve. by rewrite Hh, walk_plain_nofollow.
Qed.

Lemma resolve_ws fs n :
  ws_state fs0 q fs -> is_plain n = true ->
  (forall t, fs !! (q ++ [n]) <> Some (Link t)) ->
  resolve fs (tmpdir ++ [n]) = Some (q ++ [n]).
Proof.
  intros Hws Hn Hnot. destruct (walk_ws fs true [n] Hws) as [h Hh].
  unfold resolve. by rewrite Hh, walk_plain_follow.
Qed.

Lemma lstat_ws fs n :
  ws_state fs0 q fs -> is_plain n = true ->
  lstat fs (tmpdir ++ [n]) = fs !! (q ++ [n]).
Proof.
  intros Hws Hn. unfold lstat. by rewrite lresolve_ws, node_at_snoc.
Qed.

Lemma path_exists_ws_free fs n :
  ws_state fs0 q fs -> is_plain n = true -> fs !! (q ++ [n]) = None ->
  path_exists fs (tmpdir ++ [n]) = false.
Proof.
  intros Hws Hn Hnone. unfold path_exists, stat.
  rewrite resolve_ws, node_at_snoc, Hnone; [done..|]. congruence.
Qed.

Variable flt : syscall -> bool.

Lemma os_symlink_ws fs src n :
  ws_state fs0 q fs -> is_plain n = true ->
  os_symlink flt src (tmpdir ++ [n]) fs =
  if flt (SysSymlink (tmpdir ++ [n]))
  then inl (os_error "symlink failed" (tmpdir ++ [n]))
  else match fs !! (q ++ [n]) with
       | Some _ => inl (errno FileExistsError (tmpdir ++ [n]))
       | None => inr (<[q ++ [n] := Link src]> fs)
       end.
Proof.
  intros Hws Hn. unfold os_symlink.
  by rewrite lresolve_ws, node_at_snoc.
Qed.

Lemma unlink_ws fs n :
  ws_state fs0 q fs -> is_plain n = true ->
  unlink flt (tmpdir ++ [n]) fs =
  if flt (SysUnlink (tmpdir ++ [n]))
  then inl (os_error "unlink failed" (tmpdir ++ [n]))
  else match fs !! (q ++ [n]) with
       | Some (File _) | Some (Link _) => inr (delete (q ++ [n]) fs)
       | Some Dir => inl (errno IsADirectoryError (tmpdir ++ [n]))
       | None => inl (errno FileNotFoundError (tmpdir ++ [n]))
       end.
Proof.
  intros Hws Hn. unfold unlink. by rewrite lresolve_ws, node_at_snoc.
Qed.

Lemma write_text_ws fs n s :
  ws_state fs0 q fs -> is_plain n = true ->
  (forall t, fs !! (q ++ [n]) <> Some (Link t)) ->
  write_text flt (tmpdir ++ [n]) s fs =
  if flt (SysWrite (tmpdir ++ [n]))
  then inl (os_error "write failed" (tmpdir ++ [n]))
  else match fs !! (q ++ [n]) with
       | Some Dir => inl (errno IsADirectoryError (tmpdir ++ [n]))
       | _ => inr (<[q ++ [n] := File s]> fs)
       end.
Proof.
  intros Hws Hn Hnot. unfold write_text.
  rewrite resolve_ws, node_at_snoc by done.
  destruct (fs !! (q ++ [n])) as [[| |t]|] eqn:Hlook; try done.
  by destruct (Hnot t).
Qed.

End Workspace.

(** ** Directory listings and trees *)

Lemma elem_of_keys (fs : FS) k :
  k ∈ map fst (map_to_list fs) <-> is_Some (fs !! k).
Proof.
  rewrite list_elem_of_fmap. split.
  - intros ([k' x] & -> & Hin). apply elem_of_map_to_list in Hin. by exists x.
  - intros [x Hx]. exists (k, x). split; [done|].
    by apply elem_of_map_to_list.
Qed.

Lemma elem_of_children fs d n :
  n ∈ children fs d <-> is_Some (fs !! (d ++ [n])).
Proof.
  unfold children. rewrite list_elem_of_omap. split.
  - intros (k & Hin & Hname). apply child_name_spec in Hname as ->.
    by apply elem_of_keys.
  - intros Hsome. exists (d ++ [n]). split; [by apply elem_of_keys|].
    by apply child_name_spec.
Qed.

Lemma NoDup_omap_inj {A B} (f : A -> option B) (l : list A) :
  (forall x y z, f x = Some z -> f y = Some z -> x = y) ->
  NoDup l -> NoDup (omap f l).
Proof.
  intros Hinj. induction 1 as [|x l Hx Hl IH]; simpl; [constructor|].
  destruct (f x) as [z|] eqn:Hfx; [|done].
  constructor; [|done].
  intros Hin. apply list_elem_of_omap in Hin as (y & Hy & Hfy).
  by rewrite (Hinj x y z Hfx Hfy) in Hx.
Qed.

Lemma NoDup_children fs d : NoDup (children fs d).
Proof.
  apply NoDup_omap_inj; [|apply NoDup_fst_map_to_list].
  intros x y z Hx Hy.
  apply child_name_spec in Hx, Hy. congruence.
Qed.

Lemma is_tree_parent fs k :
  is_tree fs = true -> is_Some (fs !! k) ->
  node_at fs (removelast k) = Some Dir.
Proof.
  unfold is_tree. rewrite forallb_forall. intros Hall Hk.
  apply elem_of_keys, list_elem_of_In in Hk. apply Hall in Hk.
  by destruct (node_at fs (removelast k)) as [[| |]|].
Qed.

(** In a tree nothing lies below a place that is free. *)
Lemma tree_free_below fs q k :
  is_tree fs = true -> q <> [] -> fs !! q = None ->
  under q k = true -> fs !! k = None.
Proof.
  intros Htree Hq Hfree Hu. apply under_spec in Hu as [r ->].
  induction r as [|x r IH] using rev_ind; [by rewrite app_nil_r|].
  destruct (fs !! (q ++ r ++ [x])) as [y|] eqn:Hk; [|done].
  assert (Hpar : node_at fs (removelast (q ++ r ++ [x])) = Some Dir)
    by (apply is_tree_parent; [done | by rewrite Hk]).
  rewrite app_assoc, removelast_last in Hpar.
  assert (node_at fs (q ++ r) = fs !! (q ++ r)) as Hat
    by (destruct q; [done | reflexivity]).
  congruence.
Qed.

(** ** [mkdtemp] *)

Lemma mkdir_inv flt p fs fs' :
  mkdir flt p fs = inr fs' ->
  exists q, lresolve fs p = Some q /\ node_at fs q = None
            /\ fs' = <[q := Dir]> fs.
Proof.
  unfold mkdir. destruct (flt (SysMkdir p)); [discriminate|].
  destruct (lresolve fs p) as [q|]; [|discriminate].
  destruct (node_at fs q) eqn:Hq; [discriminate|].
  intros [= <-]. by exists q.
Qed.

Lemma mkdtemp_from_inv E names : forall fs d fs',
  mkdtemp_from E names fs = inr (d, fs') ->
  exists n q, d = tmp_root E ++ ["myst-preview-" +:+ n]
    /\ lresolve fs d = Some q /\ node_at fs q = None
    /\ fs' = <[q := Dir]> fs.
Proof.
  induction names as [|n names IH]; intros fs d fs' Hrun; [discriminate|].
  simpl in Hrun.
  destruct (mkdir (faulty E) _ fs) as [e|fs1] eqn:Hmk.
  - destruct (cls e); try discriminate. by apply IH.
  - injection Hrun as <- <-. apply mkdir_inv in Hmk as (q & ? & ? & ?).
    by exists n, q.
Qed.

Lemma mkdtemp_inv E w d w1 :
  mkdtemp E w = (Ok d, w1) ->
  exists n q, d = tmp_root E ++ ["myst-preview-" +:+ n]
    /\ lresolve (w_fs w) d = Some q /\ node_at (w_fs w) q = None
    /\ w1 = set_fs (<[q := Dir]> (w_fs w)) w.
Proof.
  unfold mkdtemp.
  destruct (mkdtemp_from E (tmp_names E) (w_fs w)) as [e|[d' fs']] eqn:Hmk;
    [discriminate|].
  intros [= <- <-].
  apply mkdtemp_from_inv in Hmk as (n & q & ? & ? & ? & ->). by exists n, q.
Qed.

(** ** Staging *)

Lemma set_fs_same w : set_fs (w_fs w) w = w.
Proof. by destruct w. Qed.

Lemma set_fs_set_fs f g w : set_fs f (set_fs g w) = set_fs f w.
Proof. done. Qed.

Section Staging.

Variables (E : Env) (fs0 : FS) (tmpdir q source_dir : path).
Hypothesis Hres0 : lresolve fs0 tmpdir = Some q.
Hypothesis Hfree : node_at fs0 q = None.

#[local] Abbreviation ws := (ws_state fs0 q).

(** What the loop over the directory entries does, started in any
    workspace state in which the names it is given are still free. *)
Lemma link_items_spec items : forall w r w2,
  NoDup items ->
  ws (w_fs w) ->
  (forall n, n ∈ items -> w_fs w !! (q ++ [n]) = None) ->
  link_items E source_dir tmpdir items w = (r, w2) ->
  ws (w_fs w2)
  /\ w2 = set_fs (w_fs w2) w
  /\ (forall k, w_fs w2 !! k <> w_fs w !! k ->
        exists n, n ∈ items /\ String.prefix "." n = false
                  /\ k = q ++ [n]
                  /\ w_fs w2 !! k = Some (Link (source_dir ++ [n])))
  /\ (r = Ok tt ->
      forall n, n ∈ items -> String.prefix "." n = false ->
                w_fs w2 !! (q ++ [n]) = Some (Link (source_dir ++ [n])))
  /\ (r = Ok tt \/ exists e, r = Raise e)
  /\ ((forall n, n ∈ items -> faulty E (SysSymlink (tmpdir ++ [n])) = false)
      -> r = Ok tt).
Proof.
  induction items as [|name rest IH]; intros w r w2 Hnodup Hws Hfr Hrun.
  { injection Hrun as <- <-. rewrite set_fs_same.
    do 3 (split; [done|]). split; [|split; [by left | done]].
    intros _ n Hn. by apply elem_of_nil in Hn. }
  apply NoDup_cons in Hnodup as [Hname Hnodup].
  simpl in Hrun.
  destruct (String.prefix "." name) eqn:Hhid.
  { destruct (IH w r w2 Hnodup Hws) as (H1 & H2 & H3 & H4 & H5 & H6);
      [intros n Hn; apply Hfr; by right | done |].
    split; [done|]. split; [done|]. split; [|split; [|split; [done|]]].
    - intros k Hk. destruct (H3 k Hk) as (n & Hn & ?).
      exists n. split; [by right | done].
    - intros Hr n Hn Hvis. apply H4; [done| |done].
      apply elem_of_cons in Hn as [->|Hn]; [congruence | done].
    - intros Hok. apply H6. intros n Hn. apply Hok. by right. }
  pose proof (not_hidden_plain _ Hhid) as Hplain.
  rewrite bind_unfold in Hrun. unfold get_fs in Hrun.
  rewrite (path_exists_ws_free fs0 tmpdir q Hres0 Hfree) in Hrun;
    [|done|done|apply Hfr; by left].
  simpl negb in Hrun. unfold when in Hrun. rewrite bind_unfold in Hrun.
  unfold fs_call in Hrun.
  rewrite (os_symlink_ws fs0 tmpdir q Hres0 Hfree) in Hrun by done.
  rewrite (Hfr name) in Hrun by (by left).
  destruct (faulty E (SysSymlink (tmpdir ++ [name]))) eqn:Hflt.
  { injection Hrun as <- <-. rewrite set_fs_same.
    split; [done|]. split; [done|]. split; [done|]. split; [done|].
    split; [by right; eexists|].
    intros Hok. rewrite Hok in Hflt; [done | by left]. }
  set (w1 := set_fs (<[q ++ [name] := Link (source_dir ++ [name])]> (w_fs w)) w)
    in Hrun.
  destruct (IH w1 r w2 Hnodup) as (H1 & H2 & H3 & H4 & H5 & H6); [| |done|].
  { by apply ws_state_insert. }
  { intros n Hn. simpl. rewrite lookup_insert_ne; [apply Hfr; by right|].
    intros Heq. apply app_inv_head in Heq. congruence. }
  assert (Hkeep : w_fs w2 !! (q ++ [name])
                  = Some (Link (source_dir ++ [name]))).
  { destruct (decide (w_fs w2 !! (q ++ [name]) = w_fs w1 !! (q ++ [name])))
      as [->|Hne]; [apply lookup_insert_eq|].
    destruct (H3 _ Hne) as (n & Hn & _ & Heq & _).
    apply app_inv_head in Heq. congruence. }
  split; [done|]. split; [by rewrite H2|].
  split; [|split; [|split; [done|]]].
  - intros k Hk.
    destruct (decide (w_fs w2 !! k = w_fs w1 !! k)) as [Heq|Hne].
    + exists name. destruct (decide (k = q ++ [name])) as [->|Hk'].
      * split; [by left | done].
      * exfalso. apply Hk. rewrite Heq. simpl. by rewrite lookup_insert_ne.
    + destruct (H3 k Hne) as (n & Hn & ?). exists n. split; [by right|done].
  - intros Hr n Hn Hvis. apply elem_of_cons in Hn as [->|Hn]; auto.
  - intros Hok. apply H6. intros n Hn. apply Hok. by right.
Qed.

Lemma descriptor_eq theme slug :
  descriptor theme slug = Some (descriptor_text theme slug).
Proof. reflexivity. Qed.

(** What writing the descriptor does in a workspace state. *)
Lemma write_descriptor_spec theme slug w r w2 :
  ws (w_fs w) ->
  write_descriptor E tmpdir theme slug w = (r, w2) ->
  ws (w_fs w2)
  /\ w2 = set_fs (w_fs w2) w
  /\ (forall k, k <> q ++ ["myst.yml"] -> w_fs w2 !! k = w_fs w !! k)
  /\ (r = Ok tt ->
      w_fs w2 !! (q ++ ["myst.yml"])
      = Some (File (descriptor_text theme slug)))
  /\ (r = Ok tt \/ exists e, r = Raise e)
  /\ (faulty E (SysUnlink (tmpdir ++ ["myst.yml"])) = false ->
      faulty E (SysWrite (tmpdir ++ ["myst.yml"])) = false ->
      w_fs w !! (q ++ ["myst.yml"]) <> Some Dir ->
      r = Ok tt).
Proof.
  intros Hws. unfold write_descriptor.
  rewrite descriptor_eq, bind_unfold. unfold get_fs.
  unfold is_symlink.
  rewrite (lstat_ws fs0 tmpdir q Hres0 Hfree) by done.
  assert (Hwrite : forall w1 : World,
    ws (w_fs w1) ->
    (forall t, w_fs w1 !! (q ++ ["myst.yml"]) <> Some (Link t)) ->
    fs_call (write_text (faulty E) (tmpdir ++ ["myst.yml"])
                        (descriptor_text theme slug)) w1 = (r, w2) ->
    ws (w_fs w2) /\ w2 = set_fs (w_fs w2) w1
    /\ (forall k, k <> q ++ ["myst.yml"] -> w_fs w2 !! k = w_fs w1 !! k)
    /\ (r = Ok tt -> w_fs w2 !! (q ++ ["myst.yml"])
                     = Some (File (descriptor_text theme slug)))
    /\ (r = Ok tt \/ exists e, r = Raise e)
    /\ (faulty E (SysWrite (tmpdir ++ ["myst.yml"])) = false ->
        w_fs w1 !! (q ++ ["myst.yml"]) <> Some Dir -> r = Ok tt)).
  { intros w1 Hws1 Hnot. unfold fs_call.
    rewrite (write_text_ws fs0 tmpdir q Hres0 Hfree) by done.
    destruct (faulty E (SysWrite _)).
    { intros [= <- <-]. rewrite set_fs_same.
      do 4 (split; [done|]). split; [right; by eexists | done]. }
    destruct (w_fs w1 !! (q ++ ["myst.yml"])) as [[| |t]|] eqn:Hlook.
    2:{ intros [= <- <-]. rewrite set_fs_same.
        do 4 (split; [done|]). split; [right; by eexists|].
        by intros _ []. }
    all: intros [= <- <-]; simpl;
      (split; [by apply ws_state_insert|]); (split; [done|]);
      (split; [intros k Hk; by rewrite lookup_insert_ne|]);
      (split; [intros _; apply lookup_insert_eq|]);
      (split; [by left | done]). }
  destruct (w_fs w !! (q ++ ["myst.yml"])) as [[| |t]|] eqn:Hlook;
    unfold when; rewrite bind_unfold.
  1,2,4: intros Hrun;
    destruct (Hwrite w Hws) as (H1 & H2 & H3 & H4 & H5 & H6);
      [rewrite Hlook; congruence | done |];
    do 5 (split; [done|]); intros _ Hw Hd; apply H6; [done|];
    rewrite Hlook; congruence.
  unfold fs_call at 1.
  rewrite (unlink_ws fs0 tmpdir q Hres0 Hfree) by done. rewrite Hlook.
  destruct (faulty E (SysUnlink _)).
  { intros [= <- <-]. rewrite set_fs_same.
    do 4 (split; [done|]). split; [right; by eexists | done]. }
  intros Hrun.
  destruct (Hwrite (set_fs (delete (q ++ ["myst.yml"]) (w_fs w)) w))
    as (H1 & H2 & H3 & H4 & H5 & H6); [| |done|].
  { by apply ws_state_delete. }
  { intros t'. simpl. by rewrite lookup_delete_eq. }
  split; [done|]. split; [by rewrite H2|].
  split; [|split; [done|split; [done|]]].
  - intros k Hk. rewrite H3 by done. simpl. by rewrite lookup_delete_ne.
  - intros _ Hw _. apply H6; [done|]. simpl. by rewrite lookup_delete_eq.
Qed.

End Staging.

(** ** Staging in the workspace that [mkdtemp] has just made *)

Section FreshWorkspace.

Variables (E : Env) (w0 w1 : World) (tmpdir q : path).
Hypothesis Htree : is_tree (w_fs w0) = true.
Hypothesis Hres0 : lresolve (w_fs w0) tmpdir = Some q.
Hypothesis Hfree : node_at (w_fs w0) q = None.
Hypothesis Hw1 : w1 = set_fs (<[q := Dir]> (w_fs w0)) w0.

#[local] Abbreviation ws := (ws_state (w_fs w0) q).

Lemma fresh_ws : ws (w_fs w1).
Proof. rewrite Hw1. by apply (ws_state_fresh _ tmpdir). Qed.

Lemma fresh_lookup k : k <> q -> w_fs w1 !! k = w_fs w0 !! k.
Proof. intros Hk. rewrite Hw1. simpl. by rewrite lookup_insert_ne. Qed.

Lemma fresh_empty n : w_fs w1 !! (q ++ [n]) = None.
Proof.
  rewrite fresh_lookup by apply snoc_ne.
  apply (tree_free_below _ q); [done | | | apply under_app].
  - by apply (ws_nonroot (w_fs w0)).
  - by apply (ws_free (w_fs w0) tmpdir).
Qed.

(** Entries that were there before the workspace are not below it. *)
Lemma old_outside k : is_Some (w_fs w0 !! k) -> under q k = false.
Proof.
  intros [x Hx]. destruct (under q k) eqn:Hu; [|done].
  rewrite (tree_free_below _ q k) in Hx; [done..| | |done].
  - by apply (ws_nonroot (w_fs w0)).
  - by apply (ws_free (w_fs w0) tmpdir).
Qed.

Lemma resolve_ws_root fs : ws fs -> resolve fs tmpdir = Some q.
Proof.
  intros Hws.
  destruct (walk_ws (w_fs w0) tmpdir q Hres0 Hfree fs true [] Hws) as [h Hh].
  unfold resolve. rewrite app_nil_r in Hh. by rewrite Hh, walk_nil.
Qed.

Lemma listdir_inv flt p fs items :
  listdir flt p fs = inr items -> NoDup items.
Proof.
  unfold listdir. destruct (flt _); [discriminate|].
  destruct (resolve fs p) as [c|]; [|discriminate].
  destruct (node_at fs c) as [[| |]|]; try discriminate.
  intros [= <-]. apply NoDup_children.
Qed.

Lemma stage_links_spec source_dir r w2 :
  stage_links E source_dir tmpdir w1 = (r, w2) ->
  ws (w_fs w2)
  /\ w2 = set_fs (w_fs w2) w1
  /\ (forall k, w_fs w2 !! k <> w_fs w1 !! k ->
        exists items n,
          listdir (faulty E) source_dir (w_fs w1) = inr items
          /\ n ∈ items /\ String.prefix "." n = false /\ k = q ++ [n]
          /\ w_fs w2 !! k = Some (Link (source_dir ++ [n])))
  /\ (r = Ok tt ->
      exists items,
        listdir (faulty E) source_dir (w_fs w1) = inr items
        /\ forall n, n ∈ items -> String.prefix "." n = false ->
             w_fs w2 !! (q ++ [n]) = Some (Link (source_dir ++ [n])))
  /\ (r = Ok tt \/ exists e, r = Raise e)
  /\ (forall items,
        listdir (faulty E) source_dir (w_fs w1) = inr items ->
        (forall n, n ∈ items ->
                   faulty E (SysSymlink (tmpdir ++ [n])) = false) ->
        r = Ok tt).
Proof.
  unfold stage_links. rewrite bind_unfold. unfold get_fs.
  destruct (listdir (faulty E) source_dir (w_fs w1)) as [e|items] eqn:Hls.
  { intros [= <- <-]. rewrite set_fs_same.
    split; [apply fresh_ws|]. do 3 (split; [done|]).
    split; [right; by eexists | done]. }
  intros Hrun.
  destruct (link_items_spec E (w_fs w0) tmpdir q source_dir Hres0 Hfree
              items w1 r w2) as (H1 & H2 & H3 & H4 & H5 & H6);
    [by eapply listdir_inv | apply fresh_ws
     | intros; apply fresh_empty | done |].
  do 2 (split; [done|]). split; [|split; [|split; [done|]]].
  - intros k Hk. destruct (H3 k Hk) as (n & ? & ? & ? & ?).
    by exists items, n.
  - intros Hr. exists items. split; [done|]. by apply H4.
  - intros items' [= <-]. apply H6.
Qed.

(** Staging and descriptor together, as [main] runs them. *)
Lemma stage_and_describe source_dir theme slug r w2 :
  (stage_links E source_dir tmpdir;;
   write_descriptor E tmpdir theme slug) w1 = (r, w2) ->
  ws (w_fs w2)
  /\ w2 = set_fs (w_fs w2) w1
  /\ (forall k, w_fs w2 !! k <> w_fs w1 !! k -> exists n, k = q ++ [n])
  /\ (r = Ok tt ->
      w_fs w2 !! (q ++ ["myst.yml"])
      = Some (File (descriptor_text theme slug)))
  /\ (forall w', stage_links E source_dir tmpdir w1 = (Ok tt, w') ->
      faulty E (SysUnlink (tmpdir ++ ["myst.yml"])) = false ->
      faulty E (SysWrite (tmpdir ++ ["myst.yml"])) = false ->
      r = Ok tt).
Proof.
  rewrite bind_unfold.
  destruct (stage_links E source_dir tmpdir w1) as [r1 wm] eqn:Hstage.
  destruct (stage_links_spec _ _ _ Hstage) as (S1 & S2 & S3 & S4 & S5 & S6).
  assert (Hframe1 : forall k, w_fs wm !! k <> w_fs w1 !! k ->
                              exists n, k = q ++ [n]).
  { intros k Hk. destruct (S3 k Hk) as (items & n & _ & _ & _ & -> & _).
    by exists n. }
  destruct S5 as [->|[e ->]].
  2:{ intros [= <- <-]. do 3 (split; [done|]). split; [done|].
      intros w' [=]. }
  intros Hrun.
  destruct (write_descriptor_spec E (w_fs w0) tmpdir q Hres0 Hfree
              theme slug wm r w2 S1 Hrun) as (D1 & D2 & D3 & D4 & D5 & D6).
  split; [done|]. split; [by rewrite D2, S2|].
  split; [|split; [done|]].
  - intros k Hk. destruct (decide (k = q ++ ["myst.yml"])) as [->|Hne];
      [by eexists|].
    apply Hframe1. by rewrite <- D3.
  - intros w' _ Hu Hw. apply D6; [done..|].
    intros Hd.
    destruct (decide (w_fs wm !! (q ++ ["myst.yml"])
                      = w_fs w1 !! (q ++ ["myst.yml"]))) as [Heq|Hne].
    + rewrite Heq, fresh_empty in Hd. discriminate.
    + destruct (S3 _ Hne) as (? & ? & _ & _ & _ & _ & Hl). congruence.
Qed.

(** Whatever staging changed lies strictly inside the workspace, and
    nothing that existed before the workspace was made has changed. *)
Lemma staging_frame source_dir theme slug r w2 :
  (stage_links E source_dir tmpdir;;
   write_descriptor E tmpdir theme slug) w1 = (r, w2) ->
  (forall k, w_fs w2 !! k <> w_fs w1 !! k -> under q k = true /\ k <> q)
  /\ (forall k, is_Some (w_fs w0 !! k) -> w_fs w2 !! k = w_fs w0 !! k).
Proof.
  intros Hrun.
  destruct (stage_and_describe _ _ _ _ _ Hrun) as (_ & _ & Hframe & _).
  assert (Hin : forall k, w_fs w2 !! k <> w_fs w1 !! k ->
                          under q k = true /\ k <> q).
  { intros k Hk. destruct (Hframe k Hk) as [n ->].
    split; [apply under_app | apply snoc_ne]. }
  split; [done|].
  intros k Hold. pose proof (old_outside k Hold) as Hout.
  destruct (decide (w_fs w2 !! k = w_fs w1 !! k)) as [->|Hne].
  - apply fresh_lookup. by apply under_strict_ne.
  - destruct (Hin k Hne). congruence.
Qed.

End FreshWorkspace.

Lemma node_at_nonroot fs (q : path) : q <> [] -> node_at fs q = fs !! q.
Proof. by destruct q. Qed.

(** C3. After the staging loop has run in the workspace that [mkdtemp]
    made, the workspace holds exactly the entries of the source
    directory whose names do not start with a dot; each of them is a
    symbolic link, under the same name, to the entry of the source
    directory; so no entry with a leading dot is linked.  The loop
    completes whenever the source directory can be listed and no
    [symlink] call fails.  A name that already exists in the workspace
    is passed over: the link is only made when the name is free. *)
Theorem staged_links E w0 tmpdir w1 source_dir r w2 :
  is_tree (w_fs w0) = true ->
  mkdtemp E w0 = (Ok tmpdir, w1) ->
  stage_links E source_dir tmpdir w1 = (r, w2) ->
  (r = Ok tt ->
   exists items ws_items,
     listdir (faulty E) source_dir (w_fs w1) = inr items
     /\ listdir no_fault tmpdir (w_fs w2) = inr ws_items
     /\ (forall name, name ∈ ws_items <->
           name ∈ items /\ String.prefix "." name = false)
     /\ (forall name, name ∈ ws_items ->
           lstat (w_fs w2) (tmpdir ++ [name])
           = Some (Link (source_dir ++ [name]))))
  /\ (forall items,
        listdir (faulty E) source_dir (w_fs w1) = inr items ->
        (forall n, n ∈ items ->
                   faulty E (SysSymlink (tmpdir ++ [n])) = false) ->
        r = Ok tt)
  /\ (forall name rest w,
        path_exists (w_fs w) (tmpdir ++ [name]) = true ->
        link_items E source_dir tmpdir (name :: rest) w
        = link_items E source_dir tmpdir rest w).
Proof.
  intros Htree Hmk Hrun.
  apply mkdtemp_inv in Hmk as (nm & q & _ & Hres0 & Hfree & Hw1).
  destruct (stage_links_spec E w0 w1 tmpdir q Htree Hres0 Hfree Hw1
              _ _ _ Hrun) as (S1 & S2 & S3 & S4 & S5 & S6).
  pose proof (ws_nonroot _ _ Hfree) as Hq.
  split; [|split; [done|]].
  - intros Hr. destruct (S4 Hr) as (items & Hls & Hlinks).
    exists items, (children (w_fs w2) q).
    split; [done|].
    assert (Hdir : w_fs w2 !! q = Some Dir) by apply S1.
    split.
    { unfold listdir. simpl.
      rewrite (resolve_ws_root w0 tmpdir q Hres0 Hfree) by done.
      by rewrite node_at_nonroot, Hdir. }
    assert (Hin : forall name, name ∈ children (w_fs w2) q ->
                    name ∈ items /\ String.prefix "." name = false).
    { intros name Hname. apply elem_of_children in Hname.
      destruct (decide (w_fs w2 !! (q ++ [name])
                        = w_fs w1 !! (q ++ [name]))) as [Heq|Hne].
      - rewrite Heq in Hname.
        rewrite (fresh_empty w0 w1 tmpdir q) in Hname by done.
        by destruct Hname.
      - destruct (S3 _ Hne) as (items' & n & Hls' & Hn & Hvis & Heq & _).
        apply app_inv_head in Heq as [= <-]. split; [congruence|done]. }
    split.
    + intros name. split; [apply Hin|].
      intros [Hname Hvis]. apply elem_of_children.
      by rewrite (Hlinks name).
    + intros name Hname. destruct (Hin name Hname) as [Hitem Hvis].
      rewrite (lstat_ws (w_fs w0) tmpdir q) by auto using not_hidden_plain.
      by apply Hlinks.
  - intros name rest w Hex. simpl.
    destruct (String.prefix "." name); [done|].
    rewrite bind_unfold. unfold get_fs. by rewrite Hex.
Qed.

Lemma staged_links_witness :
  (Ok tt = Ok tt ->
   exists items ws_items,
     listdir (faulty busy_env) ["proj"] (w_fs staged_w1) = inr items
     /\ listdir no_fault sample_tmpdir (w_fs staged_w2) = inr ws_items
     /\ (forall name, name ∈ ws_items <->
           name ∈ items /\ String.prefix "." name = false)
     /\ (forall name, name ∈ ws_items ->
           lstat (w_fs staged_w2) (sample_tmpdir ++ [name])
           = Some (Link (["proj"] ++ [name]))))
  /\ (forall items,
        listdir (faulty busy_env) ["proj"] (w_fs staged_w1) = inr items ->
        (forall n, n ∈ items ->
           faulty busy_env (SysSymlink (sample_tmpdir ++ [n])) = false) ->
        Ok tt = Ok tt)
  /\ (forall name rest w,
        path_exists (w_fs w) (sample_tmpdir ++ [name]) = true ->
        link_items busy_env ["proj"] sample_tmpdir (name :: rest) w
        = link_items busy_env ["proj"] sample_tmpdir rest w).
Proof.
  apply (staged_links busy_env project_world sample_tmpdir staged_w1 ["proj"]
              (Ok tt) staged_w2).
  - vm_compute. reflexivity.
  - unfold staged_w1. apply run_eq. vm_compute. reflexivity.
  - unfold staged_w2. apply run_eq. vm_compute. reflexivity.
Defined.

(** C2. Whatever the theme and the source file, once staging and
    descriptor generation have gone through, the workspace's [myst.yml]
    is a regular file whose content is the template with the theme and
    the stem of the source file's name filled in.  A descriptor that
    the source directory already had, and that the loop linked into the
    workspace, does not survive there: the generated file takes its
    place, and the entry the link pointed to, like every entry that
    existed before, is left as it was.  Descriptor generation goes
    through whenever the loop did and neither the [unlink] nor the
    write is failed by the environment. *)
Theorem descriptor_written E args source w0 tmpdir w1 r w2 :
  is_tree (w_fs w0) = true ->
  mkdtemp E w0 = (Ok tmpdir, w1) ->
  stage E args source tmpdir w1 = (r, w2) ->
  (r = Ok tt ->
   lstat (w_fs w2) (tmpdir ++ ["myst.yml"])
   = Some (File (descriptor_text (a_theme args) (path_stem source)))
   /\ read_text no_fault (tmpdir ++ ["myst.yml"]) (w_fs w2)
      = inr (descriptor_text (a_theme args) (path_stem source)))
  /\ (forall k, is_Some (w_fs w0 !! k) -> w_fs w2 !! k = w_fs w0 !! k)
  /\ (forall w',
        stage_links E (path_parent source) tmpdir w1 = (Ok tt, w') ->
        faulty E (SysUnlink (tmpdir ++ ["myst.yml"])) = false ->
        faulty E (SysWrite (tmpdir ++ ["myst.yml"])) = false ->
        r = Ok tt).
Proof.
  intros Htree Hmk Hrun. unfold stage in Hrun.
  apply mkdtemp_inv in Hmk as (nm & q & _ & Hres0 & Hfree & Hw1).
  destruct (stage_and_describe E w0 w1 tmpdir q Htree Hres0 Hfree Hw1
              _ _ _ _ _ Hrun) as (Hws & _ & _ & Hfile & Htotal).
  destruct (staging_frame E w0 w1 tmpdir q Htree Hres0 Hfree Hw1
              _ _ _ _ _ Hrun) as (_ & Hold).
  split; [|split; [done|done]].
  intros Hr. specialize (Hfile Hr).
  assert (Hl : lstat (w_fs w2) (tmpdir ++ ["myst.yml"])
               = Some (File (descriptor_text (a_theme args)
                                             (path_stem source)))).
  { by rewrite (lstat_ws (w_fs w0) tmpdir q). }
  split; [done|].
  unfold read_text, stat. simpl.
  rewrite (resolve_ws (w_fs w0) tmpdir q) by (done || congruence).
  by rewrite node_at_snoc, Hfile.
Qed.

Lemma descriptor_written_witness :
  (Ok tt = Ok tt ->
   lstat (w_fs described_w2) (sample_tmpdir ++ ["myst.yml"])
   = Some (File (descriptor_text "book-theme" "notes"))
   /\ read_text no_fault (sample_tmpdir ++ ["myst.yml"]) (w_fs described_w2)
      = inr (descriptor_text "book-theme" "notes"))
  /\ (forall k, is_Some (w_fs project_world !! k) ->
                w_fs described_w2 !! k = w_fs project_world !! k)
  /\ (forall w',
        stage_links busy_env ["proj"] sample_tmpdir staged_w1 = (Ok tt, w') ->
        faulty busy_env (SysUnlink (sample_tmpdir ++ ["myst.yml"])) = false ->
        faulty busy_env (SysWrite (sample_tmpdir ++ ["myst.yml"])) = false ->
        Ok tt = Ok tt).
Proof.
  apply (descriptor_written busy_env notes_args ["proj"; "notes.md"]
           project_world sample_tmpdir staged_w1 (Ok tt) described_w2).
  - vm_compute. reflexivity.
  - unfold staged_w1. apply run_eq. vm_compute. reflexivity.
  - unfold described_w2. apply run_eq. vm_compute. reflexivity.
Defined.

(** C9. Staging and descriptor generation write only inside the
    workspace: whatever they change in the file system lies strictly
    below the directory that [mkdtemp] made, however they end; every
    entry that existed before the workspace was made, in the source
    directory or anywhere else, is unchanged, so the descriptor is never
    written through an inherited link; and nothing but the file system
    is touched. *)
Theorem staging_confined E args source w0 tmpdir w1 r w2 :
  is_tree (w_fs w0) = true ->
  mkdtemp E w0 = (Ok tmpdir, w1) ->
  stage E args source tmpdir w1 = (r, w2) ->
  exists q,
    lresolve (w_fs w1) tmpdir = Some q
    /\ w_fs w0 !! q = None /\ w_fs w1 !! q = Some Dir
    /\ (forall k, w_fs w2 !! k <> w_fs w1 !! k -> under q k = true /\ k <> q)
    /\ (forall k, is_Some (w_fs w0 !! k) -> w_fs w2 !! k = w_fs w0 !! k)
    /\ w2 = set_fs (w_fs w2) w1.
Proof.
  intros Htree Hmk Hrun. unfold stage in Hrun.
  apply mkdtemp_inv in Hmk as (nm & q & _ & Hres0 & Hfree & Hw1).
  destruct (stage_and_describe E w0 w1 tmpdir q Htree Hres0 Hfree Hw1
              _ _ _ _ _ Hrun) as (_ & Hsame & _).
  destruct (staging_frame E w0 w1 tmpdir q Htree Hres0 Hfree Hw1
              _ _ _ _ _ Hrun) as (Hin & Hold).
  pose proof (fresh_ws w0 w1 tmpdir q Hres0 Hfree Hw1) as Hws1.
  exists q. split; [by apply (lresolve_ws_root (w_fs w0))|].
  split; [by apply (ws_free _ tmpdir)|]. split; [apply Hws1|]. done.
Qed.

Lemma staging_confined_witness :
  exists q,
    lresolve (w_fs staged_w1) sample_tmpdir = Some q
    /\ w_fs project_world !! q = None /\ w_fs staged_w1 !! q = Some Dir
    /\ (forall k, w_fs described_w2 !! k <> w_fs staged_w1 !! k ->
                  under q k = true /\ k <> q)
    /\ (forall k, is_Some (w_fs project_world !! k) ->
                  w_fs described_w2 !! k = w_fs project_world !! k)
    /\ described_w2 = set_fs (w_fs described_w2) staged_w1.
Proof.
  apply (staging_confined busy_env notes_args ["proj"; "notes.md"]
           project_world sample_tmpdir staged_w1 (Ok tt) described_w2).
  - vm_compute. reflexivity.
  - unfold staged_w1. apply run_eq. vm_compute. reflexivity.
  - unfold described_w2. apply run_eq. vm_compute. reflexivity.
Defined.


(** ** Traces

    What a computation adds to the log.  Signals and removals of the
    workspace are the events of interest; a computation is quiet when
    it logs neither. *)

Lemma quiet_intro {A} (m : M A) :
  (forall w, exists evs, w_log (m w).2 = w_log w ++ evs /\ Forall benign evs)
  -> quiet m.
Proof.
  intros H w r w' Hrun. destruct (H w) as (evs & Hlog & Hb).
  rewrite Hrun in Hlog. by exists evs.
Qed.

Lemma quiet_silent {A} (m : M A) :
  (forall w, w_log (m w).2 = w_log w) -> quiet m.
Proof.
  intros H. apply quiet_intro. intros w. exists [].
  by rewrite app_nil_r, H.
Qed.

Lemma quiet_ret {A} (a : A) : quiet (mret a).
Proof. by apply quiet_silent. Qed.

Lemma quiet_bind {A B} (m : M A) (f : A -> M B) :
  quiet m -> (forall a, quiet (f a)) -> quiet (m ≫= f).
Proof.
  intros Hm Hf w r w' Hrun. rewrite bind_unfold in Hrun.
  destruct (m w) as [r1 w1] eqn:Hmw.
  destruct (Hm _ _ _ Hmw) as (evs1 & Hlog1 & Hb1).
  destruct r1 as [a|e|c|].
  2-4: injection Hrun as <- <-; by exists evs1.
  destruct (Hf a _ _ _ Hrun) as (evs2 & Hlog2 & Hb2).
  exists (evs1 ++ evs2). rewrite Hlog2, Hlog1, app_assoc.
  split; [done | by apply Forall_app].
Qed.

Lemma quiet_tell (f : World -> World) :
  (forall w, w_log (f w) = w_log w) -> quiet (tell f).
Proof. intros H. by apply quiet_silent. Qed.

Lemma quiet_record (e : event) : benign e -> quiet (tell (record e)).
Proof.
  intros He. apply quiet_intro. intros w. exists [e]. split; [done|].
  by constructor.
Qed.

Lemma quiet_raise {A} e : quiet (@raise A e).
Proof. by apply quiet_silent. Qed.

Lemma quiet_sys_exit {A} c : quiet (@sys_exit A c).
Proof. by apply quiet_silent. Qed.

Lemma quiet_get_fs : quiet get_fs.
Proof. by apply quiet_silent. Qed.

Lemma quiet_fs_call op : quiet (fs_call op).
Proof.
  apply quiet_silent. intros w. unfold fs_call. by destruct (op (w_fs w)).
Qed.

Lemma quiet_blocked {A} : quiet (fun w : World => (@Blocked A, w)).
Proof. by apply quiet_silent. Qed.

Lemma quiet_when b m : quiet m -> quiet (when b m).
Proof. intros Hm. destruct b; [done | apply quiet_ret]. Qed.

Create HintDb quiet discriminated.
#[export] Hint Constants Opaque : quiet.
#[export] Hint Resolve quiet_ret quiet_raise quiet_sys_exit quiet_get_fs
  quiet_fs_call quiet_when quiet_blocked : quiet.

(** Splits a computation along its binds and branches. *)
Ltac quiet_steps :=
  repeat match goal with
    | |- quiet (_ ≫= _) => apply quiet_bind; [|intros ?]
    | |- quiet (when _ _) => apply quiet_when
    | |- quiet (tell (record _)) => apply quiet_record; done
    | |- quiet (tell _) => apply quiet_tell; done
    | |- quiet (if ?b then _ else _) => destruct b
    | |- quiet (match ?x with _ => _ end) => destruct x
    | |- quiet _ => solve [eauto with quiet]
    end.

Section QuietParts.

Variable E : Env.

Lemma quiet_scan_ports ports : quiet (scan_ports E ports).
Proof.
  induction ports as [|port rest IH]; [apply quiet_ret|].
  intros w r w' Hrun. rewrite scan_ports_cons, with_socket_bind in Hrun.
  assert (Hat : forall b, Forall benign (attempt port b))
    by (intros b; repeat constructor).
  destruct ((port <? 0) || (65535 <? port)).
  { injection Hrun as <- <-. by exists (attempt port false). }
  destruct (bind_ok E port).
  { injection Hrun as <- <-. by exists (attempt port true). }
  simpl in Hrun. destruct (IH _ _ _ Hrun) as (evs & Hlog & Hb).
  exists (attempt port false ++ evs). rewrite Hlog. simpl.
  rewrite <- app_assoc. split; [done|]. by repeat (constructor; [done|]).
Qed.

Lemma quiet_find_free_port start end_ : quiet (find_free_port E start end_).
Proof.
  unfold find_free_port. apply quiet_bind; [apply quiet_scan_ports|].
  intros found. quiet_steps.
Qed.

Lemma quiet_find_myst : quiet (find_myst E).
Proof. unfold find_myst. quiet_steps. Qed.

Lemma quiet_link_items source_dir tmpdir items :
  quiet (link_items E source_dir tmpdir items).
Proof.
  induction items as [|name rest IH]; simpl; [apply quiet_ret|].
  quiet_steps.
Qed.

Lemma quiet_stage_links source_dir tmpdir :
  quiet (stage_links E source_dir tmpdir).
Proof.
  unfold stage_links. apply quiet_bind; [apply quiet_get_fs|]. intros fs.
  destruct (listdir _ _ _); [apply quiet_raise | apply quiet_link_items].
Qed.

Lemma quiet_write_descriptor tmpdir theme slug :
  quiet (write_descriptor E tmpdir theme slug).
Proof. unfold write_descriptor. quiet_steps. Qed.

Lemma quiet_copy_output tmpdir args : quiet (copy_output E tmpdir args).
Proof.
  unfold copy_output. quiet_steps.
  apply quiet_silent. intros w. by destruct (copytree _ _ _ _) as [? []].
Qed.

Lemma quiet_popen tmpdir cmd : quiet (popen E tmpdir cmd).
Proof.
  unfold popen. destruct (popen_error E); [apply quiet_raise|].
  apply quiet_intro. intros w. exists [EvPopen cmd tmpdir "0.0.0.0"].
  split; [done | by repeat constructor].
Qed.

Lemma quiet_child_runs : quiet (child_runs E).
Proof. unfold child_runs. quiet_steps. Qed.

End QuietParts.

#[export] Hint Resolve quiet_find_free_port quiet_find_myst quiet_stage_links
  quiet_write_descriptor quiet_copy_output quiet_popen quiet_child_runs
  : quiet.

(** ** Teardown *)

Lemma benign_not_signal evs : Forall benign evs -> EvSignal ∉ evs.
Proof. intros H Hin. by apply (proj1 (Forall_forall _ _) H) in Hin. Qed.

Lemma benign_not_rmtree evs p c : Forall benign evs -> EvRmtree p c ∉ evs.
Proof. intros H Hin. by apply (proj1 (Forall_forall _ _) H) in Hin. Qed.

Section Teardown.

Variables (E : Env) (tmpdir : path).

Lemma cleanup_eq w : cleanup E tmpdir w = (Ok tt, teardown E tmpdir w).
Proof. reflexivity. Qed.

Lemma on_signal_eq {A} w :
  @on_signal E A tmpdir w = (SysExit 0, teardown E tmpdir (record EvSignal w)).
Proof. reflexivity. Qed.

Lemma stop_child_cases w :
  (stop_child E w = w /\ (w_proc w = false \/ exists rc, w_child w = Exited rc))
  \/ (w_proc w = true /\ poll w = None /\ graceful E = true
      /\ stop_child E w
         = set_proc false (set_child (Exited (-15))
             (record_all [EvTerminate; EvWait 5 true] w)))
  \/ (w_proc w = true /\ poll w = None /\ graceful E = false
      /\ stop_child E w
         = set_proc false (set_child (Exited (-9))
             (record_all [EvTerminate; EvWait 5 false; EvKill] w))).
Proof.
  unfold stop_child, poll.
  destruct (w_proc w) eqn:Hproc; [|left; auto].
  destruct (w_child w) as [| |rc] eqn:Hchild; simpl.
  3: left; split; [done | right; by eexists].
  all: destruct (graceful E) eqn:Hg; [right; left | right; right];
    repeat split; unfold record, record_all, set_child, set_proc; simpl;
    by rewrite <- ?app_assoc.
Qed.

Lemma stop_child_log w :
  exists evs, w_log (stop_child E w) = w_log w ++ evs /\ Forall benign evs.
Proof.
  destruct (stop_child_cases w) as [[-> _]|[(_ & _ & _ & ->)|(_ & _ & _ & ->)]].
  - exists []. by rewrite app_nil_r.
  - eexists. split; [reflexivity | by repeat constructor].
  - eexists. split; [reflexivity | by repeat constructor].
Qed.

Lemma stop_child_fs w : w_fs (stop_child E w) = w_fs w.
Proof.
  by destruct (stop_child_cases w)
    as [[-> _]|[(_ & _ & _ & ->)|(_ & _ & _ & ->)]].
Qed.

Lemma stop_child_err w : w_err (stop_child E w) = w_err w.
Proof.
  by destruct (stop_child_cases w)
    as [[-> _]|[(_ & _ & _ & ->)|(_ & _ & _ & ->)]].
Qed.

(** Once the handle is cleared or the child has exited, [cleanup]
    leaves the process alone. *)
Lemma stop_child_idem w : stop_child E (stop_child E w) = stop_child E w.
Proof.
  destruct (stop_child_cases w)
    as [[H _]|[(_ & _ & _ & H)|(_ & _ & _ & H)]]; rewrite !H; done.
Qed.

Lemma teardown_spec w :
  exists evs c,
    w_log (teardown E tmpdir w) = w_log w ++ evs ++ [EvRmtree tmpdir c]
    /\ Forall benign evs
    /\ (c = true -> gone tmpdir (teardown E tmpdir w))
    /\ (gone tmpdir w -> gone tmpdir (teardown E tmpdir w))
    /\ w_err (teardown E tmpdir w) = w_err w
    /\ w_out (teardown E tmpdir w) = w_out w.
Proof.
  destruct (stop_child_log w) as (evs & Hlog & Hb).
  pose proof (stop_child_fs w) as Hfs.
  exists evs,
    (bool_decide ((rmtree_run (faulty E) tmpdir (w_fs w)).2 = None)).
  unfold teardown, remove_workspace, gone. simpl. rewrite Hfs, Hlog.
  pose proof (rmtree_run_absent (faulty E) tmpdir (w_fs w)) as Habs.
  destruct (rmtree_run (faulty E) tmpdir (w_fs w)) as [fs' o] eqn:Hrm.
  simpl in *.
  split; [by rewrite app_assoc|]. split; [done|].
  split; [|split].
  - intros Hclean. apply bool_decide_eq_true in Hclean. subst o.
    exact (rmtree_clean_absent _ _ _ _ Hrm).
  - intros Hgone. by rewrite Habs.
  - split; [apply stop_child_err|].
    by destruct (stop_child_cases w)
      as [[-> _]|[(_ & _ & _ & ->)|(_ & _ & _ & ->)]].
Qed.

Lemma quiet_tidy {A} (m : M A) : quiet m -> tidy tmpdir m.
Proof.
  intros Hm w r w' Hrun. destruct (Hm _ _ _ Hrun) as (evs & ? & ?).
  exists evs. auto.
Qed.

Lemma tidy_bind {A B} (m : M A) (f : A -> M B) :
  tidy tmpdir m -> (forall a, tidy tmpdir (f a)) -> tidy tmpdir (m ≫= f).
Proof.
  intros Hm Hf w r w' Hrun. rewrite bind_unfold in Hrun.
  destruct (m w) as [r1 w1] eqn:Hmw.
  destruct (Hm _ _ _ Hmw) as (evs1 & Hlog1 & [Hb1|Hh1]).
  - destruct r1 as [a|e|c|].
    2-4: injection Hrun as <- <-; exists evs1; auto.
    destruct (Hf a _ _ _ Hrun) as (evs2 & Hlog2 & [Hb2|Hh2]);
      exists (evs1 ++ evs2); rewrite Hlog2, Hlog1, app_assoc;
      (split; [done|]).
    + left. by apply Forall_app.
    + right. destruct Hh2 as (Hr & Hsig & [c Hrm] & Hgone).
      split; [done|]. split; [apply elem_of_app; auto|].
      split; [exists c; apply elem_of_app; auto|].
      intros Hin. apply elem_of_app in Hin as [Hin|Hin]; [|auto].
      by apply benign_not_rmtree in Hin.
  - destruct Hh1 as (-> & Hrest). injection Hrun as <- <-.
    exists evs1. split; [done|]. right. by split.
Qed.

Lemma handled_teardown {A} w :
  exists evs, w_log (teardown E tmpdir (record EvSignal w)) = w_log w ++ evs
    /\ @handled tmpdir A evs (SysExit 0)
                (teardown E tmpdir (record EvSignal w)).
Proof.
  destruct (teardown_spec (record EvSignal w))
    as (evs & c & Hlog & Hb & Hclean & _).
  exists (EvSignal :: evs ++ [EvRmtree tmpdir c]).
  split; [by rewrite Hlog; simpl; rewrite <- app_assoc|].
  split; [done|]. split; [by left|].
  split; [exists c; right; apply elem_of_app; right; by left|].
  intros Hin. apply Hclean.
  apply elem_of_cons in Hin as [Hin|Hin]; [discriminate|].
  apply elem_of_app in Hin as [Hin|Hin];
    [by apply benign_not_rmtree in Hin|].
  apply list_elem_of_singleton in Hin. congruence.
Qed.

Lemma tidy_on_signal {A} : tidy tmpdir (@on_signal E A tmpdir).
Proof.
  intros w r w' Hrun. rewrite on_signal_eq in Hrun.
  injection Hrun as <- <-.
  destruct (@handled_teardown A w) as (evs & ? & ?). exists evs. auto.
Qed.

Lemma tidy_checkpoint pt : tidy tmpdir (checkpoint E tmpdir pt).
Proof.
  unfold checkpoint. destruct (signal_at E pt);
    [apply tidy_on_signal | apply quiet_tidy, quiet_ret].
Qed.

Lemma tidy_subprocess_run cmd : tidy tmpdir (subprocess_run E tmpdir cmd).
Proof.
  assert (Hsig : forall fs' (w : World) (r : res Z) w',
    (let w1 := record (EvRun cmd tmpdir) (set_fs fs' w) in
     let r := @on_signal E Z tmpdir w1 in (r.1, record EvRunKilled r.2))
    = (r, w') ->
    exists evs, w_log w' = w_log w ++ evs
                /\ (Forall benign evs \/ handled tmpdir evs r w')).
  { intros fs' w r w' Hrun.
    cbv zeta in Hrun. rewrite on_signal_eq in Hrun. cbn [fst snd] in Hrun.
    injection Hrun as <- <-.
    set (w1 := record (EvRun cmd tmpdir) (set_fs fs' w)).
    destruct (@handled_teardown Z w1)
      as (evs & Hlog & _ & Hsig & [c Hc] & Hg).
    exists ([EvRun cmd tmpdir] ++ evs ++ [EvRunKilled]).
    split.
    { change (w_log (record EvRunKilled
                       (teardown E tmpdir (record EvSignal w1))))
        with (w_log (teardown E tmpdir (record EvSignal w1))
              ++ [EvRunKilled]).
      rewrite Hlog. unfold w1. simpl. by rewrite <- !app_assoc. }
    right. split; [done|].
    split; [right; apply elem_of_app; auto|].
    split; [exists c; right; apply elem_of_app; auto|].
    intros Hin. unfold gone.
    change (w_fs (record EvRunKilled
                    (teardown E tmpdir (record EvSignal w1))))
      with (w_fs (teardown E tmpdir (record EvSignal w1))).
    apply Hg.
    apply elem_of_cons in Hin as [Hin|Hin]; [discriminate|].
    apply elem_of_app in Hin as [Hin|Hin]; [done|].
    apply list_elem_of_singleton in Hin. discriminate. }
  intros w r w' Hrun. unfold subprocess_run in Hrun.
  destruct (run_build E cmd tmpdir (w_fs w)) as [fs' rc|fs'|e].
  - destruct (signal_at E PBuild); [by eapply Hsig|].
    injection Hrun as <- <-. exists [EvRun cmd tmpdir].
    split; [done|]. left. by repeat constructor.
  - destruct (signal_at E PBuild); [by eapply Hsig|].
    injection Hrun as <- <-. exists [EvRun cmd tmpdir].
    split; [done|]. left. by repeat constructor.
  - injection Hrun as <- <-. exists []. rewrite app_nil_r. auto.
Qed.

End Teardown.

Section Supervision.

Variables (E : Env) (tmpdir : path).

#[local] Hint Resolve quiet_tidy tidy_checkpoint tidy_subprocess_run : quiet.

Ltac tidy_steps :=
  repeat match goal with
    | |- tidy _ (checkpoint _ _ _) => apply tidy_checkpoint
    | |- tidy _ (subprocess_run _ _ _) => apply tidy_subprocess_run
    | |- tidy _ (_ ≫= _) => apply tidy_bind; [|intros ?]
    | |- tidy _ (when _ _) => unfold when
    | |- tidy _ (if ?b then _ else _) => destruct b
    | |- tidy _ _ => apply quiet_tidy; solve [quiet_steps]
    end.

Lemma tidy_wait_for_port port : tidy tmpdir (wait_for_port E tmpdir port).
Proof. unfold wait_for_port. tidy_steps. Qed.

Lemma tidy_proc_wait : tidy tmpdir (proc_wait E tmpdir).
Proof. unfold proc_wait. tidy_steps. Qed.

Lemma tidy_build source args myst_cmd :
  tidy tmpdir (build E tmpdir source args myst_cmd).
Proof. unfold build. tidy_steps. Qed.

Lemma tidy_serve source args myst_cmd :
  tidy tmpdir (serve E tmpdir source args myst_cmd).
Proof.
  unfold serve. tidy_steps.
  - apply tidy_wait_for_port.
  - apply tidy_proc_wait.
Qed.

Lemma tidy_supervise source args :
  tidy tmpdir (supervise E tmpdir source args).
Proof.
  unfold supervise. do 4 (apply tidy_bind; [tidy_steps|intros ?]).
  apply tidy_bind; [tidy_steps|intros myst_cmd].
  destruct (a_build args); [apply tidy_build | apply tidy_serve].
Qed.

(** How a run in the workspace ends, unless it waits for ever: the
    teardown has run last; a removal of the workspace was attempted;
    if an attempt met no error, the path of the workspace leads to
    nothing; a handled signal means exit status 0; and no exception is
    left uncaught. *)
Lemma run_in_workspace_ends source args w r w' :
  run_in_workspace E tmpdir source args w = (r, w') ->
  (r = Blocked
   /\ exists evs, w_log w' = w_log w ++ evs /\ Forall benign evs)
  \/ exists evs,
       w_log w' = w_log w ++ evs
       /\ (exists c, EvRmtree tmpdir c ∈ evs)
       /\ (EvRmtree tmpdir true ∈ evs -> gone tmpdir w')
       /\ (EvSignal ∈ evs -> r = SysExit 0)
       /\ (forall e, r <> Raise e).
Proof.
  unfold run_in_workspace. rewrite bind_unfold.
  change (tell (set_proc false) w) with (Ok tt, set_proc false w).
  cbv iota beta. unfold try_except_finally.
  destruct (supervise E tmpdir source args (set_proc false w))
    as [r1 w1] eqn:Hbody.
  destruct (tidy_supervise _ _ _ _ _ Hbody) as (evs1 & Hlog1 & Hbody').
  change (w_log (set_proc false w)) with (w_log w) in Hlog1.
  assert (Hcase : r1 = Blocked \/ r1 <> Blocked)
    by (destruct r1; [right|right|right|left]; done).
  destruct Hcase as [->|Hnb].
  { intros [= <- <-]. left. split; [done|]. exists evs1. split; [done|].
    by destruct Hbody' as [?|[[=] _]]. }
  set (r2 := match r1 with
             | Raise e => tell (print_err ("Error: " +:+ msg e)) w1
             | _ => (r1, w1)
             end).
  assert (Hr2 : (r2.1 = r1 \/ (r2.1 = Ok tt /\ exists e, r1 = Raise e))
                /\ w_fs r2.2 = w_fs w1 /\ w_log r2.2 = w_log w1).
  { unfold r2. destruct r1 as [a|e|c|]; simpl; (split; [|done]);
      [by left | right; split; [done | by exists e] | by left | by left]. }
  destruct Hr2 as (Hres2 & Hfs2 & Hlog2).
  assert (Hshape : forall X : res unit * World,
    match r1 with
    | Blocked => (Blocked, w1)
    | _ => X
    end = X) by (intros X; by destruct r1).
  intros Hrun. right.
  assert (Hfin : (checkpoint E tmpdir PFinally;; cleanup E tmpdir) r2.2
                 = if signal_at E PFinally
                   then (SysExit 0, teardown E tmpdir (record EvSignal r2.2))
                   else (Ok tt, teardown E tmpdir r2.2)).
  { rewrite bind_unfold. unfold checkpoint.
    destruct (signal_at E PFinally); [by rewrite on_signal_eq | done]. }
  assert (Hrun' :
    match (checkpoint E tmpdir PFinally;; cleanup E tmpdir) r2.2 with
    | (Ok _, w3) => (r2.1, w3)
    | (r3, w3) => (r3, w3)
    end = (r, w')).
  { rewrite <- Hrun. unfold r2. by destruct r1. }
  clear Hrun. rewrite Hfin in Hrun'.
  assert (Hgone1 : EvRmtree tmpdir true ∈ evs1 -> gone tmpdir r2.2).
  { intros Hin. destruct Hbody' as [Hb|(_ & _ & _ & Hg)].
    - by apply benign_not_rmtree in Hin.
    - unfold gone in *. rewrite Hfs2. auto. }
  assert (Hsig1 : EvSignal ∈ evs1 -> r2.1 = SysExit 0).
  { intros Hin. destruct Hbody' as [Hb|(-> & _)].
    - by apply benign_not_signal in Hin.
    - by destruct Hres2 as [?|[_ [e [=]]]]. }
  assert (Hnr : forall e, r2.1 <> Raise e).
  { intros e He. destruct Hres2 as [H|[H _]]; [|congruence].
    rewrite H in He. unfold r2 in H. rewrite He in H. discriminate. }
  destruct (signal_at E PFinally).
  - injection Hrun' as <- <-.
    destruct (@handled_teardown E tmpdir unit r2.2)
      as (evs3 & Hlog3 & _ & Hsig & Hrm & Hg).
    exists (evs1 ++ evs3). rewrite Hlog3, Hlog2, Hlog1, app_assoc.
    split; [done|]. split.
    { destruct Hrm as [c Hc]. exists c. apply elem_of_app. auto. }
    split; [|split; [done | done]].
    intros Hin. apply elem_of_app in Hin as [Hin|Hin]; [|auto].
    destruct (teardown_spec E tmpdir (record EvSignal r2.2))
      as (_ & _ & _ & _ & _ & Hkeep & _).
    apply Hkeep. by apply Hgone1.
  - injection Hrun' as <- <-.
    destruct (teardown_spec E tmpdir r2.2)
      as (evs3 & c & Hlog3 & Hb3 & Hclean & Hkeep & _).
    exists (evs1 ++ evs3 ++ [EvRmtree tmpdir c]).
    rewrite Hlog3, Hlog2, Hlog1, <- app_assoc.
    split; [done|]. split.
    { exists c. rewrite !elem_of_app. right. right. by left. }
    split; [|split; [|done]].
    + intros Hin. apply elem_of_app in Hin as [Hin|Hin]; [auto|].
      apply Hclean. apply elem_of_app in Hin as [Hin|Hin];
        [by apply benign_not_rmtree in Hin|].
      apply list_elem_of_singleton in Hin. congruence.
    + intros Hin. apply elem_of_app in Hin as [Hin|Hin]; [auto|].
      apply elem_of_app in Hin as [Hin|Hin];
        [by apply benign_not_signal in Hin|].
      apply list_elem_of_singleton in Hin. discriminate.
Qed.

End Supervision.

(** ** Exit codes

    [exits P m]: whenever [m] ends in [sys.exit(c)], [P c] holds. *)

Lemma exits_weaken {A} (P Q : Z -> Prop) (m : M A) :
  (forall c, P c -> Q c) -> exits P m -> exits Q m.
Proof. intros HPQ Hm w c w' Hrun. eauto. Qed.

Lemma never_exits_any {A} (P : Z -> Prop) (m : M A) :
  never_exits m -> exits P m.
Proof. apply exits_weaken. contradiction. Qed.

Lemma exits_bind {A B} P (m : M A) (f : A -> M B) :
  exits P m -> (forall a, exits P (f a)) -> exits P (m ≫= f).
Proof.
  intros Hm Hf w c w' Hrun. rewrite bind_unfold in Hrun.
  destruct (m w) as [[a|e|c1|] w1] eqn:Hmw; try discriminate.
  - by apply (Hf a _ _ _ Hrun).
  - injection Hrun as <- <-. by apply (Hm _ _ _ Hmw).
Qed.

Lemma never_exits_ret {A} (a : A) : never_exits (mret a).
Proof. intros w c w' [=]. Qed.

Lemma never_exits_raise {A} e : never_exits (@raise A e).
Proof. intros w c w' [=]. Qed.

Lemma never_exits_tell f : never_exits (tell f).
Proof. intros w c w' [=]. Qed.

Lemma never_exits_get_fs : never_exits get_fs.
Proof. intros w c w' [=]. Qed.

Lemma never_exits_blocked {A} : never_exits (fun w : World => (@Blocked A, w)).
Proof. intros w c w' [=]. Qed.

Lemma never_exits_fs_call op : never_exits (fs_call op).
Proof. intros w c w'. unfold fs_call. by destruct (op (w_fs w)). Qed.

Lemma exits_sys_exit {A} c : exits (fun c' => c' = c) (@sys_exit A c).
Proof. by intros w c' w' [= ->]. Qed.

Lemma exits_when P b m : exits P m -> exits P (when b m).
Proof.
  intros Hm. destruct b; [done|]. apply never_exits_any, never_exits_ret.
Qed.

Create HintDb exits discriminated.
#[export] Hint Constants Opaque : exits.
#[export] Hint Resolve never_exits_ret never_exits_raise never_exits_tell
  never_exits_get_fs never_exits_blocked never_exits_fs_call : exits.

Ltac exits_steps :=
  repeat match goal with
    | |- exits _ (_ ≫= _) => apply exits_bind; [|intros ?]
    | |- exits _ (when _ _) => apply exits_when
    | |- exits _ (if ?b then _ else _) => destruct b
    | |- exits _ (match ?x with _ => _ end) => destruct x
    | |- never_exits _ => solve [eauto with exits]
    | |- exits _ _ => solve [apply never_exits_any; eauto with exits]
    end.

Section ExitCodes.

Variable E : Env.

Lemma scan_ports_none ports : forall w w',
  scan_ports E ports w = (Ok None, w') ->
  Forall (fun q => valid_port q /\ bind_ok E q = false) ports.
Proof.
  induction ports as [|port rest IH]; intros w w' Hrun; [constructor|].
  rewrite scan_ports_cons, with_socket_bind in Hrun.
  destruct ((port <? 0) || (65535 <? port)) eqn:Hrange; [discriminate|].
  apply orb_false_elim in Hrange as [Hlo Hhi].
  destruct (bind_ok E port) eqn:Hbind; [discriminate|].
  constructor; [unfold valid_port; split; [lia | done]|].
  cbn [is_OSError cls] in Hrun. by eapply IH.
Qed.

Lemma never_exits_scan_ports ports : never_exits (scan_ports E ports).
Proof.
  induction ports as [|port rest IH]; [apply never_exits_ret|].
  intros w c w' Hrun. rewrite scan_ports_cons, with_socket_bind in Hrun.
  destruct ((port <? 0) || (65535 <? port)); [discriminate|].
  destruct (bind_ok E port); [discriminate|].
  cbn [is_OSError cls] in Hrun. by eapply IH.
Qed.

Lemma exits_find_free_port start :
  exits (fun c => c = 1 /\ ports_exhausted E start) (find_free_port E start 0).
Proof.
  intros w c w'. unfold find_free_port. rewrite bind_unfold.
  destruct (scan_ports E _ w) as [[[p|]|e|c1|] w1] eqn:Hscan;
    try discriminate.
  - intros [= <- _]. split; [done|].
    apply scan_ports_none in Hscan. rewrite Forall_forall in Hscan.
    intros q Hq. apply Hscan, elem_of_py_range.
    unfold effective_end. simpl. lia.
  - by apply never_exits_scan_ports in Hscan.
Qed.

Lemma exits_find_myst :
  exits (fun c => c = 1 /\ renderer_missing E) (find_myst E).
Proof.
  intros w c w'. unfold find_myst, renderer_missing.
  destruct (truthy (which E "myst")); [discriminate|].
  destruct (truthy (which E "npx")); [discriminate|].
  by intros [= <- _].
Qed.

Lemma never_exits_link_items source_dir tmpdir items :
  never_exits (link_items E source_dir tmpdir items).
Proof.
  induction items as [|name rest IH]; simpl; [apply never_exits_ret|].
  unfold never_exits. exits_steps.
Qed.

Lemma never_exits_stage_links source_dir tmpdir :
  never_exits (stage_links E source_dir tmpdir).
Proof.
  unfold stage_links, never_exits.
  apply exits_bind; [apply never_exits_get_fs|]. intros fs.
  destruct (listdir _ _ _);
    [apply never_exits_raise | apply never_exits_link_items].
Qed.

Lemma never_exits_write_descriptor tmpdir theme slug :
  never_exits (write_descriptor E tmpdir theme slug).
Proof. unfold write_descriptor, never_exits. exits_steps. Qed.

Lemma never_exits_copy_output tmpdir args :
  never_exits (copy_output E tmpdir args).
Proof.
  unfold copy_output, never_exits. exits_steps.
  intros w c w'. by destruct (copytree _ _ _ _) as [? []].
Qed.

Lemma never_exits_popen tmpdir cmd : never_exits (popen E tmpdir cmd).
Proof. unfold popen, never_exits. exits_steps. Qed.

Lemma exits_checkpoint tmpdir pt :
  exits (fun c => c = 0) (checkpoint E tmpdir pt).
Proof.
  intros w c w'. unfold checkpoint. destruct (signal_at E pt).
  - rewrite on_signal_eq. by intros [= <- _].
  - discriminate.
Qed.

Lemma subprocess_run_result tmpdir cmd w r w' :
  subprocess_run E tmpdir cmd w = (r, w') ->
  match r with
  | Ok rc => exists fs', run_build E cmd tmpdir (w_fs w) = Ran fs' rc
  | SysExit c => c = 0
  | Raise _ => True
  | Blocked =>
      signal_at E PBuild = false
      /\ exists fs', run_build E cmd tmpdir (w_fs w) = Hangs fs'
  end.
Proof.
  unfold subprocess_run.
  destruct (run_build E cmd tmpdir (w_fs w)) as [fs' rc|fs'|e].
  - destruct (signal_at E PBuild).
    + rewrite on_signal_eq. by intros [= <- _].
    + intros [= <- _]. by exists fs'.
  - destruct (signal_at E PBuild) eqn:Hsig.
    + rewrite on_signal_eq. by intros [= <- _].
    + intros [= <- _]. split; [done | by exists fs'].
  - by intros [= <- _].
Qed.

(** In build mode [sys.exit] is given the renderer's return code. *)
Lemma exits_build tmpdir source args myst_cmd :
  exits (fun c => c = 0 \/ exists cmd fs fs',
                    run_build E cmd tmpdir fs = Ran fs' c)
        (build E tmpdir source args myst_cmd).
Proof.
  unfold build. apply exits_bind; [exits_steps|]. intros _.
  intros w c w' Hrun. rewrite bind_unfold in Hrun.
  destruct (subprocess_run E tmpdir _ w) as [r1 w1] eqn:Hsub.
  apply subprocess_run_result in Hsub.
  destruct r1 as [rc|e|c1|]; try discriminate.
  - destruct Hsub as [fs' Hran]. rewrite bind_unfold in Hrun.
    destruct (when _ _ w1) as [[[]|e|c1|] w2] eqn:Hcopy; try discriminate.
    + injection Hrun as <- _. right. eauto.
    + exfalso.
      exact (exits_when _ _ _ (never_exits_copy_output tmpdir args)
               _ _ _ Hcopy).
  - injection Hrun as <- _. by left.
Qed.

Lemma exits_serve tmpdir source args myst_cmd :
  exits (fun c => c = 0 \/ (c = 1 /\ ports_exhausted E (a_port args)))
        (serve E tmpdir source args myst_cmd).
Proof.
  unfold serve.
  apply exits_bind;
    [eapply exits_weaken; [|apply exits_find_free_port]; auto|].
  intros port. do 4 (apply exits_bind; [exits_steps|intros ?]).
  { apply never_exits_any, never_exits_popen. }
  apply exits_bind; [|intros ?].
  - apply exits_when. unfold wait_for_port.
    apply exits_bind; [|intros up; exits_steps].
    apply exits_bind; [unfold child_runs; exits_steps|intros ?].
    apply exits_bind; [|intros ?; exits_steps].
    eapply exits_weaken; [|apply exits_checkpoint]. auto.
  - unfold proc_wait.
    apply exits_bind; [unfold child_runs; exits_steps|intros ?].
    apply exits_bind; [|intros ?; exits_steps].
    eapply exits_weaken; [|apply exits_checkpoint]. auto.
Qed.

Lemma exits_supervise tmpdir source args :
  exits (fun c => c = 0 \/ exit_cause E args c)
        (supervise E tmpdir source args).
Proof.
  unfold supervise, exit_cause.
  apply exits_bind;
    [eapply exits_weaken; [|apply exits_checkpoint]; auto | intros ?].
  apply exits_bind;
    [apply never_exits_any, never_exits_stage_links | intros ?].
  apply exits_bind;
    [apply never_exits_any, never_exits_write_descriptor | intros ?].
  apply exits_bind;
    [eapply exits_weaken; [|apply exits_checkpoint]; auto | intros ?].
  apply exits_bind;
    [eapply exits_weaken; [|apply exits_find_myst]; simpl; auto
    | intros myst_cmd].
  destruct (a_build args) eqn:Hb.
  - eapply exits_weaken; [|apply exits_build]. simpl.
    intros c [->|(cmd & fs & fs' & Hran)]; [by left|].
    right. left. split; [done|]. by exists cmd, tmpdir, fs, fs'.
  - eapply exits_weaken; [|apply exits_serve]. simpl. intuition.
Qed.

End ExitCodes.

(** ** Runs that never end *)

Lemma blocks_weaken {A} (P Q : Prop) (m : M A) :
  (P -> Q) -> blocks P m -> blocks Q m.
Proof. intros HPQ Hm w w' Hrun. eauto. Qed.

Lemma never_blocks_any {A} (P : Prop) (m : M A) :
  never_blocks m -> blocks P m.
Proof. apply blocks_weaken. contradiction. Qed.

Lemma blocks_bind {A B} P (m : M A) (f : A -> M B) :
  blocks P m -> (forall a, blocks P (f a)) -> blocks P (m ≫= f).
Proof.
  intros Hm Hf w w' Hrun. rewrite bind_unfold in Hrun.
  destruct (m w) as [[a|e|c1|] w1] eqn:Hmw; try discriminate.
  - by apply (Hf a _ _ Hrun).
  - by apply (Hm _ _ Hmw).
Qed.

Lemma never_blocks_ret {A} (a : A) : never_blocks (mret a).
Proof. intros w w' [=]. Qed.

Lemma never_blocks_raise {A} e : never_blocks (@raise A e).
Proof. intros w w' [=]. Qed.

Lemma never_blocks_sys_exit {A} c : never_blocks (@sys_exit A c).
Proof. intros w w' [=]. Qed.

Lemma never_blocks_tell f : never_blocks (tell f).
Proof. intros w w' [=]. Qed.

Lemma never_blocks_get_fs : never_blocks get_fs.
Proof. intros w w' [=]. Qed.

Lemma never_blocks_fs_call op : never_blocks (fs_call op).
Proof. intros w w'. unfold fs_call. by destruct (op (w_fs w)). Qed.

Lemma blocks_when P b m : blocks P m -> blocks P (when b m).
Proof.
  intros Hm. destruct b; [done|]. apply never_blocks_any, never_blocks_ret.
Qed.

Create HintDb blocks discriminated.
#[export] Hint Constants Opaque : blocks.
#[export] Hint Resolve never_blocks_ret never_blocks_raise
  never_blocks_sys_exit never_blocks_tell never_blocks_get_fs
  never_blocks_fs_call : blocks.

Ltac blocks_steps :=
  repeat match goal with
    | |- blocks _ (_ ≫= _) => apply blocks_bind; [|intros ?]
    | |- blocks _ (when _ _) => apply blocks_when
    | |- blocks _ (if ?b then _ else _) => destruct b
    | |- blocks _ (match ?x with _ => _ end) => destruct x
    | |- never_blocks _ => solve [eauto with blocks]
    | |- blocks _ _ => solve [apply never_blocks_any; eauto with blocks]
    end.

Section Waiting.

Variable E : Env.

Lemma never_blocks_scan_ports ports : never_blocks (scan_ports E ports).
Proof.
  induction ports as [|port rest IH]; [apply never_blocks_ret|].
  intros w w' Hrun. rewrite scan_ports_cons, with_socket_bind in Hrun.
  destruct ((port <? 0) || (65535 <? port)); [discriminate|].
  destruct (bind_ok E port); [discriminate|].
  cbn [is_OSError cls] in Hrun. by eapply IH.
Qed.

Lemma never_blocks_find_free_port start end_ :
  never_blocks (find_free_port E start end_).
Proof.
  unfold find_free_port, never_blocks.
  apply blocks_bind; [apply never_blocks_scan_ports|].
  intros found. blocks_steps.
Qed.

Lemma never_blocks_find_myst : never_blocks (find_myst E).
Proof. unfold find_myst, never_blocks. blocks_steps. Qed.

Lemma never_blocks_link_items source_dir tmpdir items :
  never_blocks (link_items E source_dir tmpdir items).
Proof.
  induction items as [|name rest IH]; simpl; [apply never_blocks_ret|].
  unfold never_blocks. blocks_steps.
Qed.

Lemma never_blocks_stage_links source_dir tmpdir :
  never_blocks (stage_links E source_dir tmpdir).
Proof.
  unfold stage_links, never_blocks.
  apply blocks_bind; [apply never_blocks_get_fs|]. intros fs.
  destruct (listdir _ _ _);
    [apply never_blocks_raise | apply never_blocks_link_items].
Qed.

Lemma never_blocks_write_descriptor tmpdir theme slug :
  never_blocks (write_descriptor E tmpdir theme slug).
Proof. unfold write_descriptor, never_blocks. blocks_steps. Qed.

Lemma never_blocks_copy_output tmpdir args :
  never_blocks (copy_output E tmpdir args).
Proof.
  unfold copy_output, never_blocks. blocks_steps.
  intros w w'. by destruct (copytree _ _ _ _) as [? []].
Qed.

Lemma never_blocks_checkpoint tmpdir pt :
  never_blocks (checkpoint E tmpdir pt).
Proof.
  intros w w'. unfold checkpoint. destruct (signal_at E pt).
  - by rewrite on_signal_eq.
  - discriminate.
Qed.

Lemma blocks_build tmpdir source args myst_cmd :
  blocks (signal_at E PBuild = false
          /\ exists cmd fs fs', run_build E cmd tmpdir fs = Hangs fs')
         (build E tmpdir source args myst_cmd).
Proof.
  unfold build. apply blocks_bind; [blocks_steps|]. intros _.
  apply blocks_bind.
  - intros w w' Hrun. apply subprocess_run_result in Hrun.
    destruct Hrun as (Hsig & fs' & Hrun). eauto.
  - intros returncode. apply blocks_bind; [|intros ?; blocks_steps].
    apply blocks_when, never_blocks_any, never_blocks_copy_output.
Qed.

Lemma blocks_serve tmpdir source args myst_cmd :
  blocks (signal_at E PWaitChild = false /\ child_exit E = None)
         (serve E tmpdir source args myst_cmd).
Proof.
  unfold serve.
  apply blocks_bind;
    [apply never_blocks_any, never_blocks_find_free_port|].
  intros port. do 3 (apply blocks_bind; [blocks_steps|intros ?]).
  apply blocks_bind; [unfold popen; blocks_steps|intros ?].
  apply blocks_bind; [|intros ?].
  - apply blocks_when. unfold wait_for_port.
    apply blocks_bind; [|intros up; blocks_steps].
    apply blocks_bind; [unfold child_runs; blocks_steps|intros ?].
    apply blocks_bind; [|intros ?; blocks_steps].
    apply never_blocks_any, never_blocks_checkpoint.
  - unfold proc_wait.
    apply blocks_bind; [unfold child_runs; blocks_steps|intros ?].
    intros w w'. rewrite bind_unfold. unfold checkpoint.
    destruct (signal_at E PWaitChild); [by rewrite on_signal_eq|].
    cbn. by destruct (child_exit E).
Qed.

Lemma blocks_supervise tmpdir source args :
  blocks (waits_for_ever E args) (supervise E tmpdir source args).
Proof.
  unfold supervise, waits_for_ever.
  apply blocks_bind;
    [apply never_blocks_any, never_blocks_checkpoint | intros ?].
  apply blocks_bind;
    [apply never_blocks_any, never_blocks_stage_links | intros ?].
  apply blocks_bind;
    [apply never_blocks_any, never_blocks_write_descriptor | intros ?].
  apply blocks_bind;
    [apply never_blocks_any, never_blocks_checkpoint | intros ?].
  apply blocks_bind;
    [apply never_blocks_any, never_blocks_find_myst | intros myst_cmd].
  destruct (a_build args) eqn:Hb.
  - eapply blocks_weaken; [|apply blocks_build].
    intros (Hsig & cmd & fs & fs' & Hrun). left.
    do 2 (split; [done|]). by exists cmd, tmpdir, fs, fs'.
  - eapply blocks_weaken; [|apply blocks_serve]. intros [? ?]. by right.
Qed.

(** [main] ends unless it waits for a child that never exits and no
    signal arrives. *)
Lemma main_waits_for_ever args w0 w' :
  main E args w0 = (Blocked, w') -> waits_for_ever E args.
Proof.
  unfold main. rewrite bind_unfold. unfold get_fs.
  destruct (validate E args (w_fs w0)) as [message|source]; [done|].
  rewrite bind_unfold.
  destruct (mkdtemp E w0) as [[tmpdir|e|c|] w1] eqn:Hmk; try done.
  - unfold run_in_workspace. rewrite bind_unfold.
    change (tell (set_proc false) w1) with (Ok tt, set_proc false w1).
    cbv iota beta. unfold try_except_finally.
    destruct (supervise E tmpdir source args (set_proc false w1))
      as [r1 w2] eqn:Hbody.
    assert (Hfin : forall w3,
      exists r3 w4, (checkpoint E tmpdir PFinally;; cleanup E tmpdir) w3
                    = (r3, w4) /\ r3 <> Blocked).
    { intros w3. rewrite bind_unfold. unfold checkpoint.
      destruct (signal_at E PFinally).
      - rewrite on_signal_eq. by eexists _, _.
      - by eexists _, _. }
    destruct r1 as [[]|e|c|].
    4: intros _; by apply (blocks_supervise _ _ _ _ _ Hbody).
    all: cbn [fst snd];
      match goal with
      | |- context [(checkpoint _ _ PFinally;; cleanup _ _) ?w3] =>
          destruct (Hfin w3) as (r3 & w4 & -> & Hnb)
      end; by destruct r3 as [[]| | |].
  - unfold mkdtemp in Hmk.
    by destruct (mkdtemp_from E (tmp_names E) (w_fs w0)) as [?|[? ?]].
Qed.

End Waiting.

(** ** The whole run *)

Lemma main_in_workspace E args w0 source tmpdir w1 :
  validate E args (w_fs w0) = inr source ->
  mkdtemp E w0 = (Ok tmpdir, w1) ->
  main E args w0 = run_in_workspace E tmpdir source args w1
  /\ w_log w1 = w_log w0 /\ w_err w1 = w_err w0.
Proof.
  intros Hval Hmk. unfold main. rewrite bind_unfold. unfold get_fs.
  rewrite Hval, bind_unfold, Hmk. split; [done|].
  apply mkdtemp_inv in Hmk as (? & ? & _ & _ & _ & ->). done.
Qed.

(** How the result of the [try] block becomes the result of the run. *)
Lemma run_in_workspace_result E tmpdir source args w r w' r1 w1 :
  supervise E tmpdir source args (set_proc false w) = (r1, w1) ->
  run_in_workspace E tmpdir source args w = (r, w') ->
  match r1 with
  | Blocked => r = Blocked
  | Raise e =>
      (r = Ok tt \/ r = SysExit 0)
      /\ w_err w' = w_err w1 ++ ["Error: " +:+ msg e]
  | _ => (r = r1 \/ r = SysExit 0) /\ w_err w' = w_err w1
  end.
Proof.
  intros Hbody. unfold run_in_workspace. rewrite bind_unfold.
  change (tell (set_proc false) w) with (Ok tt, set_proc false w).
  cbv iota beta. unfold try_except_finally. rewrite Hbody.
  assert (Hfin : forall w2,
    (checkpoint E tmpdir PFinally;; cleanup E tmpdir) w2
    = if signal_at E PFinally
      then (SysExit 0, teardown E tmpdir (record EvSignal w2))
      else (Ok tt, teardown E tmpdir w2)).
  { intros w2. rewrite bind_unfold. unfold checkpoint.
    destruct (signal_at E PFinally); [by rewrite on_signal_eq | done]. }
  assert (Herr : forall w2, w_err (teardown E tmpdir w2) = w_err w2).
  { intros w2. by destruct (teardown_spec E tmpdir w2)
      as (? & ? & _ & _ & _ & _ & ? & _). }
  destruct r1 as [[]|e|c|]; cbn [fst snd]; rewrite ?Hfin;
    try (destruct (signal_at E PFinally); intros [= <- <-];
         rewrite Herr; auto).
  by intros [= <- _].
Qed.




(** C6. When a signal arrives, the handler runs the teardown and then
    [sys.exit(0)].  The teardown: if the handle is set and the child
    has not exited, the child is asked to terminate and waited for, for
    5 seconds; if it has not exited by then it is killed; the handle is
    cleared.  Otherwise nothing is done to any process; in particular a
    second teardown, after the handle was cleared, does nothing to the
    process.  Then the workspace is removed recursively; the outcome of
    the removal is whatever [rmtree] achieved, its error is dropped.
    And an invocation in which a signal was handled ends with exit
    status 0. *)
Theorem signal_teardown E tmpdir :
  (forall w,
     @on_signal E unit tmpdir w
     = (SysExit 0,
        remove_workspace E tmpdir (stop_child E (record EvSignal w))))
  /\ (forall w,
        w_proc w = true -> poll w = None ->
        stop_child E w
        = set_proc false
            (if graceful E
             then set_child (Exited (-15))
                    (record_all [EvTerminate; EvWait 5 true] w)
             else set_child (Exited (-9))
                    (record_all [EvTerminate; EvWait 5 false; EvKill] w)))
  /\ (forall w,
        w_proc w = false \/ (exists rc, w_child w = Exited rc) ->
        stop_child E w = w)
  /\ (forall w,
        stop_child E (remove_workspace E tmpdir (stop_child E w))
        = remove_workspace E tmpdir (stop_child E w))
  /\ (forall w,
        w_fs (remove_workspace E tmpdir w)
        = (rmtree_run (faulty E) tmpdir (w_fs w)).1
        /\ w_log (remove_workspace E tmpdir w)
           = w_log w
             ++ [EvRmtree tmpdir
                   (bool_decide
                      ((rmtree_run (faulty E) tmpdir (w_fs w)).2 = None))])
  /\ (forall args source w r w' evs,
        run_in_workspace E tmpdir source args w = (r, w') ->
        w_log w' = w_log w ++ evs ->
        EvSignal ∈ evs ->
        r = SysExit 0 /\ exit_status r = Some 0).
Proof.
  split; [done|]. split; [|split; [|split; [|split; [done|]]]].
  - intros w Hproc Hpoll.
    destruct (stop_child_cases E w)
      as [[_ [H|[rc H]]]|[(_ & _ & Hg & ->)|(_ & _ & Hg & ->)]];
      try by rewrite Hg.
    + congruence.
    + unfold poll in Hpoll. by rewrite H in Hpoll.
  - intros w Hw.
    destruct (stop_child_cases E w)
      as [[H _]|[(Hproc & Hpoll & _)|(Hproc & Hpoll & _)]]; [done| |];
      destruct Hw as [Hw|[rc Hw]]; try congruence;
      unfold poll in Hpoll; by rewrite Hw in Hpoll.
  - intros w. set (w1 := stop_child E w).
    assert (Hcase : w_proc w1 = false \/ exists rc, w_child w1 = Exited rc).
    { unfold w1. destruct (stop_child_cases E w)
        as [[-> H]|[(_ & _ & _ & ->)|(_ & _ & _ & ->)]]; auto. }
    unfold stop_child, poll, remove_workspace. simpl.
    destruct Hcase as [->|[rc ->]]; [done|].
    by rewrite andb_false_r.
  - intros args source w r w' evs Hrun Hlog Hsig.
    destruct (run_in_workspace_ends _ _ _ _ _ _ _ Hrun)
      as [(_ & evs' & Hlog' & Hb)|(evs' & Hlog' & _ & _ & Hexit & _)];
      rewrite Hlog' in Hlog; apply app_inv_head in Hlog as <-.
    + by apply benign_not_signal in Hsig.
    + by rewrite (Hexit Hsig).
Qed.

Lemma signal_teardown_witness :
  (run_in_workspace interrupted_env sample_tmpdir ["proj"; "notes.md"]
     notes_args interrupted_w1).1 = SysExit 0
  /\ exit_status
       (run_in_workspace interrupted_env sample_tmpdir ["proj"; "notes.md"]
          notes_args interrupted_w1).1 = Some 0.
Proof.
  apply (proj2 (proj2 (proj2 (proj2 (proj2
           (signal_teardown interrupted_env sample_tmpdir)))))
           notes_args ["proj"; "notes.md"] interrupted_w1 _
           (run_in_workspace interrupted_env sample_tmpdir
              ["proj"; "notes.md"] notes_args interrupted_w1).2
           [EvSockOpen; EvBind 3000 true; EvSockClose;
            EvPopen ["/usr/bin/myst"; "start"; "--port"; "3000";
                     "--keep-host"] sample_tmpdir "0.0.0.0";
            EvBrowser "http://localhost:3000";
            EvSignal; EvTerminate; EvWait 5 false; EvKill;
            EvRmtree sample_tmpdir true; EvRmtree sample_tmpdir false]).
  - by destruct (run_in_workspace _ _ _ _ _).
  - vm_compute. reflexivity.
  - set_solver.
Defined.

(** C10. Provided the workspace can be created, no exception leaves
    [main]: an exception of the [try] block is printed on standard
    error and the run ends with status 0, as it does when the block
    runs to its end, which in serve mode is the child exiting by
    itself, whatever its exit code.  A status other than 0 has one of
    four causes: validation failed; build mode, where the status is the
    renderer's return code; no renderer on the search path; no port
    left in the range. *)
Theorem exit_codes E args w0 r w' :
  main E args w0 = (r, w') ->
  (forall source, validate E args (w_fs w0) = inr source ->
                  exists tmpdir w1, mkdtemp E w0 = (Ok tmpdir, w1)) ->
  (forall e, r <> Raise e)
  /\ (forall c, exit_status r = Some c -> c <> 0 ->
        (c = 1 /\ exists message, validate E args (w_fs w0) = inl message)
        \/ exit_cause E args c)
  /\ (forall source tmpdir w1 r1 w2,
        validate E args (w_fs w0) = inr source ->
        mkdtemp E w0 = (Ok tmpdir, w1) ->
        supervise E tmpdir source args (set_proc false w1) = (r1, w2) ->
        match r1 with
        | Raise e =>
            exit_status r = Some 0
            /\ w_err w' = w_err w2 ++ ["Error: " +:+ msg e]
        | Ok _ => exit_status r = Some 0
        | _ => True
        end)
  /\ (a_build args = false ->
      forall c, exit_status r = Some c -> c = 0 \/ c = 1).
Proof.
  intros Hrun Hmake.
  destruct (validate E args (w_fs w0)) as [message|source] eqn:Hval.
  { assert (Hmain : main E args w0 = (SysExit 1, print_err message w0)).
    { unfold main. rewrite bind_unfold. unfold get_fs. by rewrite Hval. }
    rewrite Hmain in Hrun. injection Hrun as <- <-.
    split; [done|]. split; [|split; [done|]].
    - intros c [= <-] _. left. split; [done | by exists message].
    - intros _ c [= <-]. by right. }
  destruct (Hmake source eq_refl) as (tmpdir & w1 & Hmk).
  destruct (main_in_workspace _ _ _ _ _ _ Hval Hmk) as (Hmain & _ & _).
  rewrite Hmain in Hrun.
  destruct (supervise E tmpdir source args (set_proc false w1))
    as [r1 w2] eqn:Hbody.
  pose proof (run_in_workspace_result _ _ _ _ _ _ _ _ _ Hbody Hrun) as Hres.
  pose proof (exits_supervise E tmpdir source args) as Hexits.
  assert (Hcause : forall c, exit_status r = Some c -> c <> 0 ->
                             exit_cause E args c).
  { intros c Hc Hnz.
    destruct r1 as [[]|e|c1|]; [| | |subst r; discriminate].
    - destruct Hres as [[->| ->] _]; injection Hc as <-; done.
    - destruct Hres as [[->| ->] _]; injection Hc as <-; done.
    - destruct Hres as [[->| ->] _]; injection Hc as <-; [|done].
      destruct (Hexits _ _ _ Hbody) as [?|?]; done. }
  split; [|split; [auto|split]].
  - intros e He. subst r.
    destruct r1 as [[]|e1|c1|]; [| | |done];
      by destruct Hres as [[?|?] _].
  - intros source' tmpdir' w1' r1' w2' [= <-] Hmk'.
    rewrite Hmk in Hmk'. injection Hmk' as <- <-.
    rewrite Hbody. intros [= <- <-].
    destruct r1 as [[]|e|c|]; try done.
    + by destruct Hres as [[->| ->] _].
    + destruct Hres as [[->| ->] Herr]; by rewrite ?Herr.
  - intros Hserve c Hc.
    destruct (decide (c = 0)) as [->|Hnz]; [by left|right].
    destruct (Hcause c Hc Hnz) as [[Hb _]|[[-> ?]|(-> & _ & ?)]];
      [congruence | done | done].
Qed.

Lemma exit_codes_witness :
  (forall e, (main crashing_env notes_args project_world).1 <> Raise e)
  /\ exit_status (main crashing_env notes_args project_world).1 = Some 0
  /\ (forall c,
        exit_status (main crashing_env notes_args project_world).1 = Some c ->
        c = 0 \/ c = 1).
Proof.
  assert (H := exit_codes crashing_env notes_args project_world
                 (main crashing_env notes_args project_world).1
                 (main crashing_env notes_args project_world).2).
  destruct H as (Hcaught & _ & _ & Hserve).
  - by destruct (main _ _ _).
  - intros source _. exists sample_tmpdir.
    exists (mkdtemp crashing_env project_world).2.
    apply run_eq. vm_compute. reflexivity.
  - split; [exact Hcaught|]. split; [vm_compute; reflexivity|].
    exact (Hserve eq_refl).
Defined.

(** With that port on the command line the exception is caught by
    [main] and printed, and the run ends with status 0. *)
Lemma invalid_port_run :
  exit_status (main busy_env far_port_args project_world).1 = Some 0
  /\ w_err (main busy_env far_port_args project_world).2
     = ["Error: bind(): port must be 0-65535."].
Proof. split; vm_compute; reflexivity. Qed.

(** ** Building twice in the same directory *)

(** C5 (what the code does when the output of an earlier build is in
    the source directory).  The first build in [/proj] ends with the
    renderer's status 0 and leaves the page in [/proj/_build/html].  The
    second build finds [_build] in the source directory and links it
    into the workspace, so the renderer, run again with success, writes
    straight into [/proj/_build/html]; [main] then removes the output
    directory, finds nothing left to copy, prints the error and ends
    with status 0: the output directory does not exist any more. *)
Theorem rebuild_loses_output :
  first_build.1 = SysExit 0
  /\ read_text no_fault ["proj"; "_build"; "html"; "index.html"]
               (w_fs first_build.2) = inr "<html>notes</html>"
  /\ lexists (w_fs first_build.2) sample_tmpdir = false
  /\ match run_build build_env ["/usr/bin/myst"; "build"; "--html"]
                      sample_tmpdir
                      (w_fs (stage build_env build_args ["proj"; "notes.md"]
                               sample_tmpdir
                               (mkdtemp build_env first_build.2).2).2) with
     | Ran fs' returncode =>
         returncode = 0
         /\ read_text no_fault ["proj"; "_build"; "html"; "index.html"] fs'
            = inr "<html>notes</html>"
     | Hangs _ | LaunchError _ => False
     end
  /\ second_build.1 = Ok tt
  /\ path_exists (w_fs second_build.2) ["proj"; "_build"; "html"] = false
  /\ w_err second_build.2
     = ["Error: [Errno 2] No such file or directory: "
        +:+ "'/tmp/myst-preview-k3x9q2ab/_build/html'"].
Proof.
  split; [vm_compute; reflexivity|].
  split; [vm_compute; reflexivity|].
  split; [vm_compute; reflexivity|].
  split; [vm_compute; split; reflexivity|].
  split; [vm_compute; reflexivity|].
  split; vm_compute; reflexivity.
Qed.

(** * Further properties *)

(** ** The port scan, continued *)

Lemma py_range_nil a b : b <= a -> py_range a b = [].
Proof.
  intros H. unfold py_range. by replace (Z.to_nat (b - a)) with O by lia.
Qed.

Lemma py_range_cons a b : a < b -> py_range a b = a :: py_range (a + 1) b.
Proof.
  intros H. unfold py_range.
  replace (Z.to_nat (b - a)) with (S (Z.to_nat (b - (a + 1)))) by lia.
  simpl. f_equal; [lia|].
  rewrite <- seq_shift, map_map. apply map_ext. intros i. lia.
Qed.

Lemma py_range_app a p b :
  a <= p <= b -> py_range a b = py_range a p ++ py_range p b.
Proof.
  intros H. unfold py_range.
  replace (Z.to_nat (b - a)) with (Z.to_nat (p - a) + Z.to_nat (b - p))%nat
    by lia.
  rewrite seq_app, map_app. f_equal. simpl.
  rewrite <- (Nat.add_0_r (Z.to_nat (p - a))) at 1.
  generalize (Z.to_nat (b - p)) as n. generalize 0%nat as s.
  intros s n. revert s. induction n as [|n IH]; intros s; simpl; [done|].
  f_equal; [lia|]. rewrite <- IH. f_equal. f_equal. lia.
Qed.

Section PortScanOutcomes.

Variable E : Env.

(** The loop stops at the first candidate that is not a valid port
    number in use. *)
Lemma scan_ports_app pre rest w :
  Forall (fun q => valid_port q /\ bind_ok E q = false) pre ->
  scan_ports E (pre ++ rest) w =
  scan_ports E rest (record_all (flat_map (fun q => attempt q false) pre) w).
Proof.
  revert w. induction pre as [|q pre IH]; intros w Hall.
  - simpl. by rewrite record_all_nil.
  - apply Forall_cons in Hall as [[Hvalid Hbind] Hrest].
    change ((q :: pre) ++ rest) with (q :: (pre ++ rest)).
    rewrite scan_ports_cons, with_socket_bind.
    assert ((q <? 0) || (65535 <? q) = false) as ->
      by (unfold valid_port in Hvalid; lia).
    rewrite Hbind. cbn [is_OSError cls]. rewrite IH by done.
    by rewrite record_all_app.
Qed.

Lemma taken_range a p :
  (forall q, a <= q < p -> valid_port q /\ bind_ok E q = false) ->
  Forall (fun q => valid_port q /\ bind_ok E q = false) (py_range a p).
Proof.
  intros H. apply Forall_forall. intros q Hq.
  apply elem_of_py_range in Hq. auto.
Qed.

(** How the loop ends, and what it has logged by then. *)
Lemma scan_ports_outcome ports : forall w r w',
  scan_ports E ports w = (r, w') ->
  exists pre,
    pre `prefix_of` ports
    /\ Forall (fun q => valid_port q /\ bind_ok E q = false) pre
    /\ ((r = Ok None /\ pre = ports
         /\ w' = record_all (flat_map (fun q => attempt q false) pre) w)
        \/ (exists p, r = Ok (Some p) /\ (pre ++ [p]) `prefix_of` ports
              /\ valid_port p /\ bind_ok E p = true
              /\ w' = record_all (flat_map (fun q => attempt q false) pre
                                  ++ attempt p true) w)
        \/ (exists p, r = Raise bad_port /\ (pre ++ [p]) `prefix_of` ports
              /\ ~ valid_port p
              /\ w' = record_all (flat_map (fun q => attempt q false) pre
                                  ++ attempt p false) w)).
Proof.
  induction ports as [|port rest IH]; intros w r w' Hrun.
  { injection Hrun as <- <-. exists []. split; [done|]. split; [done|].
    left. by rewrite record_all_nil. }
  rewrite scan_ports_cons, with_socket_bind in Hrun.
  destruct ((port <? 0) || (65535 <? port)) eqn:Hrange.
  { injection Hrun as <- <-. exists []. split; [apply prefix_nil|].
    split; [done|]. right. right. exists port.
    split; [done|]. split; [by exists rest|].
    split; [unfold valid_port; lia | done]. }
  assert (Hvalid : valid_port port) by (unfold valid_port; lia).
  destruct (bind_ok E port) eqn:Hbind.
  { injection Hrun as <- <-. exists []. split; [apply prefix_nil|].
    split; [done|]. right. left. exists port.
    split; [done|]. split; [by exists rest|]. done. }
  cbn [is_OSError cls] in Hrun.
  destruct (IH _ _ _ Hrun) as (pre & Hpre & Hall & Hcase).
  exists (port :: pre). split; [by apply prefix_cons|].
  split; [by constructor|].
  destruct Hcase as [(-> & -> & ->)|[(p & -> & Hp & ? & ? & ->)
                                    |(p & -> & Hp & ? & ->)]].
  - left. by rewrite record_all_app.
  - right. left. exists p. rewrite record_all_app, app_assoc.
    split; [done|]. split; [by apply prefix_cons | done].
  - right. right. exists p. rewrite record_all_app, app_assoc.
    split; [done|]. split; [by apply prefix_cons | done].
Qed.

End PortScanOutcomes.

Section FindFreePortOutcomes.

Variable E : Env.

Lemma find_free_port_unfold start end_ w :
  find_free_port E start end_ w =
  match scan_ports E (py_range start (effective_end start end_ + 1)) w with
  | (Ok (Some port), w1) => (Ok port, w1)
  | (Ok None, w1) =>
      (SysExit 1,
       print_err ("Error: no free port found in range " +:+ pretty start
                  +:+ "-" +:+ pretty (effective_end start end_)) w1)
  | (Raise e, w1) => (Raise e, w1)
  | (SysExit c, w1) => (SysExit c, w1)
  | (Blocked, w1) => (Blocked, w1)
  end.
Proof.
  unfold find_free_port. rewrite bind_unfold.
  by destruct (scan_ports E _ w) as [[[p|]|e|c|] w1].
Qed.

Lemma prefix_py_range pre p a b :
  (pre ++ [p]) `prefix_of` py_range a b -> pre = py_range a p /\ a <= p < b.
Proof.
  intros [post Hpost]. rewrite <- app_assoc in Hpost.
  by apply py_range_split in Hpost.
Qed.

(** X1. The search is a first fit: when the candidates below [p] are
    valid port numbers in use and [p] itself can be bound, the search
    returns [p], having tried exactly the candidates up to [p]. *)
Theorem find_free_port_first_fit start end_ p w :
  start <= p <= effective_end start end_ ->
  (forall q, start <= q < p -> valid_port q /\ bind_ok E q = false) ->
  valid_port p ->
  bind_ok E p = true ->
  find_free_port E start end_ w =
  (Ok p, record_all (flat_map (fun q => attempt q false) (py_range start p)
                     ++ attempt p true) w).
Proof.
  intros Hp Hbelow Hvalid Hbind. rewrite find_free_port_unfold.
  rewrite (py_range_app start p (effective_end start end_ + 1)) by lia.
  rewrite scan_ports_app by by apply taken_range.
  rewrite (py_range_cons p) by lia.
  rewrite scan_ports_cons, with_socket_bind.
  assert ((p <? 0) || (65535 <? p) = false) as ->
    by (unfold valid_port in Hvalid; lia).
  rewrite Hbind. by rewrite record_all_app.
Qed.

(** X2. However the search ends, it leaves no socket open and touches
    nothing but the log and, for its message, standard error: the log
    grows by one open-bind-close triple for each candidate tried, and
    the candidates tried are the first ones of the range, in order. *)
Theorem find_free_port_closes_sockets start end_ w :
  exists tried,
    w_log (find_free_port E start end_ w).2 = w_log w ++ attempts tried
    /\ map fst tried `prefix_of` py_range start (effective_end start end_ + 1)
    /\ w_fs (find_free_port E start end_ w).2 = w_fs w
    /\ w_out (find_free_port E start end_ w).2 = w_out w
    /\ w_proc (find_free_port E start end_ w).2 = w_proc w
    /\ w_child (find_free_port E start end_ w).2 = w_child w.
Proof.
  rewrite find_free_port_unfold.
  destruct (scan_ports E _ w) as [r w1] eqn:Hscan.
  destruct (scan_ports_outcome _ _ _ _ _ Hscan) as (pre & Hpre & _ & Hcase).
  assert (Hfalse : forall l, attempts (map (fun q => (q, false)) l)
                             = flat_map (fun q => attempt q false) l).
  { intros l. unfold attempts. by rewrite flat_map_concat_map, map_map,
      <- flat_map_concat_map. }
  assert (Hfst : forall l, map fst (map (fun q : Z => (q, false)) l) = l).
  { intros l. rewrite map_map. apply map_id. }
  destruct Hcase as [(-> & -> & ->)|[(p & -> & Hp & _ & _ & ->)
                                    |(p & -> & Hp & _ & ->)]].
  - exists (map (fun q => (q, false)) (py_range start
              (effective_end start end_ + 1))).
    rewrite Hfalse, Hfst. by repeat split.
  - exists (map (fun q => (q, false)) pre ++ [(p, true)]).
    unfold attempts. rewrite flat_map_app. fold (attempts
      (map (fun q => (q, false)) pre)).
    rewrite Hfalse, map_app, Hfst. by repeat split.
  - exists (map (fun q => (q, false)) pre ++ [(p, false)]).
    unfold attempts. rewrite flat_map_app. fold (attempts
      (map (fun q => (q, false)) pre)).
    rewrite Hfalse, map_app, Hfst. by repeat split.
Qed.

(** X3. An exception leaves the search exactly when, going up from
    [start], a number that is no port comes before any port that can be
    bound: the exception is the [OverflowError] of [bind], it is raised
    at that candidate, after the socket is closed, and the search prints
    nothing. *)
Theorem find_free_port_raises start end_ w e w' :
  find_free_port E start end_ w = (Raise e, w') <->
  exists p,
    start <= p <= effective_end start end_
    /\ ~ valid_port p
    /\ (forall q, start <= q < p -> valid_port q /\ bind_ok E q = false)
    /\ e = bad_port
    /\ w' = record_all (flat_map (fun q => attempt q false)
                          (py_range start p) ++ attempt p false) w.
Proof.
  rewrite find_free_port_unfold. split.
  - destruct (scan_ports E _ w) as [r w1] eqn:Hscan.
    destruct (scan_ports_outcome _ _ _ _ _ Hscan) as (pre & _ & Hall & Hcase).
    destruct Hcase as [(-> & _)|[(p & -> & _)|(p & -> & Hp & Hbad & ->)]];
      try discriminate.
    intros [= <- <-]. apply prefix_py_range in Hp as [-> Hp].
    exists p. split; [lia|]. split; [done|]. split; [|done].
    intros q Hq. rewrite Forall_forall in Hall. apply Hall.
    apply elem_of_py_range. lia.
  - intros (p & Hp & Hbad & Hbelow & -> & ->).
    rewrite (py_range_app start p (effective_end start end_ + 1)) by lia.
    rewrite scan_ports_app by by apply taken_range.
    rewrite (py_range_cons p) by lia.
    rewrite scan_ports_cons, with_socket_bind.
    assert ((p <? 0) || (65535 <? p) = true) as ->
      by (unfold valid_port in Hbad; lia).
    by rewrite record_all_app.
Qed.

(** X4. The search ends the process exactly when every candidate is a
    valid port number in use, which includes the case of an empty range
    ([end_] below [start]); the status is 1, every candidate has been
    tried, and one line naming the range is printed on standard
    error. *)
Theorem find_free_port_exits start end_ w c w' :
  find_free_port E start end_ w = (SysExit c, w') <->
  c = 1
  /\ (forall q, start <= q <= effective_end start end_ ->
                valid_port q /\ bind_ok E q = false)
  /\ w' = print_err ("Error: no free port found in range " +:+ pretty start
                     +:+ "-" +:+ pretty (effective_end start end_))
            (record_all (flat_map (fun q => attempt q false)
                           (py_range start (effective_end start end_ + 1)))
                        w).
Proof.
  rewrite find_free_port_unfold. split.
  - destruct (scan_ports E _ w) as [r w1] eqn:Hscan.
    destruct (scan_ports_outcome _ _ _ _ _ Hscan) as (pre & _ & Hall & Hcase).
    destruct Hcase as [(-> & -> & ->)|[(p & -> & _)|(p & -> & _)]];
      try discriminate.
    intros [= <- <-]. split; [done|]. split; [|done].
    intros q Hq. rewrite Forall_forall in Hall. apply Hall.
    apply elem_of_py_range. lia.
  - intros (-> & Hall & ->).
    rewrite scan_ports_exhausted; [done|].
    apply taken_range. intros q Hq. apply Hall. lia.
Qed.

End FindFreePortOutcomes.

Lemma find_free_port_first_fit_witness :
  find_free_port busy_env 3000 0 empty_world =
  (Ok 3002, record_all (flat_map (fun q => attempt q false)
                          (py_range 3000 3002) ++ attempt 3002 true)
              empty_world).
Proof.
  apply (find_free_port_first_fit busy_env 3000 0 3002 empty_world).
  - vm_compute. split; discriminate.
  - intros q Hq. unfold valid_port. simpl. split; [lia|].
    apply Z.leb_gt. lia.
  - unfold valid_port. lia.
  - reflexivity.
Defined.

(** ** Names: stem and suffix *)

Lemma append_empty_r s : s +:+ "" = s.
Proof.
  induction s as [|c s IH]; [done|].
  change (String c (s +:+ "") = String c s). by rewrite IH.
Qed.

Lemma substring_all s : String.substring 0 (String.length s) s = s.
Proof. induction s as [|c s IH]; simpl; [done | by rewrite IH]. Qed.

Lemma substring_split s : forall i,
  (i <= String.length s)%nat ->
  String.substring 0 i s +:+ String.substring i (String.length s - i) s = s.
Proof.
  induction s as [|c s IH]; intros i Hi; simpl in *.
  - by destruct i.
  - destruct i as [|i]; simpl.
    + by rewrite substring_all.
    + change (String c (String.substring 0 i s +:+
                String.substring i (String.length s - i) s) = String c s).
      f_equal. apply IH. lia.
Qed.

Lemma rfind_dot_lt s : forall i,
  rfind_dot s = Some i -> (i < String.length s)%nat.
Proof.
  induction s as [|c s IH]; intros i; simpl; [discriminate|].
  destruct (rfind_dot s) as [j|].
  - intros [= <-]. specialize (IH j eq_refl). lia.
  - destruct (Ascii.eqb c "."); [|discriminate]. intros [= <-]. lia.
Qed.

(** Stem and suffix are the two halves of the name. *)
Lemma name_stem_suffix name : name_stem name +:+ name_suffix name = name.
Proof.
  unfold name_stem, name_suffix, split_point.
  destruct (rfind_dot name) as [i|] eqn:Hdot.
  - apply rfind_dot_lt in Hdot.
    destruct (Nat.ltb 0 i && Nat.ltb i (String.length name - 1))%bool.
    + apply substring_split. lia.
    + by rewrite append_empty_r.
  - by rewrite append_empty_r.
Qed.

Lemma name_stem_nonempty name : name_suffix name <> "" -> name_stem name <> "".
Proof.
  unfold name_stem, name_suffix, split_point.
  destruct (rfind_dot name) as [i|] eqn:Hdot; [|done].
  destruct (Nat.ltb 0 i) eqn:Hi; simpl; [|done].
  destruct (Nat.ltb i (String.length name - 1)); [|done].
  intros _. apply Nat.ltb_lt in Hi.
  destruct i as [|i]; [lia|]. destruct name; [discriminate|]. done.
Qed.

(** ** Canonical paths *)

Lemma plain_path_removelast p : plain_path p -> plain_path (removelast p).
Proof.
  intros Hp. destruct p as [|x p _] using rev_ind; [done|].
  rewrite removelast_last. by apply Forall_app in Hp as [? _].
Qed.

Lemma is_plain_eqb c :
  String.eqb c "." = false -> String.eqb c ".." = false -> is_plain c = true.
Proof. intros H1 H2. unfold is_plain. by rewrite H1, H2. Qed.

Section WalkResult.

Variables (fs : FS) (fl : bool).

#[local] Abbreviation lands h rest cur :=
  (forall r, real_dir fs cur -> plain_path cur ->
   walk h fs fl cur rest = Some r ->
   plain_path r /\ real_dir fs (removelast r)
   /\ (fl = true -> forall t, node_at fs r <> Some (Link t))).

Lemma real_dir_node cur : real_dir fs cur -> node_at fs cur = Some Dir.
Proof.
  intros Hcur. destruct cur as [|c cur]; [done|]. by apply Hcur.
Qed.

Lemma walk_result_step h :
  (forall h1, h = S h1 -> forall rest cur, lands h1 rest cur) ->
  forall rest cur, lands h rest cur.
Proof.
  intros IHh.
  induction rest as [|c rest IH]; intros cur r Hcur Hplain Hwalk.
  - rewrite walk_nil in Hwalk. injection Hwalk as <-.
    split; [done|]. split; [by apply real_dir_removelast|].
    intros _ t. by rewrite real_dir_node.
  - rewrite walk_cons in Hwalk.
    destruct (String.eqb c ".") eqn:Hdot; [by apply (IH cur)|].
    destruct (String.eqb c "..") eqn:Hup.
    { apply (IH (removelast cur));
        [by apply real_dir_removelast | by apply plain_path_removelast
        | done]. }
    assert (Hp : plain_path (cur ++ [c])).
    { apply Forall_app. split; [done|]. constructor; [|done].
      by apply is_plain_eqb. }
    assert (Hhere : forall n, fs !! (cur ++ [c]) = n ->
              (forall t, n <> Some (Link t)) ->
              plain_path (cur ++ [c])
              /\ real_dir fs (removelast (cur ++ [c]))
              /\ (fl = true ->
                  forall t, node_at fs (cur ++ [c]) <> Some (Link t))).
    { intros n Hn Hnot. split; [done|]. rewrite removelast_last.
      split; [done|]. intros _ t. rewrite node_at_snoc, Hn. apply Hnot. }
    destruct (fs !! (cur ++ [c])) as [[| |t]|] eqn:Hlook.
    + destruct rest; cbn [is_nil] in Hwalk; [|discriminate].
      injection Hwalk as <-. by apply (Hhere _ eq_refl).
    + apply (IH (cur ++ [c])); [by apply real_dir_snoc | done | done].
    + destruct (negb fl && is_nil rest) eqn:Hlast.
      * injection Hwalk as <-. split; [done|]. rewrite removelast_last.
        split; [done|]. intros ->. discriminate.
      * destruct h as [|h1]; [discriminate|].
        apply (IHh h1 eq_refl (t ++ rest) []);
          [apply real_dir_nil | constructor | done].
    + destruct rest; cbn [is_nil] in Hwalk; [|discriminate].
      injection Hwalk as <-. by apply (Hhere _ eq_refl).
Qed.

Lemma walk_result h : forall rest cur, lands h rest cur.
Proof.
  induction h as [|h IHh]; apply walk_result_step.
  - intros h1 Hh1. discriminate.
  - intros h1 [= <-]. exact IHh.
Qed.

(** Walking down directories that are really there. *)
Lemma walk_real_dir h d : forall cur rest,
  plain_path d -> real_dir fs (cur ++ d) ->
  walk h fs fl cur (d ++ rest) = walk h fs fl (cur ++ d) rest.
Proof.
  induction d as [|c d IH]; intros cur rest Hplain Hreal.
  - by rewrite app_nil_r.
  - apply Forall_cons in Hplain as [Hc Hd].
    apply andb_prop in Hc as [H1 H2].
    simpl app. rewrite walk_cons.
    destruct (String.eqb c "."); [done|]. destruct (String.eqb c ".."); [done|].
    replace (cur ++ c :: d) with ((cur ++ [c]) ++ d) in *
      by (by rewrite <- app_assoc).
    rewrite (Hreal (cur ++ [c])); [by apply IH | by destruct cur |].
    by exists d.
Qed.

End WalkResult.

(** A path that resolution has produced resolves to itself. *)
Lemma resolve_idem fs p q : resolve fs p = Some q -> resolve fs q = Some q.
Proof.
  intros Hres.
  destruct (walk_result fs true MAXSYMLINKS p [] q (real_dir_nil _))
    as (Hplain & Hreal & Hnot); [constructor | done |].
  destruct q as [|c q _] using rev_ind; [done|].
  rewrite removelast_last in Hreal.
  apply Forall_app in Hplain as [Hq Hc].
  apply Forall_cons in Hc as [Hc _].
  unfold resolve.
  rewrite (walk_real_dir fs true MAXSYMLINKS q [] [c]) by done.
  simpl app. apply walk_plain_follow; [done|].
  intros t. rewrite <- node_at_snoc. by apply Hnot.
Qed.

(** ** The accepted source *)

Section Accepted.

Variables (E : Env) (args : Args) (fs : FS) (source : path).
Hypothesis Hval : validate E args fs = inr source.

Lemma accepted_inv :
  resolve fs (abspath (cwd E) (a_file args)) = Some source
  /\ path_exists fs source = true
  /\ In (path_suffix source) SUPPORTED_EXTENSIONS.
Proof.
  unfold validate in Hval.
  destruct (path_exists fs (path_resolve fs _)) eqn:Hex; [|discriminate].
  destruct (existsb _ SUPPORTED_EXTENSIONS) eqn:Hin; [|discriminate].
  injection Hval as Hsrc. apply existsb_eqb_In in Hin.
  rewrite Hsrc in Hex, Hin. split; [|done].
  unfold path_resolve in Hsrc.
  destruct (resolve fs _) as [q|] eqn:Hres; [by rewrite Hsrc|].
  unfold path_exists, stat in Hex. rewrite <- Hsrc, Hres in Hex. discriminate.
Qed.

Lemma accepted_nonroot : source = path_parent source ++ [path_name source].
Proof.
  destruct accepted_inv as (_ & _ & Hin).
  destruct source as [|c q _] using rev_ind.
  - vm_compute in Hin. intuition discriminate.
  - unfold path_parent, path_name. by rewrite removelast_last, last_last.
Qed.

Lemma accepted_walk :
  plain_path source /\ real_dir fs (path_parent source)
  /\ exists n, fs !! source = Some n /\ forall t, n <> Link t.
Proof.
  destruct accepted_inv as (Hres & Hex & _).
  destruct (walk_result fs true MAXSYMLINKS (abspath (cwd E) (a_file args))
              [] source (real_dir_nil _))
    as (Hplain & Hreal & Hnot); [constructor | exact Hres |].
  split; [done|]. split; [done|].
  unfold path_exists, stat in Hex.
  rewrite (resolve_idem _ _ _ Hres) in Hex.
  rewrite accepted_nonroot, node_at_snoc in Hex, Hnot.
  rewrite <- accepted_nonroot in Hex, Hnot.
  destruct (fs !! source) as [n|] eqn:Hn; [|discriminate].
  exists n. split; [done|]. intros t ->. by apply (Hnot eq_refl t).
Qed.

End Accepted.

(** X5. The name of an accepted source file is its stem followed by its
    suffix; the suffix is one of the four supported ones, and the stem,
    which becomes the entry of the table of contents, is not empty. *)
Theorem accepted_name_splits E args fs source :
  validate E args fs = inr source ->
  path_name source = path_stem source +:+ path_suffix source
  /\ In (path_suffix source) [".md"; ".ipynb"; ".rst"; ".tex"]
  /\ path_stem source <> "".
Proof.
  intros Hval. destruct (accepted_inv _ _ _ _ Hval) as (_ & _ & Hin).
  split; [symmetry; apply name_stem_suffix|].
  split; [done|].
  apply name_stem_nonempty. unfold path_suffix in Hin. intros Heq.
  rewrite Heq in Hin. simpl in Hin. intuition discriminate.
Qed.


Lemma resolve_real_dir fs d :
  plain_path d -> real_dir fs d -> resolve fs d = Some d.
Proof.
  intros Hplain Hreal. unfold resolve.
  rewrite <- (app_nil_r d) at 1.
  rewrite (walk_real_dir fs true MAXSYMLINKS d [] []) by done.
  apply walk_nil.
Qed.

(** X7. The source file itself is staged exactly when its name does not
    start with a dot: after the staging loop, the workspace has under
    the name of the source file a symbolic link to it; but for a source
    file with a leading dot in its name, which validation accepts like
    any other, the workspace has no entry of that name. *)
Theorem source_staged_unless_hidden E args w0 source tmpdir w1 w2 :
  is_tree (w_fs w0) = true ->
  validate E args (w_fs w0) = inr source ->
  mkdtemp E w0 = (Ok tmpdir, w1) ->
  stage_links E (path_parent source) tmpdir w1 = (Ok tt, w2) ->
  lstat (w_fs w2) (tmpdir ++ [path_name source])
  = if String.prefix "." (path_name source) then None
    else Some (Link source).
Proof.
  intros Htree Hval Hmk Hrun.
  apply mkdtemp_inv in Hmk as (nm & q & _ & Hres0 & Hfree & Hw1).
  destruct (stage_links_spec E w0 w1 tmpdir q Htree Hres0 Hfree Hw1
              _ _ _ Hrun) as (S1 & _ & S3 & S4 & _).
  destruct (accepted_walk _ _ _ _ Hval) as (Hplain & Hreal & n & Hn & _).
  pose proof (accepted_nonroot _ _ _ _ Hval) as Hsplit.
  set (source_dir := path_parent source) in *.
  set (name := path_name source) in *.
  assert (Hname : is_plain name = true).
  { rewrite Hsplit in Hplain. apply Forall_app in Hplain as [_ Hc].
    by apply Forall_cons in Hc as [Hc _]. }
  rewrite (lstat_ws (w_fs w0) tmpdir q) by done.
  destruct (String.prefix "." name) eqn:Hhid.
  - destruct (decide (w_fs w2 !! (q ++ [name]) = w_fs w1 !! (q ++ [name])))
      as [->|Hne]; [by apply (fresh_empty w0 w1 tmpdir q)|].
    destruct (S3 _ Hne) as (items & n' & _ & _ & Hvis & Heq & _).
    apply app_inv_head in Heq as [= <-]. congruence.
  - destruct (S4 eq_refl) as (items & Hls & Hlinks).
    rewrite Hsplit. apply Hlinks; [|done].
    assert (Hreal1 : real_dir (w_fs w1) source_dir).
    { intros p Hp Hpre. rewrite Hw1. simpl.
      destruct (decide (p = q)) as [->|Hpq];
        [apply lookup_insert_eq | rewrite lookup_insert_ne by done; auto]. }
    unfold listdir in Hls. destruct (faulty E _); [discriminate|].
    rewrite resolve_real_dir in Hls; [|
      rewrite Hsplit in Hplain; by apply Forall_app in Hplain as [? _] | done].
    rewrite (real_dir_node _ _ Hreal1) in Hls. injection Hls as <-.
    apply elem_of_children. rewrite <- Hsplit, Hw1. simpl.
    destruct (decide (source = q)) as [->|Hsq];
      [by rewrite lookup_insert_eq | by rewrite lookup_insert_ne, Hn].
Qed.

Lemma accepted_name_splits_witness :
  path_name ["proj"; "notes.md"]
  = path_stem ["proj"; "notes.md"] +:+ path_suffix ["proj"; "notes.md"]
  /\ In (path_suffix ["proj"; "notes.md"]) [".md"; ".ipynb"; ".rst"; ".tex"]
  /\ path_stem ["proj"; "notes.md"] <> "".
Proof.
  apply (accepted_name_splits busy_env notes_args project_fs).
  vm_compute. reflexivity.
Defined.


Lemma source_staged_unless_hidden_witness :
  lstat (w_fs staged_w2) (sample_tmpdir ++ [path_name ["proj"; "notes.md"]])
  = if String.prefix "." (path_name ["proj"; "notes.md"]) then None
    else Some (Link ["proj"; "notes.md"]).
Proof.
  apply (source_staged_unless_hidden busy_env notes_args project_world
           ["proj"; "notes.md"] sample_tmpdir staged_w1 staged_w2).
  - vm_compute. reflexivity.
  - vm_compute. reflexivity.
  - unfold staged_w1. apply run_eq. vm_compute. reflexivity.
  - unfold staged_w2. apply run_eq. vm_compute. reflexivity.
Defined.

(** ** Polling for the port *)

Section PollingFacts.

Import Polling.

Variables (net : Net) (port : Z).

Lemma poll_loop_unfold fuel deadline st :
  poll_loop fuel net port deadline st =
  if now st <? deadline then
    match fuel with
    | O => None
    | S fuel' =>
        let r := connect_ex net port (now st) in
        let t1 := now st + Z.of_N r.2 in
        let tr1 := trace st ++ round port (now st) r.1 in
        if r.1 then Some (true, mkState t1 tr1)
        else
          let t2 := t1 + 250 + Z.of_N (oversleep net (t1 + 250)) in
          poll_loop fuel' net port deadline
                    (mkState t2 (tr1 ++ [Sleep 250]))
    end
  else Some (false, st).
Proof. by destruct fuel. Qed.

Lemma open_sockets_app tr1 : forall n tr2,
  open_sockets n (tr1 ++ tr2)
  = match open_sockets n tr1 with
    | Some m => open_sockets m tr2
    | None => None
    end.
Proof.
  induction tr1 as [|s tr1 IH]; intros n tr2; [done|].
  destruct s; simpl; try apply IH. destruct n; [done | apply IH].
Qed.

Lemma connects_app tr1 tr2 :
  connects (tr1 ++ tr2) = connects tr1 ++ connects tr2.
Proof. unfold connects. apply omap_app. Qed.

Lemma connects_round p t ok tr :
  connects (round p t ok ++ [Sleep 250] ++ tr) = (t, ok) :: connects tr.
Proof. reflexivity. Qed.

(** What the loop has done when it ends. *)
Lemma poll_loop_spec deadline fuel : forall st up st',
  poll_loop fuel net port deadline st = Some (up, st') ->
  exists tr,
    trace st' = trace st ++ tr
    /\ now st <= now st'
    /\ (length (connects tr) <= fuel)%nat
    /\ (forall n, open_sockets n tr = Some n)
    /\ Forall (fun c => now st <= c.1 < deadline) (connects tr)
    /\ (if up
        then exists cs t, connects tr = cs ++ [(t, true)]
                          /\ Forall (fun c => c.2 = false) cs
        else Forall (fun c => c.2 = false) (connects tr)
             /\ deadline <= now st').
Proof.
  induction fuel as [|fuel IH]; intros st up st' Hrun;
    rewrite poll_loop_unfold in Hrun;
    destruct (now st <? deadline) eqn:Hlt.
  - discriminate.
  - injection Hrun as <- <-. apply Z.ltb_ge in Hlt.
    exists []. rewrite app_nil_r. split; [done|]. split; [lia|].
    split; [simpl; lia|]. split; [done|]. split; [constructor|].
    split; [constructor | lia].
  - cbv zeta in Hrun.
    destruct (connect_ex net port (now st)) as [ok d] eqn:Hc.
    cbn [fst snd] in Hrun. destruct ok.
    + injection Hrun as <- <-. exists (round port (now st) true).
      cbn [trace now]. split; [done|]. split; [lia|].
      split; [simpl; lia|]. split; [done|].
      split; [repeat constructor; simpl; lia|].
      exists [], (now st). by split.
    + apply IH in Hrun
        as (tr & Htr & Hnow & Hlen & Hopen & Hin & Hup).
      cbn [trace now] in *.
      exists (round port (now st) false ++ [Sleep 250] ++ tr).
      split; [by rewrite Htr, <- !app_assoc|]. split; [lia|].
      rewrite connects_round.
      split; [simpl; lia|].
      split; [intros n; simpl; apply Hopen|].
      split.
      { constructor; [simpl; lia|].
        eapply Forall_impl; [exact Hin|]. simpl. intros c Hc'. lia. }
      destruct up.
      * destruct Hup as (cs & t & Hcs & Hfail).
        exists ((now st, false) :: cs), t.
        rewrite Hcs. split; [done | by constructor].
      * destruct Hup as [Hfail Hdead]. split; [|done]. by constructor.
  - injection Hrun as <- <-. apply Z.ltb_ge in Hlt.
    exists []. rewrite app_nil_r. split; [done|]. split; [lia|].
    split; [simpl; lia|]. split; [done|]. split; [constructor|].
    split; [constructor | lia].
Qed.

(** With as many passes as the timeout has room for, the loop ends. *)
Lemma poll_loop_ends deadline fuel : forall st,
  (Z.to_nat ((deadline - now st + 249) / 250) <= fuel)%nat ->
  is_Some (poll_loop fuel net port deadline st).
Proof.
  induction fuel as [|fuel IH]; intros st Hfuel;
    rewrite poll_loop_unfold; destruct (now st <? deadline) eqn:Hlt;
    try done.
  - exfalso. apply Z.ltb_lt in Hlt.
    assert (1 <= (deadline - now st + 249) / 250)
      by (apply Z.div_le_lower_bound; lia).
    lia.
  - cbv zeta. destruct (connect_ex net port (now st)) as [ok d].
    cbn [fst snd]. destruct ok; [done|]. apply IH. cbn [now].
    apply Z.ltb_lt in Hlt.
    assert ((deadline - (now st + Z.of_N d + 250
                         + Z.of_N (oversleep net (now st + Z.of_N d + 250)))
             + 249) / 250
            <= (deadline - now st + 249) / 250 - 1).
    { replace ((deadline - now st + 249) / 250 - 1)
        with ((deadline - now st + 249 + (-1) * 250) / 250)
        by (rewrite Z.div_add by lia; lia).
      apply Z.div_le_mono; lia. }
    assert (1 <= (deadline - now st + 249) / 250)
      by (apply Z.div_le_lower_bound; lia).
    lia.
Qed.

Lemma poll_loop_more deadline fuel : forall st r fuel',
  poll_loop fuel net port deadline st = Some r ->
  (fuel <= fuel')%nat ->
  poll_loop fuel' net port deadline st = Some r.
Proof.
  induction fuel as [|fuel IH]; intros st r fuel' Hrun Hle;
    rewrite poll_loop_unfold in Hrun; rewrite poll_loop_unfold;
    destruct (now st <? deadline); try done.
  destruct fuel' as [|fuel']; [lia|]. cbv zeta in *.
  destruct (connect_ex net port (now st)) as [ok d]. cbn [fst snd] in *.
  destruct ok; [done|]. apply IH; [done | lia].
Qed.

End PollingFacts.

(** X8. [wait_for_port] always returns, after at most one connection
    attempt for every quarter of a second of its timeout (120 for the
    default of 30 seconds): the loop ends within that many passes, more
    passes change nothing, and the clock never runs backwards.  With a
    timeout that is zero or negative it returns [False] at once, without
    opening a socket. *)
Theorem wait_for_port_ends net port timeout fuel st :
  (Polling.passes timeout <= fuel)%nat ->
  exists up tr st',
    Polling.wait_for_port fuel net port timeout st = Some (up, st')
    /\ Polling.wait_for_port (Polling.passes timeout) net port timeout st
       = Some (up, st')
    /\ Polling.trace st' = Polling.trace st ++ tr
    /\ (length (Polling.connects tr) <= Polling.passes timeout)%nat
    /\ Polling.now st <= Polling.now st'
    /\ (timeout <= 0 -> up = false /\ st' = st).
Proof.
  intros Hfuel. unfold Polling.wait_for_port. cbv zeta.
  destruct (poll_loop_ends net port (Polling.now st + timeout)
              (Polling.passes timeout) st) as [[up st'] Hrun].
  { unfold Polling.passes.
    replace (Polling.now st + timeout - Polling.now st + 249)
      with (timeout + 249) by lia.
    done. }
  destruct (poll_loop_spec _ _ _ _ _ _ _ Hrun)
    as (tr & Htr & Hnow & Hlen & _).
  exists up, tr, st'.
  split; [by apply (poll_loop_more _ _ _ _ _ _ _ Hrun)|].
  do 4 (split; [done|]).
  intros Hneg. rewrite poll_loop_unfold in Hrun.
  assert ((Polling.now st <? Polling.now st + timeout) = false) as Hlt
    by (apply Z.ltb_ge; lia).
  rewrite Hlt in Hrun. by injection Hrun as <- <-.
Qed.

(** X9. The verdict of [wait_for_port]: it returns [True] exactly when a
    connection attempt succeeded, and that attempt is the last one it
    made, all the earlier ones having failed; it returns [False] only
    once the deadline has passed.  No attempt is started at or after
    the deadline, and every socket it opened is closed again by the time
    it returns. *)
Theorem wait_for_port_verdict net port timeout fuel st up st' :
  Polling.wait_for_port fuel net port timeout st = Some (up, st') ->
  exists tr,
    Polling.trace st' = Polling.trace st ++ tr
    /\ (forall n, Polling.open_sockets n tr = Some n)
    /\ Forall (fun c => Polling.now st <= c.1 < Polling.now st + timeout)
              (Polling.connects tr)
    /\ (up = true ->
        exists cs t, Polling.connects tr = cs ++ [(t, true)]
                     /\ Forall (fun c => c.2 = false) cs)
    /\ (up = false ->
        Forall (fun c => c.2 = false) (Polling.connects tr)
        /\ Polling.now st + timeout <= Polling.now st').
Proof.
  unfold Polling.wait_for_port. cbv zeta. intros Hrun.
  destruct (poll_loop_spec _ _ _ _ _ _ _ Hrun)
    as (tr & Htr & _ & _ & Hopen & Hin & Hup).
  exists tr. do 3 (split; [done|]).
  split; intros ->; exact Hup.
Qed.

Lemma wait_for_port_ends_witness :
  exists up tr st',
    Polling.wait_for_port 200 Polling.slow_start 3000 Polling.DEFAULT_TIMEOUT
      (Polling.mkState 0 []) = Some (up, st')
    /\ Polling.wait_for_port (Polling.passes Polling.DEFAULT_TIMEOUT)
         Polling.slow_start 3000 Polling.DEFAULT_TIMEOUT
         (Polling.mkState 0 []) = Some (up, st')
    /\ Polling.trace st' = Polling.trace (Polling.mkState 0 []) ++ tr
    /\ (length (Polling.connects tr)
        <= Polling.passes Polling.DEFAULT_TIMEOUT)%nat
    /\ Polling.now (Polling.mkState 0 []) <= Polling.now st'
    /\ (Polling.DEFAULT_TIMEOUT <= 0 ->
        up = false /\ st' = Polling.mkState 0 []).
Proof.
  apply (wait_for_port_ends Polling.slow_start 3000 Polling.DEFAULT_TIMEOUT
           200 (Polling.mkState 0 [])).
  vm_compute. lia.
Defined.

Lemma wait_for_port_verdict_witness :
  exists tr,
    Polling.trace Polling.slow_start_end
    = Polling.trace (Polling.mkState 0 []) ++ tr
    /\ (forall n, Polling.open_sockets n tr = Some n)
    /\ Forall (fun c => Polling.now (Polling.mkState 0 []) <= c.1
                        < Polling.now (Polling.mkState 0 []) + 30000)
              (Polling.connects tr)
    /\ (true = true ->
        exists cs t, Polling.connects tr = cs ++ [(t, true)]
                     /\ Forall (fun c => c.2 = false) cs)
    /\ (true = false ->
        Forall (fun c => c.2 = false) (Polling.connects tr)
        /\ Polling.now (Polling.mkState 0 []) + 30000
           <= Polling.now Polling.slow_start_end).
Proof.
  apply (wait_for_port_verdict Polling.slow_start 3000 30000 120
           (Polling.mkState 0 [])).
  vm_compute. reflexivity.
Defined.

(** ** What is started *)

Lemma emits_weaken {A} (P Q : event -> Prop) (m : M A) :
  (forall e, P e -> Q e) -> emits P m -> emits Q m.
Proof.
  intros HPQ Hm w r w' Hrun. destruct (Hm _ _ _ Hrun) as (evs & Hlog & Hall).
  exists evs. split; [done|]. by eapply Forall_impl.
Qed.

Lemma emits_silent {A} P (m : M A) :
  (forall w, w_log (m w).2 = w_log w) -> emits P m.
Proof.
  intros H w r w' Hrun. exists []. rewrite app_nil_r.
  split; [|done]. specialize (H w). by rewrite Hrun in H.
Qed.

(** The continuation may rely on the value being one that the first
    part has returned. *)
Lemma emits_bind_ok {A B} P (m : M A) (f : A -> M B) :
  emits P m ->
  (forall a, (exists w w1, m w = (Ok a, w1)) -> emits P (f a)) ->
  emits P (m ≫= f).
Proof.
  intros Hm Hf w r w' Hrun. rewrite bind_unfold in Hrun.
  destruct (m w) as [r1 w1] eqn:Hmw.
  destruct (Hm _ _ _ Hmw) as (evs1 & Hlog1 & Hb1).
  destruct r1 as [a|e|c|].
  2-4: injection Hrun as <- <-; by exists evs1.
  destruct (Hf a (ex_intro _ w (ex_intro _ w1 Hmw)) _ _ _ Hrun)
    as (evs2 & Hlog2 & Hb2).
  exists (evs1 ++ evs2). rewrite Hlog2, Hlog1, app_assoc.
  split; [done | by apply Forall_app].
Qed.

Lemma emits_bind {A B} P (m : M A) (f : A -> M B) :
  emits P m -> (forall a, emits P (f a)) -> emits P (m ≫= f).
Proof. intros Hm Hf. apply emits_bind_ok; auto. Qed.

Lemma emits_ret {A} P (a : A) : emits P (mret a).
Proof. by apply emits_silent. Qed.

Lemma emits_raise {A} P e : emits P (@raise A e).
Proof. by apply emits_silent. Qed.

Lemma emits_sys_exit {A} P c : emits P (@sys_exit A c).
Proof. by apply emits_silent. Qed.

Lemma emits_get_fs P : emits P get_fs.
Proof. by apply emits_silent. Qed.

Lemma emits_fs_call P op : emits P (fs_call op).
Proof.
  apply emits_silent. intros w. unfold fs_call. by destruct (op (w_fs w)).
Qed.

Lemma emits_blocked {A} P : emits P (fun w : World => (@Blocked A, w)).
Proof. by apply emits_silent. Qed.

Lemma emits_tell P (f : World -> World) :
  (forall w, w_log (f w) = w_log w) -> emits P (tell f).
Proof. intros H. by apply emits_silent. Qed.

Lemma emits_record (P : event -> Prop) e : P e -> emits P (tell (record e)).
Proof.
  intros He w r w' [= <- <-]. exists [e]. split; [done | by constructor].
Qed.

Lemma emits_when P b m : emits P m -> emits P (when b m).
Proof. intros Hm. destruct b; [done | apply emits_ret]. Qed.

Create HintDb emits discriminated.
#[export] Hint Constants Opaque : emits.
#[export] Hint Resolve emits_ret emits_raise emits_sys_exit emits_get_fs
  emits_fs_call emits_when emits_blocked : emits.

Ltac emits_steps :=
  repeat match goal with
    | |- emits _ (_ ≫= _) => apply emits_bind; [|intros ?]
    | |- emits _ (when _ _) => apply emits_when
    | |- emits _ (tell (record _)) => apply emits_record; done
    | |- emits _ (tell _) => apply emits_tell; done
    | |- emits _ (if ?b then _ else _) => destruct b
    | |- emits _ (match ?x with _ => _ end) => destruct x
    | |- emits _ _ => solve [eauto with emits]
    end.

Section Launching.

Variable E : Env.

Lemma emits_scan_ports ports : emits no_launch (scan_ports E ports).
Proof.
  induction ports as [|port rest IH]; [apply emits_ret|].
  intros w r w' Hrun. rewrite scan_ports_cons, with_socket_bind in Hrun.
  assert (Hat : forall b, Forall no_launch (attempt port b))
    by (intros b; repeat constructor).
  destruct ((port <? 0) || (65535 <? port)).
  { injection Hrun as <- <-. by exists (attempt port false). }
  destruct (bind_ok E port).
  { injection Hrun as <- <-. by exists (attempt port true). }
  simpl in Hrun. destruct (IH _ _ _ Hrun) as (evs & Hlog & Hb).
  exists (attempt port false ++ evs). rewrite Hlog. simpl.
  rewrite <- app_assoc. split; [done|]. by repeat (constructor; [done|]).
Qed.

Lemma emits_find_free_port start end_ :
  emits no_launch (find_free_port E start end_).
Proof.
  unfold find_free_port. apply emits_bind; [apply emits_scan_ports|].
  intros found. emits_steps.
Qed.

Lemma emits_find_myst : emits no_launch (find_myst E).
Proof. unfold find_myst. emits_steps. Qed.

Lemma emits_link_items source_dir tmpdir items :
  emits no_launch (link_items E source_dir tmpdir items).
Proof.
  induction items as [|name rest IH]; simpl; [apply emits_ret|].
  emits_steps.
Qed.

Lemma emits_stage_links source_dir tmpdir :
  emits no_launch (stage_links E source_dir tmpdir).
Proof.
  unfold stage_links. apply emits_bind; [apply emits_get_fs|]. intros fs.
  destruct (listdir _ _ _); [apply emits_raise | apply emits_link_items].
Qed.

Lemma emits_write_descriptor tmpdir theme slug :
  emits no_launch (write_descriptor E tmpdir theme slug).
Proof. unfold write_descriptor. emits_steps. Qed.

Lemma emits_copy_output tmpdir args :
  emits no_launch (copy_output E tmpdir args).
Proof.
  unfold copy_output. emits_steps.
  apply emits_silent. intros w. by destruct (copytree _ _ _ _) as [? []].
Qed.

Lemma emits_child_runs : emits no_launch (child_runs E).
Proof. unfold child_runs. emits_steps. Qed.

Lemma teardown_no_launch tmpdir w :
  exists evs, w_log (teardown E tmpdir w) = w_log w ++ evs
              /\ Forall no_launch evs.
Proof.
  unfold teardown, remove_workspace.
  destruct (stop_child_cases E w)
    as [[-> _]|[(_ & _ & _ & ->)|(_ & _ & _ & ->)]];
    eexists; (split; [simpl; try rewrite <- app_assoc; reflexivity|]);
    by repeat constructor.
Qed.

Lemma emits_on_signal {A} tmpdir : emits no_launch (@on_signal E A tmpdir).
Proof.
  intros w r w' Hrun. rewrite on_signal_eq in Hrun. injection Hrun as <- <-.
  destruct (teardown_no_launch tmpdir (record EvSignal w))
    as (evs & Hlog & Hall).
  exists (EvSignal :: evs). rewrite Hlog. simpl. rewrite <- app_assoc.
  split; [done | by constructor].
Qed.

Lemma emits_checkpoint tmpdir pt : emits no_launch (checkpoint E tmpdir pt).
Proof.
  unfold checkpoint. destruct (signal_at E pt);
    [apply emits_on_signal | apply emits_ret].
Qed.

Lemma emits_cleanup tmpdir : emits no_launch (cleanup E tmpdir).
Proof.
  intros w r w' Hrun. rewrite cleanup_eq in Hrun. injection Hrun as <- <-.
  apply teardown_no_launch.
Qed.

End Launching.

#[export] Hint Resolve emits_find_free_port emits_find_myst emits_stage_links
  emits_write_descriptor emits_copy_output emits_child_runs emits_checkpoint
  emits_cleanup : emits.

Section LaunchFacts.

Variables (E : Env) (args : Args) (tmpdir : path).

Lemma no_launch_launch e : no_launch e -> launch E args tmpdir e.
Proof. by destruct e. Qed.

Lemma find_myst_ok myst_cmd :
  (exists w w1, find_myst E w = (Ok myst_cmd, w1)) ->
  forall w, find_myst E w = (Ok myst_cmd, w).
Proof.
  intros (w0 & w1 & Hrun) w. unfold find_myst in *.
  destruct (truthy (which E "myst")); [by injection Hrun as <- _|].
  destruct (truthy (which E "npx")); [by injection Hrun as <- _|].
  discriminate.
Qed.

Lemma find_free_port_ok port :
  (exists w w1, find_free_port E (a_port args) 0 w = (Ok port, w1)) ->
  chosen_port E args port.
Proof.
  intros (w & w1 & Hrun). unfold find_free_port in Hrun.
  rewrite bind_unfold in Hrun.
  destruct (scan_ports E _ w) as [[[p0|]|e|c|] w2] eqn:Hscan;
    try discriminate.
  injection Hrun as -> ->.
  apply scan_ports_found in Hscan
    as (pre & post & Hsplit & Hpre & Hvalid & Hok & _).
  apply py_range_split in Hsplit as [-> Hbounds].
  unfold effective_end in Hbounds. simpl in Hbounds.
  split; [lia|]. do 2 (split; [done|]).
  intros q Hq. rewrite Forall_forall in Hpre. apply Hpre.
  apply elem_of_py_range. lia.
Qed.

#[local] Abbreviation P := (launch E args tmpdir).

Lemma emits_subprocess_run cmd :
  P (EvRun cmd tmpdir) -> emits P (subprocess_run E tmpdir cmd).
Proof.
  intros Hcmd.
  assert (Hsig : forall fs' (w : World) (r : res Z) w',
    (let w1 := record (EvRun cmd tmpdir) (set_fs fs' w) in
     let r := @on_signal E Z tmpdir w1 in (r.1, record EvRunKilled r.2))
    = (r, w') ->
    exists evs, w_log w' = w_log w ++ evs /\ Forall P evs).
  { intros fs' w r w' Hrun.
    cbv zeta in Hrun. rewrite on_signal_eq in Hrun. cbn [fst snd] in Hrun.
    injection Hrun as <- <-.
    set (w1 := record (EvRun cmd tmpdir) (set_fs fs' w)).
    destruct (teardown_no_launch E tmpdir (record EvSignal w1))
      as (evs & Hlog & Hall).
    exists ([EvRun cmd tmpdir; EvSignal] ++ evs ++ [EvRunKilled]).
    split.
    { change (w_log (record EvRunKilled
                       (teardown E tmpdir (record EvSignal w1))))
        with (w_log (teardown E tmpdir (record EvSignal w1))
              ++ [EvRunKilled]).
      rewrite Hlog. unfold w1. simpl. by rewrite <- !app_assoc. }
    constructor; [done|]. constructor; [done|].
    apply Forall_app. split; [|by repeat constructor].
    eapply Forall_impl; [exact Hall | apply no_launch_launch]. }
  intros w r w' Hrun. unfold subprocess_run in Hrun.
  destruct (run_build E cmd tmpdir (w_fs w)) as [fs' rc|fs'|e].
  - destruct (signal_at E PBuild); [by eapply Hsig|].
    injection Hrun as <- <-. exists [EvRun cmd tmpdir].
    split; [done | by constructor].
  - destruct (signal_at E PBuild); [by eapply Hsig|].
    injection Hrun as <- <-. exists [EvRun cmd tmpdir].
    split; [done | by constructor].
  - injection Hrun as <- <-. exists []. by rewrite app_nil_r.
Qed.

Ltac plain_steps :=
  eapply emits_weaken; [apply no_launch_launch|]; emits_steps.

Lemma emits_build source myst_cmd :
  a_build args = true ->
  (forall w, find_myst E w = (Ok myst_cmd, w)) ->
  emits P (build E tmpdir source args myst_cmd).
Proof.
  intros Hb Hmyst. unfold build.
  apply emits_bind; [plain_steps|]. intros _.
  apply emits_bind.
  - apply emits_subprocess_run. simpl. do 2 (split; [done|]).
    exists myst_cmd. by split.
  - intros rc. apply emits_bind; [plain_steps | intros ?; plain_steps].
Qed.

Lemma emits_serve source myst_cmd :
  a_build args = false ->
  (forall w, find_myst E w = (Ok myst_cmd, w)) ->
  emits P (serve E tmpdir source args myst_cmd).
Proof.
  intros Hb Hmyst. unfold serve.
  apply emits_bind_ok; [plain_steps|]. intros port Hport.
  apply find_free_port_ok in Hport.
  do 3 (apply emits_bind; [plain_steps | intros ?]).
  apply emits_bind; [|intros ?].
  { unfold popen. destruct (popen_error E); [apply emits_raise|].
    intros w r w' [= <- <-]. eexists. split; [reflexivity|].
    constructor; [|done]. simpl. do 3 (split; [done|]).
    by exists myst_cmd, port. }
  apply emits_bind; [|intros ?].
  - destruct (a_no_open args) eqn:Hopen; [apply emits_ret|].
    cbn [negb when]. unfold wait_for_port.
    apply emits_bind_ok; [plain_steps|]. intros up Hup.
    assert (Hpu : up = port_up E).
    { destruct Hup as (w & w1 & Hrun). rewrite !bind_unfold in Hrun.
      unfold child_runs in Hrun. cbn [tell] in Hrun.
      rewrite bind_unfold in Hrun.
      match type of Hrun with
      | context [checkpoint E tmpdir PWaitPort ?x] =>
          destruct (checkpoint E tmpdir PWaitPort x) as [[[]|?|?|] ?]
      end; try discriminate.
      by injection Hrun as -> _. }
    destruct up; [|apply emits_ret]. cbn [when].
    apply emits_record. simpl. do 3 (split; [done|]). by exists port.
  - unfold proc_wait. plain_steps.
Qed.

Lemma emits_supervise source :
  emits P (supervise E tmpdir source args).
Proof.
  unfold supervise. do 4 (apply emits_bind; [plain_steps | intros ?]).
  apply emits_bind_ok; [plain_steps|]. intros myst_cmd Hmyst.
  pose proof (find_myst_ok _ Hmyst) as Hcmd.
  destruct (a_build args) eqn:Hb; [by apply emits_build | by apply emits_serve].
Qed.

Lemma emits_try_except_finally Q body handler final :
  emits Q body -> (forall e, emits Q (handler e)) -> emits Q final ->
  emits Q (try_except_finally body handler final).
Proof.
  intros Hbody Hhandler Hfinal w r w' Hrun. unfold try_except_finally in Hrun.
  destruct (body w) as [r1 w1] eqn:Hb.
  destruct (Hbody _ _ _ Hb) as (evs1 & Hlog1 & Hall1).
  assert (Hrest : forall r2 w2 evs2,
    w_log w2 = w_log w1 ++ evs2 -> Forall Q evs2 ->
    match final w2 with
    | (Ok _, w3) => (r2, w3)
    | (r3, w3) => (r3, w3)
    end = (r, w') ->
    exists evs, w_log w' = w_log w ++ evs /\ Forall Q evs).
  { intros r2 w2 evs2 Hlog2 Hall2 Hfin.
    destruct (final w2) as [r3 w3] eqn:Hf.
    destruct (Hfinal _ _ _ Hf) as (evs3 & Hlog3 & Hall3).
    exists (evs1 ++ evs2 ++ evs3).
    assert (w' = w3) as -> by (destruct r3; by injection Hfin).
    rewrite Hlog3, Hlog2, Hlog1, <- !app_assoc. split; [done|].
    by repeat (apply Forall_app; split). }
  destruct r1 as [[]|e|c|].
  - apply (Hrest (Ok tt) w1 []); [by rewrite app_nil_r | done | done].
  - destruct (handler e w1) as [r2 w2] eqn:Hh.
    destruct (Hhandler _ _ _ _ Hh) as (evs2 & Hlog2 & Hall2).
    by apply (Hrest r2 w2 evs2).
  - apply (Hrest (SysExit c) w1 []); [by rewrite app_nil_r | done | done].
  - injection Hrun as <- <-. by exists evs1.
Qed.

Lemma emits_run_in_workspace source :
  emits P (run_in_workspace E tmpdir source args).
Proof.
  unfold run_in_workspace. apply emits_bind; [plain_steps|]. intros _.
  apply emits_try_except_finally.
  - apply emits_supervise.
  - intros e. plain_steps.
  - plain_steps.
Qed.

(** Everything that a run starts, it starts as [launch] says. *)
Lemma main_launches w0 w1 r w' :
  mkdtemp E w0 = (Ok tmpdir, w1) ->
  main E args w0 = (r, w') ->
  exists evs, w_log w' = w_log w0 ++ evs /\ Forall P evs.
Proof.
  intros Hmk. unfold main. rewrite bind_unfold. unfold get_fs.
  destruct (validate E args (w_fs w0)) as [message|source].
  { intros [= <- <-]. exists []. by rewrite app_nil_r. }
  rewrite bind_unfold, Hmk. intros Hrun.
  apply emits_run_in_workspace in Hrun as (evs & Hlog & Hall).
  exists evs. split; [|done].
  apply mkdtemp_inv in Hmk as (? & ? & _ & _ & _ & ->). done.
Qed.

End LaunchFacts.

(** X10. Serve mode starts the renderer in the workspace, with [HOST]
    set to [0.0.0.0], as [<renderer> start --port <port> --keep-host],
    followed by [--execute] if that was asked for; [<renderer>] is
    the command that [find_myst] returns, and [<port>] is the first
    port, going up from the port of the command line, that could be
    bound.  Build mode never starts a server. *)
Theorem server_launch E args w0 tmpdir w1 r w' :
  mkdtemp E w0 = (Ok tmpdir, w1) ->
  main E args w0 = (r, w') ->
  exists evs,
    w_log w' = w_log w0 ++ evs
    /\ forall cmd cwd host, EvPopen cmd cwd host ∈ evs ->
         a_build args = false /\ cwd = tmpdir /\ host = "0.0.0.0"
         /\ exists myst_cmd port,
              (forall w, find_myst E w = (Ok myst_cmd, w))
              /\ chosen_port E args port
              /\ cmd = myst_cmd
                       ++ ["start"; "--port"; pretty port; "--keep-host"]
                       ++ (if a_execute args then ["--execute"] else []).
Proof.
  intros Hmk Hrun.
  destruct (main_launches _ _ _ _ _ _ _ Hmk Hrun) as (evs & Hlog & Hall).
  exists evs. split; [done|]. intros cmd cwd host Hin.
  rewrite Forall_forall in Hall. exact (Hall _ Hin).
Qed.

(** X11. Build mode runs the renderer in the workspace as
    [<renderer> build --html], followed by [--execute] if that was asked
    for, [<renderer>] being the command that [find_myst] returns.
    Serve mode never runs a build. *)
Theorem build_launch E args w0 tmpdir w1 r w' :
  mkdtemp E w0 = (Ok tmpdir, w1) ->
  main E args w0 = (r, w') ->
  exists evs,
    w_log w' = w_log w0 ++ evs
    /\ forall cmd cwd, EvRun cmd cwd ∈ evs ->
         a_build args = true /\ cwd = tmpdir
         /\ exists myst_cmd,
              (forall w, find_myst E w = (Ok myst_cmd, w))
              /\ cmd = myst_cmd ++ ["build"; "--html"]
                       ++ (if a_execute args then ["--execute"] else []).
Proof.
  intros Hmk Hrun.
  destruct (main_launches _ _ _ _ _ _ _ Hmk Hrun) as (evs & Hlog & Hall).
  exists evs. split; [done|]. intros cmd cwd Hin.
  rewrite Forall_forall in Hall. exact (Hall _ Hin).
Qed.

(** X12. The browser is opened only in serve mode, only without
    [--no-open], and only once the port has been found to accept
    connections; the address is [http://localhost:<port>] with the
    port that the renderer was started on. *)
Theorem browser_opened E args w0 tmpdir w1 r w' :
  mkdtemp E w0 = (Ok tmpdir, w1) ->
  main E args w0 = (r, w') ->
  exists evs,
    w_log w' = w_log w0 ++ evs
    /\ forall url, EvBrowser url ∈ evs ->
         a_build args = false /\ a_no_open args = false
         /\ port_up E = true
         /\ exists port, chosen_port E args port
                         /\ url = "http://localhost:" +:+ pretty port.
Proof.
  intros Hmk Hrun.
  destruct (main_launches _ _ _ _ _ _ _ Hmk Hrun) as (evs & Hlog & Hall).
  exists evs. split; [done|]. intros url Hin.
  rewrite Forall_forall in Hall. exact (Hall _ Hin).
Qed.

(** The port that serve mode settles on is determined by the machine. *)
Lemma chosen_port_unique E args p1 p2 :
  chosen_port E args p1 -> chosen_port E args p2 -> p1 = p2.
Proof.
  intros (Hr1 & _ & Hb1 & Hlow1) (Hr2 & _ & Hb2 & Hlow2).
  destruct (Z.lt_trichotomy p1 p2) as [Hlt|[Heq|Hgt]]; [|done|].
  - destruct (Hlow2 p1) as [_ Hf]; [lia | congruence].
  - destruct (Hlow1 p2) as [_ Hf]; [lia | congruence].
Qed.

Section NoRenderer.

Variables (E : Env) (args : Args).
Hypothesis Hmissing : renderer_missing E.

Lemma find_myst_missing w r w' :
  find_myst E w = (r, w') -> r = SysExit 1.
Proof.
  destruct Hmissing as [Hmyst Hnpx]. unfold find_myst.
  rewrite Hmyst, Hnpx. by intros [= <- _].
Qed.

Lemma emits_supervise_missing tmpdir source :
  emits no_launch (supervise E tmpdir source args).
Proof.
  unfold supervise. do 4 (apply emits_bind; [emits_steps | intros ?]).
  apply emits_bind_ok; [emits_steps|].
  intros myst_cmd (w & w1 & Hrun). by apply find_myst_missing in Hrun.
Qed.

End NoRenderer.

(** X13. When neither [myst] nor [npx] is on the search path, a run
    starts nothing: no build, no server, no browser. *)
Theorem nothing_started_without_renderer E args w0 r w' :
  renderer_missing E ->
  main E args w0 = (r, w') ->
  exists evs, w_log w' = w_log w0 ++ evs /\ Forall no_launch evs.
Proof.
  intros Hmissing. unfold main. rewrite bind_unfold. unfold get_fs.
  destruct (validate E args (w_fs w0)) as [message|source].
  { intros [= <- <-]. exists []. by rewrite app_nil_r. }
  rewrite bind_unfold.
  destruct (mkdtemp E w0) as [[tmpdir|e|c|] w1] eqn:Hmk.
  2-4: unfold mkdtemp in Hmk;
    destruct (mkdtemp_from E (tmp_names E) (w_fs w0)) as [?|[? ?]];
    try discriminate; injection Hmk as <- <-; intros [= <- <-];
    exists []; by rewrite app_nil_r.
  intros Hrun.
  assert (Hem : emits no_launch (run_in_workspace E tmpdir source args)).
  { unfold run_in_workspace. apply emits_bind; [emits_steps|]. intros _.
    apply emits_try_except_finally.
    - by apply emits_supervise_missing.
    - intros e. emits_steps.
    - emits_steps. }
  apply Hem in Hrun as (evs & Hlog & Hall).
  exists evs. split; [|done].
  apply mkdtemp_inv in Hmk as (? & ? & _ & _ & _ & ->). done.
Qed.

Lemma server_launch_witness :
  exists evs,
    w_log (main busy_env notes_args project_world).2
    = w_log project_world ++ evs
    /\ forall cmd cwd host, EvPopen cmd cwd host ∈ evs ->
         a_build notes_args = false /\ cwd = sample_tmpdir
         /\ host = "0.0.0.0"
         /\ exists myst_cmd port,
              (forall w, find_myst busy_env w = (Ok myst_cmd, w))
              /\ chosen_port busy_env notes_args port
              /\ cmd = myst_cmd
                       ++ ["start"; "--port"; pretty port; "--keep-host"]
                       ++ (if a_execute notes_args then ["--execute"]
                           else []).
Proof.
  apply (server_launch busy_env notes_args project_world sample_tmpdir
           staged_w1 (main busy_env notes_args project_world).1).
  - unfold staged_w1. apply run_eq. vm_compute. reflexivity.
  - by destruct (main busy_env notes_args project_world).
Defined.

(** ** A failure of staging *)

Lemma fs_only_bind {A B} (m : M A) (f : A -> M B) :
  fs_only m -> (forall a, fs_only (f a)) -> fs_only (m ≫= f).
Proof.
  intros Hm Hf w r w' Hrun. rewrite bind_unfold in Hrun.
  destruct (m w) as [r1 w1] eqn:Hmw. pose proof (Hm _ _ _ Hmw) as H1.
  destruct r1 as [a|e|c|]; try (injection Hrun as <- <-; exact H1).
  pose proof (Hf a _ _ _ Hrun) as H2. rewrite H2, H1. done.
Qed.

Lemma fs_only_same {A} (m : M A) :
  (forall w, (m w).2 = w) -> fs_only m.
Proof.
  intros H w r w' Hrun. specialize (H w). rewrite Hrun in H. simpl in H.
  subst w'. by rewrite set_fs_same.
Qed.

Lemma fs_only_fs_call op : fs_only (fs_call op).
Proof.
  intros w r w'. unfold fs_call. destruct (op (w_fs w)); intros [= <- <-];
    [by rewrite set_fs_same | done].
Qed.

Lemma fs_only_when b m : fs_only m -> fs_only (when b m).
Proof. intros Hm. destruct b; [done | by apply fs_only_same]. Qed.

Section FsOnly.

Variable E : Env.

Lemma fs_only_link_items source_dir tmpdir items :
  fs_only (link_items E source_dir tmpdir items).
Proof.
  induction items as [|name rest IH]; simpl; [by apply fs_only_same|].
  destruct (String.prefix "." name); [done|].
  apply fs_only_bind; [by apply fs_only_same|]. intros fs.
  apply fs_only_bind; [|done].
  apply fs_only_when, fs_only_fs_call.
Qed.

Lemma fs_only_stage_links source_dir tmpdir :
  fs_only (stage_links E source_dir tmpdir).
Proof.
  unfold stage_links. apply fs_only_bind; [by apply fs_only_same|].
  intros fs. destruct (listdir _ _ _);
    [by apply fs_only_same | apply fs_only_link_items].
Qed.

Lemma fs_only_write_descriptor tmpdir theme slug :
  fs_only (write_descriptor E tmpdir theme slug).
Proof.
  unfold write_descriptor. apply fs_only_bind; [by apply fs_only_same|].
  intros fs. apply fs_only_bind; [apply fs_only_when, fs_only_fs_call|].
  intros _. destruct (descriptor theme slug);
    [apply fs_only_fs_call | by apply fs_only_same].
Qed.

Lemma fs_only_stage args source tmpdir : fs_only (stage E args source tmpdir).
Proof.
  unfold stage. apply fs_only_bind; [apply fs_only_stage_links|].
  intros _. apply fs_only_write_descriptor.
Qed.

Lemma emits_stage args source tmpdir :
  emits no_launch (stage E args source tmpdir).
Proof. unfold stage. emits_steps. Qed.

(** The [try] block fails as staging does. *)
Lemma supervise_stage_raises args source tmpdir w e w2 :
  signal_at E PStart = false ->
  stage E args source tmpdir w = (Raise e, w2) ->
  supervise E tmpdir source args w = (Raise e, w2).
Proof.
  intros Hsig Hstage. unfold supervise, checkpoint. rewrite Hsig.
  unfold stage in Hstage. rewrite bind_unfold in Hstage.
  rewrite bind_unfold. cbn [mret M_ret]. rewrite bind_unfold.
  destruct (stage_links E (path_parent source) tmpdir w) as [[[]|?|?|] wm];
    try done.
  rewrite bind_unfold.
  by destruct (write_descriptor E tmpdir _ _ wm) as [[[]|?|?|] ?].
Qed.

End FsOnly.

(** X14. A failure of staging (the source directory cannot be listed, a
    link cannot be made, the descriptor cannot be written) is reported
    and ends the run: the message of the exception is printed on
    standard error after [Error: ], nothing is printed on standard
    output, neither the renderer nor the browser is started, and the
    exit status is 0. *)
Theorem staging_failure_reported E args w0 source tmpdir w1 e w2 r w' :
  validate E args (w_fs w0) = inr source ->
  mkdtemp E w0 = (Ok tmpdir, w1) ->
  signal_at E PStart = false ->
  stage E args source tmpdir (set_proc false w1) = (Raise e, w2) ->
  main E args w0 = (r, w') ->
  exit_status r = Some 0
  /\ w_err w' = w_err w0 ++ ["Error: " +:+ msg e]
  /\ w_out w' = w_out w0
  /\ exists evs, w_log w' = w_log w0 ++ evs /\ Forall no_launch evs.
Proof.
  intros Hval Hmk Hsig Hstage Hrun.
  destruct (main_in_workspace _ _ _ _ _ _ Hval Hmk) as (Hmain & Hlog & Herr).
  rewrite Hmain in Hrun.
  pose proof (supervise_stage_raises _ _ _ _ _ _ _ Hsig Hstage) as Hbody.
  pose proof (run_in_workspace_result _ _ _ _ _ _ _ _ _ Hbody Hrun)
    as [Hr Herr'].
  pose proof (fs_only_stage _ _ _ _ _ _ _ Hstage) as Hw2.
  destruct (emits_stage _ _ _ _ _ _ _ Hstage) as (evs1 & Hlog1 & Hall1).
  split; [by destruct Hr as [-> | ->]|].
  split; [rewrite Herr', Hw2; simpl; by rewrite Herr|].
  assert (Hout1 : w_out w1 = w_out w0).
  { apply mkdtemp_inv in Hmk as (? & ? & _ & _ & _ & ->). done. }
  unfold run_in_workspace in Hrun. rewrite bind_unfold in Hrun.
  change (tell (set_proc false) w1) with (Ok tt, set_proc false w1) in Hrun.
  cbv iota beta in Hrun. unfold try_except_finally in Hrun.
  rewrite Hbody in Hrun. cbn [tell fst snd] in Hrun.
  set (w3 := print_err ("Error: " +:+ msg e) w2) in Hrun.
  destruct ((checkpoint E tmpdir PFinally;; cleanup E tmpdir) w3)
    as [r4 w4] eqn:Hfin.
  assert (Hw4 : w' = w4) by (destruct r4; by injection Hrun).
  subst w4.
  assert (Hem : emits no_launch (checkpoint E tmpdir PFinally;;
                                  cleanup E tmpdir)) by emits_steps.
  destruct (Hem _ _ _ Hfin) as (evs3 & Hlog3 & Hall3).
  split.
  - rewrite <- Hout1.
    change (w_out w1) with (w_out (set_proc false w1)).
    replace (w_out (set_proc false w1)) with (w_out w3)
      by (unfold w3; rewrite Hw2; done).
    assert (Hfin' : (checkpoint E tmpdir PFinally;; cleanup E tmpdir) w3
                    = if signal_at E PFinally
                      then (SysExit 0,
                            teardown E tmpdir (record EvSignal w3))
                      else (Ok tt, teardown E tmpdir w3)).
    { rewrite bind_unfold. unfold checkpoint.
      destruct (signal_at E PFinally); [by rewrite on_signal_eq | done]. }
    rewrite Hfin' in Hfin.
    destruct (teardown_spec E tmpdir w3)
      as (_ & _ & _ & _ & _ & _ & _ & Ho).
    destruct (teardown_spec E tmpdir (record EvSignal w3))
      as (_ & _ & _ & _ & _ & _ & _ & Ho').
    destruct (signal_at E PFinally); injection Hfin as _ <-;
      by rewrite ?Ho, ?Ho'.
  - exists (evs1 ++ evs3). rewrite Hlog3. unfold w3. simpl.
    rewrite Hlog1. simpl. by rewrite Hlog, app_assoc, Forall_app.
Qed.

(** ** The child process *)

Lemma preserves_bind {A B} I (m : M A) (f : A -> M B) :
  preserves I m -> (forall a, preserves I (f a)) -> preserves I (m ≫= f).
Proof.
  intros Hm Hf w r w' Hw Hrun. rewrite bind_unfold in Hrun.
  destruct (m w) as [r1 w1] eqn:Hmw. pose proof (Hm _ _ _ Hw Hmw) as H1.
  destruct r1 as [a|e|c|]; try (by injection Hrun as <- <-).
  by apply (Hf a _ _ _ H1 Hrun).
Qed.

Lemma preserves_same {A} I (m : M A) :
  (forall w, (m w).2 = w) -> preserves I m.
Proof.
  intros H w r w' Hw Hrun. specialize (H w). rewrite Hrun in H. by subst.
Qed.

Lemma preserves_tell I (f : World -> World) :
  (forall w, I w -> I (f w)) -> preserves I (tell f).
Proof. intros H w r w' Hw [= <- <-]. by apply H. Qed.

Lemma preserves_when I b m : preserves I m -> preserves I (when b m).
Proof. intros Hm. destruct b; [done | by apply preserves_same]. Qed.

Lemma preserves_ret {A} I (a : A) : preserves I (mret a).
Proof. by apply preserves_same. Qed.

Lemma preserves_raise {A} I e : preserves I (@raise A e).
Proof. by apply preserves_same. Qed.

Lemma preserves_sys_exit {A} I c : preserves I (@sys_exit A c).
Proof. by apply preserves_same. Qed.

Lemma preserves_get_fs I : preserves I get_fs.
Proof. by apply preserves_same. Qed.

Lemma preserves_blocked {A} I : preserves I (fun w : World => (@Blocked A, w)).
Proof. by apply preserves_same. Qed.

Lemma child_held_fs_call op : preserves child_held (fs_call op).
Proof.
  intros w r w' Hw. unfold fs_call.
  by destruct (op (w_fs w)); intros [= <- <-].
Qed.

Create HintDb preserves discriminated.
#[export] Hint Constants Opaque : preserves.
#[export] Hint Resolve preserves_ret preserves_raise preserves_sys_exit
  preserves_get_fs preserves_when preserves_blocked child_held_fs_call
  : preserves.

Ltac preserves_steps :=
  repeat match goal with
    | |- preserves _ (_ ≫= _) => apply preserves_bind; [|intros ?]
    | |- preserves _ (when _ _) => apply preserves_when
    | |- preserves _ (tell _) => apply preserves_tell; done
    | |- preserves _ (if ?b then _ else _) => destruct b
    | |- preserves _ (match ?x with _ => _ end) => destruct x
    | |- preserves _ _ => solve [eauto with preserves]
    end.

Section ChildHeld.

Variable E : Env.

#[local] Abbreviation held := (preserves child_held).

Lemma held_scan_ports ports : held (scan_ports E ports).
Proof.
  induction ports as [|port rest IH]; [apply preserves_ret|].
  intros w r w' Hw Hrun. rewrite scan_ports_cons, with_socket_bind in Hrun.
  destruct ((port <? 0) || (65535 <? port)); [by injection Hrun as <- <-|].
  destruct (bind_ok E port); [by injection Hrun as <- <-|].
  simpl in Hrun. eapply IH; [|exact Hrun]. exact Hw.
Qed.

Lemma held_find_free_port start end_ : held (find_free_port E start end_).
Proof.
  unfold find_free_port. apply preserves_bind; [apply held_scan_ports|].
  intros found. preserves_steps.
Qed.

Lemma held_find_myst : held (find_myst E).
Proof. unfold find_myst. preserves_steps. Qed.

Lemma held_link_items source_dir tmpdir items :
  held (link_items E source_dir tmpdir items).
Proof.
  induction items as [|name rest IH]; simpl; [apply preserves_ret|].
  preserves_steps.
Qed.

Lemma held_stage_links source_dir tmpdir :
  held (stage_links E source_dir tmpdir).
Proof.
  unfold stage_links. apply preserves_bind; [apply preserves_get_fs|].
  intros fs. destruct (listdir _ _ _);
    [apply preserves_raise | apply held_link_items].
Qed.

Lemma held_write_descriptor tmpdir theme slug :
  held (write_descriptor E tmpdir theme slug).
Proof. unfold write_descriptor. preserves_steps. Qed.

Lemma held_copy_output tmpdir args : held (copy_output E tmpdir args).
Proof.
  unfold copy_output. preserves_steps.
  intros w r w' Hw.
  by destruct (copytree _ _ _ _) as [? []]; intros [= <- <-].
Qed.

(** After the teardown no child of the run is left running. *)
Lemma teardown_stops tmpdir w :
  child_held w ->
  w_child (teardown E tmpdir w) <> Running
  /\ child_held (teardown E tmpdir w).
Proof.
  intros Hw. unfold teardown, remove_workspace.
  assert (Hstop : w_child (stop_child E w) <> Running).
  { destruct (stop_child_cases E w)
      as [[-> [Hp|[rc Hc]]]|[(_ & _ & _ & ->)|(_ & _ & _ & ->)]];
      try done.
    - intros Hrun. apply Hw in Hrun. congruence.
    - by rewrite Hc. }
  split; [done | by intros ?].
Qed.

Lemma held_on_signal {A} tmpdir : held (@on_signal E A tmpdir).
Proof.
  intros w r w' Hw Hrun. rewrite on_signal_eq in Hrun.
  injection Hrun as <- <-. by apply teardown_stops.
Qed.

Lemma held_checkpoint tmpdir pt : held (checkpoint E tmpdir pt).
Proof.
  unfold checkpoint. destruct (signal_at E pt);
    [apply held_on_signal | apply preserves_ret].
Qed.

Lemma held_subprocess_run tmpdir cmd : held (subprocess_run E tmpdir cmd).
Proof.
  intros w r w' Hw. unfold subprocess_run.
  destruct (run_build E cmd tmpdir (w_fs w)) as [fs' rc|fs'|e].
  3: by intros [= <- <-].
  all: destruct (signal_at E PBuild); [|by intros [= <- <-]];
    cbv zeta; rewrite on_signal_eq; intros [= <- <-];
    by apply (teardown_stops tmpdir (record EvSignal
                (record (EvRun cmd tmpdir) (set_fs fs' w)))).
Qed.

End ChildHeld.

#[export] Hint Resolve held_find_free_port held_find_myst held_stage_links
  held_write_descriptor held_copy_output held_checkpoint held_subprocess_run
  : preserves.

Section NoOrphan.

Variables (E : Env) (tmpdir : path).

Lemma held_supervise source args :
  preserves child_held (supervise E tmpdir source args).
Proof.
  unfold supervise. do 4 (apply preserves_bind; [preserves_steps|intros ?]).
  apply preserves_bind; [preserves_steps|intros myst_cmd].
  destruct (a_build args).
  - unfold build. preserves_steps.
  - unfold serve, popen, wait_for_port, proc_wait, child_runs.
    preserves_steps.
Qed.

Lemma run_in_workspace_stops source args w r w' :
  w_child w <> Running ->
  run_in_workspace E tmpdir source args w = (r, w') ->
  r <> Blocked ->
  w_child w' <> Running.
Proof.
  intros Hw0. unfold run_in_workspace. rewrite bind_unfold.
  change (tell (set_proc false) w) with (Ok tt, set_proc false w).
  cbv iota beta. unfold try_except_finally.
  destruct (supervise E tmpdir source args (set_proc false w))
    as [r1 w1] eqn:Hbody.
  assert (Hw1 : child_held w1).
  { eapply held_supervise; [|exact Hbody]. intros H. by destruct Hw0. }
  assert (Hfin : forall w2,
    (checkpoint E tmpdir PFinally;; cleanup E tmpdir) w2
    = if signal_at E PFinally
      then (SysExit 0, teardown E tmpdir (record EvSignal w2))
      else (Ok tt, teardown E tmpdir w2)).
  { intros w2. rewrite bind_unfold. unfold checkpoint.
    destruct (signal_at E PFinally); [by rewrite on_signal_eq | done]. }
  assert (Hend : forall (r2 : res unit) (w2 : World),
    child_held w2 ->
    match (checkpoint E tmpdir PFinally;; cleanup E tmpdir) w2 with
    | (Ok _, w3) => (r2, w3)
    | (r3, w3) => (r3, w3)
    end = (r, w') ->
    w_child w' <> Running).
  { intros r2 w2 Hw2. rewrite Hfin.
    destruct (signal_at E PFinally); intros [= _ <-].
    - by apply (teardown_stops E tmpdir (record EvSignal w2)).
    - by apply teardown_stops. }
  destruct r1 as [[]|e|c|]; cbn [fst snd tell].
  - intros Hrun _. exact (Hend _ _ Hw1 Hrun).
  - intros Hrun _.
    exact (Hend _ (print_err ("Error: " +:+ msg e) w1) Hw1 Hrun).
  - intros Hrun _. exact (Hend _ _ Hw1 Hrun).
  - by intros [= <- _] ?.
Qed.

End NoOrphan.

(** X15. No child is left behind: if no child process is running when
    [main] starts, none is running when it ends, on whatever path it
    ends (normal return, [sys.exit], exception, signal at one of the
    points where the run can be interrupted); a server that was started
    and has not exited by itself has been terminated, or killed, by the
    teardown. *)
Theorem no_orphan_child E args w0 r w' :
  w_child w0 <> Running ->
  main E args w0 = (r, w') ->
  r <> Blocked ->
  w_child w' <> Running.
Proof.
  intros Hw0. unfold main. rewrite bind_unfold. unfold get_fs.
  destruct (validate E args (w_fs w0)) as [message|source].
  { by intros [= <- <-]. }
  rewrite bind_unfold.
  destruct (mkdtemp E w0) as [[tmpdir|e|c|] w1] eqn:Hmk.
  2-4: unfold mkdtemp in Hmk;
    destruct (mkdtemp_from E (tmp_names E) (w_fs w0)) as [?|[? ?]];
    try discriminate; injection Hmk as <- <-; by intros [= <- <-].
  apply mkdtemp_inv in Hmk as (? & ? & _ & _ & _ & ->).
  by apply run_in_workspace_stops.
Qed.

Lemma no_orphan_child_witness :
  w_child (main interrupted_env notes_args project_world).2 <> Running.
Proof.
  apply (no_orphan_child interrupted_env notes_args project_world
           (SysExit 0)).
  - discriminate.
  - apply run_eq. vm_compute. reflexivity.
  - discriminate.
Defined.

(** ** What a run changes outside the workspace *)

Lemma outside_refl q fs : outside q fs fs.
Proof. by intros k _. Qed.

Lemma outside_trans q fs0 fs1 fs2 :
  outside q fs0 fs1 -> outside q fs1 fs2 -> outside q fs0 fs2.
Proof. intros H1 H2 k Hk. by rewrite H2, H1. Qed.

Lemma fresh_outside q fs0 : outside q fs0 (<[q := Dir]> fs0).
Proof.
  intros k Hk. apply lookup_insert_ne. intros ->.
  by rewrite under_refl in Hk.
Qed.

(** *** Resolution to a place whose surroundings are unchanged

    [q] is free in [fs0], and [fs'] is [fs0] outside of [q].  A path
    that led to [q] in [fs0] still does in [fs'], whatever is there. *)
Section Place.

Variables (fs0 fs' : FS) (q : path).
Hypothesis Hq : q <> [].
Hypothesis Hfree : fs0 !! q = None.
Hypothesis Hagree : outside q fs0 fs'.

Lemma place_step cur c :
  real_dir fs0 cur -> cur ++ [c] <> q ->
  fs' !! (cur ++ [c]) = fs0 !! (cur ++ [c]).
Proof.
  intros Hcur Hne. apply Hagree.
  destruct (under q (cur ++ [c])) eqn:Hu; [|done].
  apply under_spec, prefix_snoc_inv in Hu as [->|Hpre]; [done|].
  pose proof (Hcur q Hq Hpre). congruence.
Qed.

#[local] Abbreviation leads_there h rest cur :=
  (real_dir fs0 cur ->
   walk h fs0 false cur rest = Some q ->
   walk h fs' false cur rest = Some q).

Lemma walk_to_place_step h :
  (forall h1, h = S h1 -> forall rest cur, leads_there h1 rest cur) ->
  forall rest cur, leads_there h rest cur.
Proof.
  intros IHh.
  induction rest as [|c rest IH]; intros cur Hcur Hwalk.
  - by rewrite walk_nil in *.
  - rewrite walk_cons in Hwalk. rewrite walk_cons.
    destruct (String.eqb c "."); [by apply IH|].
    destruct (String.eqb c "..");
      [by apply IH; [apply real_dir_removelast|]|].
    destruct (decide (cur ++ [c] = q)) as [Heq|Hne].
    { rewrite Heq, Hfree in Hwalk. rewrite Heq.
      destruct rest; [|discriminate].
      destruct (fs' !! q) as [[| |t]|]; cbn; by rewrite ?walk_nil. }
    rewrite (place_step _ _ Hcur Hne).
    destruct (fs0 !! (cur ++ [c])) as [[| |t]|] eqn:Hlook.
    + done.
    + apply IH; [by apply real_dir_snoc | done].
    + cbn [negb andb] in *.
      destruct rest as [|c' rest]; cbn [is_nil] in *; [done|].
      destruct h as [|h1]; [discriminate|].
      by apply (IHh h1 eq_refl (t ++ c' :: rest) [] (real_dir_nil _)).
    + done.
Qed.

Lemma walk_to_place h : forall rest cur, leads_there h rest cur.
Proof.
  induction h as [|h IHh]; apply walk_to_place_step.
  - intros h1 Hh1. discriminate.
  - intros h1 [= <-]. exact IHh.
Qed.

End Place.

(** *** Invariants of the file system

    A property of the file system that the removal of the workspace and
    the renderer keep is kept by everything a run does after staging,
    unless a build succeeds and its output is copied. *)
Section Invariant.

Variables (E : Env) (tmpdir : path) (Inv : FS -> Prop).
Hypothesis Inv_rmtree :
  forall fs, Inv fs -> Inv (rmtree_run (faulty E) tmpdir fs).1.
Hypothesis Inv_serve : forall fs, Inv fs -> Inv (serve_fs E fs).
Hypothesis Inv_build :
  forall cmd fs, Inv fs ->
    match run_build E cmd tmpdir fs with
    | Ran fs' _ | Hangs fs' => Inv fs'
    | LaunchError _ => True
    end.

#[local] Abbreviation I := (fun w : World => Inv (w_fs w)).

Lemma teardown_inv w : I w -> I (teardown E tmpdir w).
Proof.
  intros Hw. unfold teardown, remove_workspace. simpl.
  rewrite stop_child_fs. by apply Inv_rmtree.
Qed.

Lemma inv_fs_same {A} (m : M A) :
  (forall w, w_fs (m w).2 = w_fs w) -> preserves I m.
Proof.
  intros H w r w' Hw Hrun. specialize (H w). rewrite Hrun in H.
  simpl in H. by rewrite H.
Qed.

Lemma inv_tell (f : World -> World) :
  (forall w, w_fs (f w) = w_fs w) -> preserves I (tell f).
Proof. intros H. by apply inv_fs_same. Qed.

Lemma inv_scan_ports ports : preserves I (scan_ports E ports).
Proof.
  induction ports as [|port rest IH]; [apply preserves_ret|].
  intros w r w' Hw Hrun. rewrite scan_ports_cons, with_socket_bind in Hrun.
  destruct ((port <? 0) || (65535 <? port)); [by injection Hrun as <- <-|].
  destruct (bind_ok E port); [by injection Hrun as <- <-|].
  simpl in Hrun. eapply IH; [|exact Hrun]. exact Hw.
Qed.

Lemma inv_on_signal {A} : preserves I (@on_signal E A tmpdir).
Proof.
  intros w r w' Hw Hrun. rewrite on_signal_eq in Hrun.
  injection Hrun as <- <-. by apply (teardown_inv (record EvSignal w)).
Qed.

Lemma inv_checkpoint pt : preserves I (checkpoint E tmpdir pt).
Proof.
  unfold checkpoint. destruct (signal_at E pt);
    [apply inv_on_signal | apply preserves_ret].
Qed.

Lemma inv_cleanup : preserves I (cleanup E tmpdir).
Proof.
  intros w r w' Hw Hrun. rewrite cleanup_eq in Hrun.
  injection Hrun as <- <-. by apply teardown_inv.
Qed.

Lemma inv_child_runs : preserves I (child_runs E).
Proof. intros w r w' Hw [= <- <-]. simpl. by apply Inv_serve. Qed.

Lemma inv_subprocess_run cmd : preserves I (subprocess_run E tmpdir cmd).
Proof.
  intros w r w' Hw. unfold subprocess_run.
  pose proof (Inv_build cmd (w_fs w) Hw) as Hrun.
  destruct (run_build E cmd tmpdir (w_fs w)) as [fs' rc|fs'|e].
  3: by intros [= <- <-].
  all: destruct (signal_at E PBuild); [|by intros [= <- <-]];
    cbv zeta; rewrite on_signal_eq; intros [= <- <-];
    by apply (teardown_inv (record EvSignal
                (record (EvRun cmd tmpdir) (set_fs fs' w)))).
Qed.

Ltac inv_steps :=
  repeat match goal with
    | |- preserves _ (checkpoint _ _ _) => apply inv_checkpoint
    | |- preserves _ (child_runs _) => apply inv_child_runs
    | |- preserves _ (_ ≫= _) => apply preserves_bind; [|intros ?]
    | |- preserves _ (when _ _) => apply preserves_when
    | |- preserves _ (tell _) => apply inv_tell; done
    | |- preserves _ (if ?b then _ else _) => destruct b
    | |- preserves _ (match ?x with _ => _ end) => destruct x
    | |- preserves _ _ => solve [eauto with preserves]
    end.

Lemma inv_find_free_port start end_ :
  preserves I (find_free_port E start end_).
Proof.
  unfold find_free_port. apply preserves_bind; [apply inv_scan_ports|].
  intros found. inv_steps.
Qed.

Lemma inv_find_myst : preserves I (find_myst E).
Proof. unfold find_myst. inv_steps. Qed.

Lemma inv_serve source args myst_cmd :
  preserves I (serve E tmpdir source args myst_cmd).
Proof.
  unfold serve. apply preserves_bind; [apply inv_find_free_port|].
  intros port. unfold popen, wait_for_port, proc_wait. inv_steps.
Qed.

(** A build that does not succeed copies nothing. *)
Lemma inv_build source args myst_cmd :
  build_fails E -> preserves I (build E tmpdir source args myst_cmd).
Proof.
  intros Hfails. unfold build. apply preserves_bind; [inv_steps|].
  intros _ w r w' Hw Hrun. rewrite bind_unfold in Hrun.
  destruct (subprocess_run E tmpdir _ w) as [r1 w1] eqn:Hsub.
  pose proof (inv_subprocess_run _ _ _ _ Hw Hsub) as Hw1.
  apply subprocess_run_result in Hsub.
  destruct r1 as [rc|e|c|]; try by injection Hrun as <- <-.
  destruct Hsub as [fs' Hran].
  destruct (rc =? 0) eqn:Hrc.
  { apply Z.eqb_eq in Hrc. subst rc. by destruct (Hfails _ _ _ _ Hran). }
  cbn [when] in Hrun. by injection Hrun as <- <-.
Qed.

Variable args : Args.
Hypothesis Hfails : a_build args = true -> build_fails E.

(** The [try] block, given that staging keeps the invariant. *)
Lemma inv_supervise source w r w' :
  I w ->
  (forall r2 w2, stage E args source tmpdir w = (r2, w2) -> I w2) ->
  supervise E tmpdir source args w = (r, w') ->
  I w'.
Proof.
  intros Hw Hstage. unfold supervise. rewrite bind_unfold.
  destruct (checkpoint E tmpdir PStart w) as [[[]|?|?|] w1] eqn:Hcp.
  2-4: intros [= <- <-]; apply (inv_checkpoint _ _ _ _ Hw Hcp).
  assert (w1 = w) as ->.
  { unfold checkpoint in Hcp. destruct (signal_at E PStart);
      [by rewrite on_signal_eq in Hcp | by injection Hcp]. }
  unfold stage in Hstage. rewrite bind_unfold.
  destruct (stage_links E (path_parent source) tmpdir w) as [r2 w2] eqn:Hst.
  destruct r2 as [[]|e|c|].
  2: intros [= <- <-]; apply (Hstage (Raise e)); by rewrite bind_unfold, Hst.
  2: intros [= <- <-]; apply (Hstage (SysExit c));
       by rewrite bind_unfold, Hst.
  2: intros [= <- <-]; apply (Hstage Blocked); by rewrite bind_unfold, Hst.
  rewrite bind_unfold.
  destruct (write_descriptor E tmpdir _ _ w2) as [r3 w3] eqn:Hwd.
  assert (Hw3 : I w3).
  { apply (Hstage r3). by rewrite bind_unfold, Hst. }
  destruct r3 as [[]|?|?|]; try (by intros [= <- <-]).
  assert (Hrest : preserves I
    (checkpoint E tmpdir PStaged;;
     myst_cmd ← find_myst E;
     if a_build args then build E tmpdir source args myst_cmd
     else serve E tmpdir source args myst_cmd)).
  { apply preserves_bind; [apply inv_checkpoint | intros _].
    apply preserves_bind; [apply inv_find_myst | intros myst_cmd].
    destruct (a_build args); [by apply inv_build; auto | apply inv_serve]. }
  intros Hrun. exact (Hrest _ _ _ Hw3 Hrun).
Qed.

Lemma inv_run_in_workspace source w r w' :
  I w ->
  (forall r2 w2,
     stage E args source tmpdir (set_proc false w) = (r2, w2) -> I w2) ->
  run_in_workspace E tmpdir source args w = (r, w') ->
  I w'.
Proof.
  intros Hw Hstage. unfold run_in_workspace. rewrite bind_unfold.
  change (tell (set_proc false) w) with (Ok tt, set_proc false w).
  cbv iota beta. unfold try_except_finally.
  destruct (supervise E tmpdir source args (set_proc false w))
    as [r1 w1] eqn:Hbody.
  pose proof (inv_supervise _ (set_proc false w) _ _ Hw Hstage Hbody) as Hw1.
  assert (Hp : preserves I (checkpoint E tmpdir PFinally;;
                            cleanup E tmpdir)).
  { apply preserves_bind;
      [apply inv_checkpoint | intros _; apply inv_cleanup]. }
  assert (Hend : forall (r2 : res unit) (w2 : World),
    I w2 ->
    match (checkpoint E tmpdir PFinally;; cleanup E tmpdir) w2 with
    | (Ok _, w3) => (r2, w3)
    | (r3, w3) => (r3, w3)
    end = (r, w') ->
    I w').
  { intros r2 w2 Hw2.
    destruct ((checkpoint E tmpdir PFinally;; cleanup E tmpdir) w2)
      as [r3 w3] eqn:Hfin.
    pose proof (Hp _ _ _ Hw2 Hfin) as Hw3.
    destruct r3; by intros [= _ <-]. }
  destruct r1 as [[]|e|c|]; cbn [fst snd tell].
  - by apply Hend.
  - by apply (Hend _ (print_err ("Error: " +:+ msg e) w1)).
  - by apply Hend.
  - by intros [= _ <-].
Qed.

End Invariant.

Section RunFrame.

Variables (E : Env) (args : Args) (fs0 : FS) (tmpdir q : path).
Hypothesis Htree : is_tree fs0 = true.
Hypothesis Hres0 : lresolve fs0 tmpdir = Some q.
Hypothesis Hfree : node_at fs0 q = None.

Lemma rmtree_outside fs :
  outside q fs0 fs -> outside q fs0 (rmtree_run (faulty E) tmpdir fs).1.
Proof.
  intros Hfs. unfold rmtree_run.
  rewrite (walk_to_place fs0 fs q (ws_nonroot _ _ Hfree)
             (ws_free _ tmpdir _ Hres0 Hfree) Hfs _ _ _ (real_dir_nil _)
             Hres0 : lresolve fs tmpdir = Some q).
  destruct (node_at fs q) as [[| |]|]; try done. simpl.
  intros k Hk. rewrite lookup_after_rmtree, Hk. simpl. by apply Hfs.
Qed.

(** Staging in the fresh workspace leaves a workspace state. *)
Lemma stage_ws source w r2 w2 :
  w_fs w = <[q := Dir]> fs0 ->
  stage E args source tmpdir w = (r2, w2) ->
  ws_state fs0 q (w_fs w2).
Proof.
  intros Hw Hrun.
  assert (Hfresh : w = set_fs (<[q := Dir]> (w_fs (set_fs fs0 w)))
                         (set_fs fs0 w)).
  { destruct w. simpl in *. by subst. }
  by destruct (stage_and_describe E (set_fs fs0 w) w tmpdir q Htree Hres0
                 Hfree Hfresh _ _ _ _ _ Hrun) as (Hws & _).
Qed.

End RunFrame.

(** X16. Apart from the output of a successful build, a run changes
    nothing outside its workspace.  If the renderer itself keeps to the
    workspace, and the run is not a build that succeeds, then however
    the run ends (also when it never does, as far as it got) every
    entry of the file system outside the workspace directory is what it
    was when [main] started: the source directory, the output
    directory and the targets of the staged links are untouched, by
    staging and by the removal of the workspace alike. *)
Theorem run_confined E args w0 tmpdir w1 q r w' :
  is_tree (w_fs w0) = true ->
  mkdtemp E w0 = (Ok tmpdir, w1) ->
  lresolve (w_fs w0) tmpdir = Some q ->
  confined_renderer E q ->
  (a_build args = true -> build_fails E) ->
  main E args w0 = (r, w') ->
  outside q (w_fs w0) (w_fs w').
Proof.
  intros Htree Hmk Hres0 [Hserve Hbuild] Hfails.
  apply mkdtemp_inv in Hmk as Hinv.
  destruct Hinv as (nm & q' & _ & Hres' & Hfree & Hw1).
  rewrite Hres0 in Hres'. injection Hres' as <-.
  unfold main. rewrite bind_unfold. unfold get_fs.
  destruct (validate E args (w_fs w0)) as [message|source].
  { by intros [= <- <-]. }
  rewrite bind_unfold, Hmk. intros Hrun.
  apply (inv_run_in_workspace E tmpdir (outside q (w_fs w0))) in Hrun;
    try done.
  - intros fs Hfs. by apply (rmtree_outside E (w_fs w0) tmpdir q).
  - intros fs Hfs. eapply outside_trans; [exact Hfs | apply Hserve].
  - intros cmd fs Hfs. specialize (Hbuild cmd tmpdir fs).
    destruct (run_build E cmd tmpdir fs); try done;
      by eapply outside_trans.
  - rewrite Hw1. apply fresh_outside.
  - intros r2 w2 Hst.
    apply (stage_ws E args (w_fs w0) tmpdir q Htree Hres0 Hfree) in Hst;
      [exact (proj2 Hst) | by rewrite Hw1].
Qed.

Lemma run_confined_witness :
  outside sample_tmpdir (w_fs project_world)
          (w_fs (main busy_env notes_args project_world).2).
Proof.
  apply (run_confined busy_env notes_args project_world sample_tmpdir
           staged_w1 sample_tmpdir
           (main busy_env notes_args project_world).1).
  - vm_compute. reflexivity.
  - unfold staged_w1. apply run_eq. vm_compute. reflexivity.
  - vm_compute. reflexivity.
  - split; [intros fs; apply outside_refl|].
    intros cmd cwd fs. apply outside_refl.
  - discriminate.
  - by destruct (main busy_env notes_args project_world).
Defined.

(** ** Trees *)

Lemma is_tree_intro fs :
  (forall k, is_Some (fs !! k) -> node_at fs (removelast k) = Some Dir) ->
  is_tree fs = true.
Proof.
  intros H. unfold is_tree. apply forallb_forall. intros k Hk.
  apply list_elem_of_In, elem_of_keys in Hk. by rewrite (H k Hk).
Qed.

Lemma removelast_ne (k : path) : k <> [] -> removelast k <> k.
Proof.
  intros Hk Heq. destruct k as [|x k _] using rev_ind; [done|].
  rewrite removelast_last in Heq. by apply (snoc_ne k x).
Qed.

(** A new entry in a directory. *)
Lemma is_tree_insert_new fs k n :
  is_tree fs = true -> fs !! k = None ->
  node_at fs (removelast k) = Some Dir -> k <> [] ->
  is_tree (<[k := n]> fs) = true.
Proof.
  intros Htree Hfree Hpar Hk. apply is_tree_intro. intros k' Hk'.
  assert (Hold : forall p, node_at fs p = Some Dir ->
                           node_at (<[k := n]> fs) p = Some Dir).
  { intros p Hp. destruct p as [|c p]; [done|]. cbn in *.
    rewrite lookup_insert_ne; [done | congruence]. }
  destruct (decide (k' = k)) as [->|Hne]; [by apply Hold|].
  rewrite lookup_insert_ne in Hk' by done.
  by apply Hold, is_tree_parent.
Qed.

Lemma is_tree_rmtree flt fs q :
  is_tree fs = true -> is_tree (filter (survives flt fs q) fs) = true.
Proof.
  intros Htree. apply is_tree_intro. intros k [n Hk].
  rewrite lookup_after_rmtree in Hk.
  destruct (negb (under q k) || stuck flt fs k) eqn:Hkeep; [|discriminate].
  pose proof (is_tree_parent _ k Htree (ex_intro _ n Hk)) as Hp.
  pose proof (prefix_removelast k) as Hpre.
  destruct (removelast k) as [|c p] eqn:Hrl; [done|].
  cbn in *. rewrite lookup_after_rmtree.
  assert (negb (under q (c :: p)) || stuck flt fs (c :: p) = true) as ->;
    [|done].
  apply orb_true_iff in Hkeep as [Hout|Hstuck].
  - apply orb_true_iff. left. apply negb_true_iff.
    apply negb_true_iff in Hout.
    destruct (under q (c :: p)) eqn:Hu; [|done].
    rewrite <- Hout. symmetry. eapply under_trans; [exact Hu|].
    by apply under_spec.
  - apply orb_true_iff. right. eapply stuck_up; [|exact Hstuck].
    by apply under_spec.
Qed.

Lemma is_tree_rmtree_run flt p fs :
  is_tree fs = true -> is_tree (rmtree_run flt p fs).1 = true.
Proof.
  intros Htree. unfold rmtree_run.
  destruct (lresolve fs p) as [q|]; [|done].
  destruct (node_at fs q) as [[| |]|]; try done.
  by apply is_tree_rmtree.
Qed.

Section TreeFrame.

Variables (E : Env) (args : Args) (fs0 : FS) (tmpdir q : path).
Hypothesis Htree : is_tree fs0 = true.
Hypothesis Hres0 : lresolve fs0 tmpdir = Some q.
Hypothesis Hfree : node_at fs0 q = None.

Lemma fresh_tree : is_tree (<[q := Dir]> fs0) = true.
Proof.
  apply is_tree_insert_new; [done | by apply (ws_free _ tmpdir) | |
                             by apply (ws_nonroot fs0)].
  destruct (walk_result fs0 false MAXSYMLINKS tmpdir [] q (real_dir_nil _))
    as (_ & Hreal & _); [constructor | exact Hres0 |].
  by apply real_dir_node.
Qed.

(** Staging in the fresh workspace leaves a tree. *)
Lemma stage_tree source w r2 w2 :
  w_fs w = <[q := Dir]> fs0 ->
  stage E args source tmpdir w = (r2, w2) ->
  is_tree (w_fs w2) = true.
Proof.
  intros Hw Hrun.
  assert (Hfresh : w = set_fs (<[q := Dir]> (w_fs (set_fs fs0 w)))
                         (set_fs fs0 w)).
  { destruct w. simpl in *. by subst. }
  destruct (stage_and_describe E (set_fs fs0 w) w tmpdir q Htree Hres0
              Hfree Hfresh _ _ _ _ _ Hrun) as (Hws & _ & Hframe & _).
  pose proof (fresh_empty (set_fs fs0 w) w tmpdir q Htree Hres0 Hfree Hfresh)
    as Hempty.
  assert (Htree1 : is_tree (w_fs w) = true) by (rewrite Hw; apply fresh_tree).
  apply is_tree_intro. intros k Hk.
  destruct (decide (w_fs w2 !! k = w_fs w !! k)) as [Heq|Hne].
  - rewrite Heq in Hk. pose proof (is_tree_parent _ _ Htree1 Hk) as Hp.
    destruct (removelast k) as [|c p]; [done|]. cbn in *.
    destruct (decide (w_fs w2 !! (c :: p) = w_fs w !! (c :: p)))
      as [->|Hne]; [done|].
    destruct (Hframe _ Hne) as [n Hn]. rewrite Hn, Hempty in Hp.
    discriminate.
  - destruct (Hframe _ Hne) as [n ->]. rewrite removelast_last.
    rewrite node_at_nonroot by (by apply (ws_nonroot fs0)). apply Hws.
Qed.

End TreeFrame.

(** X17. A run that is not a successful build leaves the file system
    exactly as it found it, provided the renderer itself keeps to the
    workspace and one of the removals of the workspace went through
    without error: staging followed by teardown is the identity. *)
Theorem run_leaves_no_trace E args w0 tmpdir w1 q r w' evs :
  is_tree (w_fs w0) = true ->
  mkdtemp E w0 = (Ok tmpdir, w1) ->
  lresolve (w_fs w0) tmpdir = Some q ->
  confined_renderer E q ->
  sound_renderer E ->
  (a_build args = true -> build_fails E) ->
  main E args w0 = (r, w') ->
  w_log w' = w_log w0 ++ evs ->
  EvRmtree tmpdir true ∈ evs ->
  w_fs w' = w_fs w0.
Proof.
  intros Htree Hmk Hres0 [Hserve Hbuild] [Hserve' Hbuild'] Hfails Hmain
         Hlog Hin.
  apply mkdtemp_inv in Hmk as Hinv.
  destruct Hinv as (nm & q' & _ & Hres' & Hfree & Hw1).
  rewrite Hres0 in Hres'. injection Hres' as <-.
  pose proof (ws_nonroot _ _ Hfree) as Hq.
  pose proof (ws_free _ tmpdir _ Hres0 Hfree) as Hfree'.
  unfold main in Hmain. rewrite bind_unfold in Hmain. unfold get_fs in Hmain.
  destruct (validate E args (w_fs w0)) as [message|source].
  { injection Hmain as _ <-. simpl in Hlog.
    rewrite <- (app_nil_r (w_log w0)) in Hlog at 1.
    apply app_inv_head in Hlog as <-. by apply elem_of_nil in Hin. }
  rewrite bind_unfold, Hmk in Hmain.
  assert (Hout : outside q (w_fs w0) (w_fs w')).
  { apply (inv_run_in_workspace E tmpdir (outside q (w_fs w0)))
      with (1 := fun fs => rmtree_outside E (w_fs w0) tmpdir q Hres0 Hfree fs)
      in Hmain; try done.
    - intros fs Hfs. eapply outside_trans; [exact Hfs | apply Hserve].
    - intros cmd fs Hfs. specialize (Hbuild cmd tmpdir fs).
      destruct (run_build E cmd tmpdir fs); try done;
        by eapply outside_trans.
    - rewrite Hw1. apply fresh_outside.
    - intros r2 w2 Hst.
      apply (stage_ws E args (w_fs w0) tmpdir q Htree Hres0 Hfree) in Hst;
        [exact (proj2 Hst) | by rewrite Hw1]. }
  assert (Htree' : is_tree (w_fs w') = true).
  { apply (inv_run_in_workspace E tmpdir (fun fs => is_tree fs = true))
      in Hmain; try done.
    - intros fs. apply is_tree_rmtree_run.
    - intros cmd fs. apply Hbuild'.
    - rewrite Hw1. by apply (fresh_tree (w_fs w0) tmpdir).
    - intros r2 w2 Hst.
      apply (stage_tree E args (w_fs w0) tmpdir q Htree Hres0 Hfree) in Hst;
        [done | by rewrite Hw1]. }
  assert (Hgone : w_fs w' !! q = None).
  { destruct (run_in_workspace_ends _ _ _ _ _ _ _ Hmain)
      as [(_ & evs' & Hlog' & Hb)|(evs' & Hlog' & _ & Hg & _)].
    - rewrite Hw1 in Hlog'. simpl in Hlog'. rewrite Hlog' in Hlog.
      apply app_inv_head in Hlog as <-.
      by apply benign_not_rmtree in Hin.
    - rewrite Hw1 in Hlog'. simpl in Hlog'. rewrite Hlog' in Hlog.
      apply app_inv_head in Hlog as <-. specialize (Hg Hin).
      unfold gone, lexists, lstat in Hg.
      rewrite (walk_to_place (w_fs w0) (w_fs w') q Hq Hfree' Hout _ _ _
                 (real_dir_nil _) Hres0 : lresolve (w_fs w') tmpdir = Some q)
        in Hg.
      rewrite node_at_nonroot in Hg by done.
      by destruct (w_fs w' !! q). }
  apply map_eq. intros k. destruct (under q k) eqn:Hu; [|by apply Hout].
  rewrite (tree_free_below _ q k Htree' Hq Hgone Hu).
  by rewrite (tree_free_below _ q k Htree Hq Hfree' Hu).
Qed.

Lemma run_leaves_no_trace_witness :
  w_fs (main busy_env notes_args project_world).2 = w_fs project_world.
Proof.
  apply (run_leaves_no_trace busy_env notes_args project_world sample_tmpdir
           staged_w1 sample_tmpdir (Ok tt)
           (main busy_env notes_args project_world).2
           [EvSockOpen; EvBind 3000 false; EvSockClose;
            EvSockOpen; EvBind 3001 false; EvSockClose;
            EvSockOpen; EvBind 3002 true; EvSockClose;
            EvPopen ["/usr/bin/myst"; "start"; "--port"; "3002";
                     "--keep-host"] sample_tmpdir "0.0.0.0";
            EvBrowser "http://localhost:3002";
            EvRmtree sample_tmpdir true]).
  - vm_compute. reflexivity.
  - unfold staged_w1. apply run_eq. vm_compute. reflexivity.
  - vm_compute. reflexivity.
  - split; [intros fs; apply outside_refl|].
    intros cmd cwd fs. apply outside_refl.
  - split; [by intros fs|]. by intros cmd cwd fs.
  - discriminate.
  - apply run_eq. vm_compute. reflexivity.
  - vm_compute. reflexivity.
  - set_solver.
Defined.

(** ** File systems that grow *)

Lemma extends_refl fs : extends fs fs.
Proof. intros k. destruct (fs !! k) as [[| |]|]; eauto. Qed.

Lemma extends_trans fs1 fs2 fs3 :
  extends fs1 fs2 -> extends fs2 fs3 -> extends fs1 fs3.
Proof.
  intros H12 H23 k. specialize (H12 k). specialize (H23 k).
  destruct (fs1 !! k) as [[c| |t]|]; [|by rewrite H12 in H23..|done].
  destruct H12 as [c' H12]. by rewrite H12 in H23.
Qed.

Lemma extends_insert_new fs k n :
  fs !! k = None -> extends fs (<[k := n]> fs).
Proof.
  intros Hk k'. destruct (decide (k' = k)) as [->|Hne]; [by rewrite Hk|].
  rewrite lookup_insert_ne by done. apply extends_refl.
Qed.

Lemma extends_insert_file fs k c :
  (forall n, fs !! k = Some n -> exists c', n = File c') ->
  extends fs (<[k := File c]> fs).
Proof.
  intros Hk k'. destruct (decide (k' = k)) as [->|Hne].
  - rewrite lookup_insert_eq. destruct (fs !! k) as [n|] eqn:Hn; [|done].
    destruct (Hk n eq_refl) as [c' ->]. by exists c.
  - rewrite lookup_insert_ne by done. apply extends_refl.
Qed.

Lemma extends_submap (fs fs' : FS) : fs ⊆ fs' -> extends fs fs'.
Proof.
  intros Hsub k. destruct (fs !! k) as [n|] eqn:Hn; [|done].
  rewrite (lookup_weaken _ _ _ _ Hn Hsub). destruct n; eauto.
Qed.

Lemma extends_node_at fs fs' q :
  extends fs fs' -> is_Some (node_at fs q) -> is_Some (node_at fs' q).
Proof.
  intros Hext Hq. destruct q as [|c q]; [done|]. cbn in *.
  specialize (Hext (c :: q)). destruct Hq as [n Hn]. rewrite Hn in Hext.
  destruct n as [c'| |t]; [destruct Hext as [c'' ->] | rewrite Hext..]; done.
Qed.

Lemma extends_dir fs fs' q :
  extends fs fs' -> node_at fs q = Some Dir -> node_at fs' q = Some Dir.
Proof.
  intros Hext Hq. destruct q as [|c q]; [done|]. cbn in *.
  specialize (Hext (c :: q)). by rewrite Hq in Hext.
Qed.

(** A path that leads to something still leads to it after the file
    system has grown. *)
Section Grown.

Variables (fs fs' : FS) (fl : bool).
Hypothesis Hext : extends fs fs'.

#[local] Abbreviation still_leads h rest cur :=
  (forall r, walk h fs fl cur rest = Some r -> is_Some (node_at fs r) ->
   walk h fs' fl cur rest = Some r).

Lemma walk_extends_step h :
  (forall h1, h = S h1 -> forall rest cur, still_leads h1 rest cur) ->
  forall rest cur, still_leads h rest cur.
Proof.
  intros IHh.
  induction rest as [|c rest IH]; intros cur r Hwalk Hr.
  - by rewrite walk_nil in *.
  - rewrite walk_cons in Hwalk. rewrite walk_cons.
    destruct (String.eqb c "."); [by apply IH|].
    destruct (String.eqb c ".."); [by apply IH|].
    pose proof (Hext (cur ++ [c])) as Hk.
    destruct (fs !! (cur ++ [c])) as [[c0| |t]|] eqn:Hlook.
    + destruct Hk as [c1 ->]. done.
    + rewrite Hk. by apply IH.
    + rewrite Hk. destruct (negb fl && is_nil rest); [done|].
      destruct h as [|h1]; [discriminate|]. by apply (IHh h1 eq_refl).
    + destruct rest; cbn [is_nil] in Hwalk; [|discriminate].
      injection Hwalk as <-. rewrite node_at_snoc, Hlook in Hr.
      by destruct Hr.
Qed.

Lemma walk_extends h : forall rest cur, still_leads h rest cur.
Proof.
  induction h as [|h IHh]; apply walk_extends_step.
  - intros h1 Hh1. discriminate.
  - intros h1 [= <-]. exact IHh.
Qed.

End Grown.

Lemma is_dir_extends fs fs' p :
  extends fs fs' -> is_dir fs p = true -> is_dir fs' p = true.
Proof.
  intros Hext. unfold is_dir, stat, resolve. intros Hp.
  destruct (walk MAXSYMLINKS fs true [] p) as [r|] eqn:Hwalk; [|done].
  destruct (node_at fs r) as [[| |]|] eqn:Hr; try done.
  rewrite (walk_extends fs fs' true Hext _ _ _ _ Hwalk) by (by rewrite Hr).
  by rewrite (extends_dir _ _ _ Hext Hr).
Qed.

(** ** A second teardown *)

Section RmtreeTwice.

Variable flt : syscall -> bool.

Lemma rmtree_submap fs q : filter (survives flt fs q) fs ⊆ fs.
Proof. apply map_filter_subseteq. Qed.

(** What could not be removed still cannot. *)
Lemma stuck_after fs q k :
  stuck flt fs k = true -> stuck flt (filter (survives flt fs q) fs) k = true.
Proof.
  unfold stuck at 1. rewrite existsb_exists.
  intros ([k' n] & Hin & Hbad). apply andb_prop in Hbad as [Hu Hf].
  simpl in *. apply list_elem_of_In, elem_of_map_to_list in Hin.
  unfold stuck. apply existsb_exists. exists (k', n). split.
  - apply list_elem_of_In, elem_of_map_to_list.
    rewrite lookup_after_rmtree.
    assert (stuck flt fs k' = true) as ->; [|by rewrite orb_true_r].
    unfold stuck. apply existsb_exists. exists (k', n). split.
    + by apply list_elem_of_In, elem_of_map_to_list.
    + simpl. by rewrite under_refl, Hf.
  - simpl. by rewrite Hu, Hf.
Qed.

Lemma rmtree_run_twice p fs :
  (rmtree_run flt p (rmtree_run flt p fs).1).1 = (rmtree_run flt p fs).1
  /\ (rmtree_run flt p (rmtree_run flt p fs).1).2 <> None.
Proof.
  destruct (rmtree_run flt p fs) as [fs' o] eqn:Hrun. cbn [fst snd].
  unfold rmtree_run in Hrun.
  destruct (lresolve fs p) as [q|] eqn:Hres.
  2: { injection Hrun as <- <-. unfold rmtree_run. by rewrite Hres. }
  destruct (node_at fs q) as [[| |]|] eqn:Hq.
  1,3,4: injection Hrun as <- <-; unfold rmtree_run; by rewrite Hres, Hq.
  injection Hrun as Hfs' _. symmetry in Hfs'.
  unfold rmtree_run.
  destruct (lresolve fs' p) as [r|] eqn:Hres'; [|done].
  destruct (node_at fs' r) as [[| |]|] eqn:Hr; try done.
  assert (r = q) as ->.
  { assert (Hext : extends fs' fs)
      by (rewrite Hfs'; apply extends_submap, rmtree_submap).
    pose proof (walk_extends fs' fs false Hext _ _ _ _ Hres') as Hw.
    unfold lresolve in Hres. rewrite Hw in Hres by (by rewrite Hr).
    by injection Hres. }
  cbn [fst snd].
  assert (Hstuck : forall k, under q k = true -> is_Some (fs' !! k) ->
                             stuck flt fs' k = true).
  { intros k Hu [n Hn]. rewrite Hfs' in Hn |- *.
    rewrite lookup_after_rmtree, Hu in Hn. simpl in Hn.
    destruct (stuck flt fs k) eqn:Hs; [|discriminate].
    by apply stuck_after. }
  split.
  - apply map_eq. intros k. rewrite lookup_after_rmtree.
    destruct (under q k) eqn:Hu; [|done]. simpl.
    destruct (fs' !! k) as [n|] eqn:Hn; [|by destruct (stuck flt fs' k)].
    by rewrite (Hstuck k Hu) by (by rewrite Hn).
  - destruct q as [|c q]; [by rewrite orb_true_r|].
    rewrite (Hstuck (c :: q));
      [done | apply under_refl | cbn in Hr; by rewrite Hr].
Qed.

End RmtreeTwice.

(** X18. A second teardown does nothing but try: after the teardown
    has run once, running it again leaves the process and the file
    system as they are; its removal of the workspace fails, on a
    workspace that is gone or on what could not be removed before, and
    the failure is passed over. *)
Theorem second_teardown E tmpdir w :
  teardown E tmpdir (teardown E tmpdir w)
  = record (EvRmtree tmpdir false) (teardown E tmpdir w).
Proof.
  unfold teardown at 1. set (w1 := teardown E tmpdir w).
  assert (Hstop : stop_child E w1 = w1).
  { unfold w1, teardown, remove_workspace.
    destruct (stop_child_cases E w)
      as [[-> H]|[(_ & _ & _ & ->)|(_ & _ & _ & ->)]];
      unfold stop_child, poll; simpl; try done.
    destruct H as [->|[rc ->]]; [done | by rewrite andb_false_r]. }
  rewrite Hstop. unfold remove_workspace.
  assert (Hfs : w_fs w1 = (rmtree_run (faulty E) tmpdir (w_fs w)).1).
  { unfold w1, teardown, remove_workspace. simpl. by rewrite stop_child_fs. }
  destruct (rmtree_run_twice (faulty E) tmpdir (w_fs w)) as [H1 H2].
  rewrite <- Hfs in H1, H2. rewrite H1, set_fs_same.
  by rewrite bool_decide_eq_false_2.
Qed.

(** ** Copying the build output *)

Section Copying.

Variable flt : syscall -> bool.

Lemma mkdir_extends p fs fs' :
  mkdir flt p fs = inr fs' -> extends fs fs' /\ is_dir fs' p = true.
Proof.
  intros Hmk. apply mkdir_inv in Hmk as (q & Hres & Hfree & ->).
  pose proof (ws_nonroot _ _ Hfree) as Hq.
  pose proof (ws_free _ p _ Hres Hfree) as Hfree'.
  split; [by apply extends_insert_new|].
  destruct (walk_into_fresh fs (<[q := Dir]> fs) q Hq Hfree'
              (lookup_insert_eq _ _ _)
              (fun k Hk => lookup_insert_ne _ _ _ _ (not_eq_sym
                             (under_strict_ne _ _ Hk)))
              true [] MAXSYMLINKS p [] (real_dir_nil _) Hres) as [h Hh].
  unfold is_dir, stat, resolve. rewrite app_nil_r in Hh.
  rewrite Hh, walk_nil, node_at_nonroot by done.
  by rewrite lookup_insert_eq.
Qed.

Lemma makedirs_from_extends rest : forall pre fs fs',
  makedirs_from flt pre rest fs = inr fs' ->
  extends fs fs' /\ is_dir fs' (pre ++ rest) = true.
Proof.
  induction rest as [|c rest IH]; intros pre fs fs' Hrun; [discriminate|].
  destruct rest as [|c' rest].
  { by apply mkdir_extends in Hrun. }
  cbn [makedirs_from] in Hrun.
  replace (pre ++ c :: c' :: rest) with ((pre ++ [c]) ++ c' :: rest)
    by (by rewrite <- app_assoc).
  destruct (path_exists fs (pre ++ [c])); [by apply IH|].
  destruct (mkdir flt (pre ++ [c]) fs) as [e|fs1] eqn:Hmk; [discriminate|].
  apply mkdir_extends in Hmk as [Hext1 _].
  apply IH in Hrun as [Hext2 Hdir]. split; [|done].
  by eapply extends_trans.
Qed.

Lemma write_text_extends p s fs fs' :
  write_text flt p s fs = inr fs' -> extends fs fs'.
Proof.
  unfold write_text. destruct (flt _); [discriminate|].
  destruct (resolve fs p) as [q|]; [|discriminate].
  destruct (node_at fs q) as [[c| |t]|] eqn:Hq; try discriminate;
    intros [= <-]; apply extends_insert_file; intros n Hn;
    (destruct q as [|x q]; [discriminate|]); cbn in Hq;
    rewrite Hn in Hq; [injection Hq as -> | discriminate]; by exists c.
Qed.

Lemma fold_left_extends {B} (f : FS * bool -> B -> FS * bool) names :
  (forall acc x, extends acc.1 (f acc x).1) ->
  forall acc, extends acc.1 (fold_left f names acc).1.
Proof.
  intros Hf. induction names as [|x names IH]; intros acc;
    [apply extends_refl|].
  cbn [fold_left]. eapply extends_trans; [apply Hf | apply IH].
Qed.

(** One entry of the source directory, copied or not. *)
Lemma copy_entry_extends depth src dst :
  (forall s d fs, extends fs (copytree_run flt depth s d fs).1) ->
  forall (acc : FS * bool) (name : string),
    extends acc.1
      (if is_dir acc.1 (src ++ [name]) then
         match copytree_run flt depth (src ++ [name]) (dst ++ [name])
                 acc.1 with
         | (fs', None) => (fs', acc.2)
         | (fs', Some _) => (fs', true)
         end
       else
         match read_text flt (src ++ [name]) acc.1 with
         | inl _ => (acc.1, true)
         | inr c =>
             match write_text flt (dst ++ [name]) c acc.1 with
             | inl _ => (acc.1, true)
             | inr fs' => (fs', acc.2)
             end
         end).1.
Proof.
  intros IH [fs b] name. cbn [fst snd].
  destruct (is_dir fs (src ++ [name])).
  - pose proof (IH (src ++ [name]) (dst ++ [name]) fs) as Hsub.
    by destruct (copytree_run flt depth _ _ fs) as [fs3 []].
  - destruct (read_text flt _ fs) as [e|c]; [apply extends_refl|].
    destruct (write_text flt _ c fs) as [e|fs3] eqn:Hw;
      [apply extends_refl | by apply write_text_extends in Hw].
Qed.

Lemma copytree_run_extends depth : forall src dst fs,
  extends fs (copytree_run flt depth src dst fs).1.
Proof.
  induction depth as [|depth IH]; intros src dst fs; [apply extends_refl|].
  cbn [copytree_run].
  destruct (listdir flt src fs) as [e|names]; [apply extends_refl|].
  destruct (makedirs flt dst fs) as [e|fs1] eqn:Hmk; [apply extends_refl|].
  apply makedirs_from_extends in Hmk as [Hext1 _]. cbn [fst].
  eapply extends_trans; [exact Hext1|].
  apply (fold_left_extends _ names (copy_entry_extends depth src dst IH)
           (fs1, false)).
Qed.

(** A copy that reports no error has made the destination. *)
Lemma copytree_run_dir depth src dst fs fs' :
  copytree_run flt depth src dst fs = (fs', None) ->
  is_dir fs' dst = true.
Proof.
  destruct depth as [|depth]; [discriminate|]. cbn [copytree_run].
  destruct (listdir flt src fs) as [e|names]; [discriminate|].
  destruct (makedirs flt dst fs) as [e|fs1] eqn:Hmk; [discriminate|].
  apply makedirs_from_extends in Hmk as [_ Hdir]. cbn [app] in Hdir.
  intros [= <- _]. eapply is_dir_extends; [|exact Hdir].
  apply (fold_left_extends _ names
           (copy_entry_extends depth src dst (copytree_run_extends depth))
           (fs1, false)).
Qed.

Lemma copytree_dir src dst fs fs' :
  copytree flt src dst fs = (fs', None) -> is_dir fs' dst = true.
Proof. apply copytree_run_dir. Qed.

End Copying.

Lemma copy_output_unfold E tmpdir args w :
  copy_output E tmpdir args w =
  match when (path_exists (w_fs w) (output_dir E args))
             (fs_call (rmtree (faulty E) (output_dir E args))) w with
  | (Ok _, w1) =>
      match copytree (faulty E) (tmpdir ++ ["_build"; "html"])
                     (output_dir E args) (w_fs w1) with
      | (fs', None) =>
          (Ok tt, print_out ("Output written to "
                             +:+ show_path (output_dir E args))
                            (set_fs fs' w1))
      | (fs', Some e) => (Raise e, set_fs fs' w1)
      end
  | (Raise e, w1) => (Raise e, w1)
  | (SysExit c, w1) => (SysExit c, w1)
  | (Blocked, w1) => (Blocked, w1)
  end.
Proof.
  unfold copy_output. rewrite bind_unfold. unfold get_fs.
  rewrite bind_unfold.
  destruct (when _ _ w) as [[[]|?|?|] w1]; [|reflexivity..].
  rewrite bind_unfold.
  destruct (copytree _ _ _ _) as [? []]; reflexivity.
Qed.


(** ** Runs that nothing disturbs *)

Section Undisturbed.

Variables (E : Env) (args : Args) (tmpdir source : path).
Hypothesis Hquiet : undisturbed E.

Lemma checkpoint_undisturbed pt w : checkpoint E tmpdir pt w = (Ok tt, w).
Proof. unfold checkpoint. by rewrite Hquiet. Qed.

(** After staging has gone through and the renderer is found, the
    [try] block goes on with the mode. *)
Lemma supervise_staged w w2 myst_cmd :
  stage E args source tmpdir w = (Ok tt, w2) ->
  (forall w, find_myst E w = (Ok myst_cmd, w)) ->
  supervise E tmpdir source args w =
  (if a_build args then build E tmpdir source args myst_cmd
   else serve E tmpdir source args myst_cmd) w2.
Proof.
  intros Hstage Hmyst. unfold supervise.
  rewrite bind_unfold, checkpoint_undisturbed.
  unfold stage in Hstage. rewrite bind_unfold in Hstage.
  rewrite bind_unfold.
  destruct (stage_links E (path_parent source) tmpdir w) as [[[]|?|?|] wm];
    try discriminate.
  rewrite bind_unfold, Hstage.
  rewrite bind_unfold, checkpoint_undisturbed.
  by rewrite bind_unfold, Hmyst.
Qed.

(** The [finally] block of a run that nothing disturbs. *)
Lemma run_in_workspace_undisturbed w r1 w1 :
  supervise E tmpdir source args (set_proc false w) = (r1, w1) ->
  run_in_workspace E tmpdir source args w =
  match r1 with
  | Blocked => (Blocked, w1)
  | Raise e =>
      (Ok tt, teardown E tmpdir (print_err ("Error: " +:+ msg e) w1))
  | _ => (r1, teardown E tmpdir w1)
  end.
Proof.
  intros Hbody. unfold run_in_workspace. rewrite bind_unfold.
  change (tell (set_proc false) w) with (Ok tt, set_proc false w).
  cbv iota beta. unfold try_except_finally. rewrite Hbody.
  destruct r1 as [[]|e|c|]; cbn [fst snd tell];
    rewrite ?bind_unfold, ?checkpoint_undisturbed, ?cleanup_eq; reflexivity.
Qed.

End Undisturbed.


(** ** What serve mode prints *)

Section Announce.

Variables (E : Env) (tmpdir : path) (X : list string).

#[local] Abbreviation said := (preserves (fun w : World => w_out w = X)).

Lemma said_same {A} (m : M A) :
  (forall w, w_out (m w).2 = w_out w) -> said m.
Proof.
  intros H w r w' Hw Hrun. specialize (H w). rewrite Hrun in H.
  simpl in H. by rewrite H.
Qed.

Lemma said_tell (f : World -> World) :
  (forall w, w_out (f w) = w_out w) -> said (tell f).
Proof. intros H. by apply said_same. Qed.

Lemma teardown_out w : w_out (teardown E tmpdir w) = w_out w.
Proof.
  by destruct (teardown_spec E tmpdir w) as (_ & _ & _ & _ & _ & _ & _ & Ho).
Qed.

Lemma said_checkpoint pt : said (checkpoint E tmpdir pt).
Proof.
  apply said_same. intros w. unfold checkpoint.
  destruct (signal_at E pt); [|done].
  rewrite on_signal_eq. cbn [snd]. by rewrite teardown_out.
Qed.

Lemma said_scan_ports ports : said (scan_ports E ports).
Proof.
  induction ports as [|port rest IH]; [apply preserves_ret|].
  intros w r w' Hw Hrun. rewrite scan_ports_cons, with_socket_bind in Hrun.
  destruct ((port <? 0) || (65535 <? port)); [by injection Hrun as <- <-|].
  destruct (bind_ok E port); [by injection Hrun as <- <-|].
  simpl in Hrun. eapply IH; [|exact Hrun]. exact Hw.
Qed.

Lemma said_find_free_port start end_ : said (find_free_port E start end_).
Proof.
  unfold find_free_port. apply preserves_bind; [apply said_scan_ports|].
  intros [port|]; [apply preserves_ret|].
  apply preserves_bind;
    [by apply said_tell | intros _; apply preserves_sys_exit].
Qed.

(** From the start of the child on, serve mode prints nothing. *)
Lemma said_serving args port cmd :
  said (popen E tmpdir cmd;;
        when (negb (a_no_open args))
             (up ← wait_for_port E tmpdir port;
              when up (tell (record (EvBrowser ("http://localhost:"
                                                +:+ pretty port)))));;
        proc_wait E tmpdir).
Proof.
  unfold popen, wait_for_port, proc_wait, child_runs.
  repeat match goal with
    | |- preserves _ (checkpoint _ _ _) => apply said_checkpoint
    | |- preserves _ (_ ≫= _) => apply preserves_bind; [|intros ?]
    | |- preserves _ (when _ _) => apply preserves_when
    | |- preserves _ (tell _) => apply said_tell; done
    | |- preserves _ (if ?b then _ else _) => destruct b
    | |- preserves _ (match ?x with _ => _ end) => destruct x
    | |- preserves _ _ => solve [eauto with preserves]
    end.
Qed.

End Announce.

(** X21. What serve mode prints on standard output: if another port
    than the one asked for was chosen, one line that names both; then
    the two lines that announce the preview; and nothing after that,
    however the run goes on.  If no port is found, nothing is
    printed. *)
Theorem serve_announces E tmpdir source args myst_cmd w r w' :
  serve E tmpdir source args myst_cmd w = (r, w') ->
  match (find_free_port E (a_port args) 0 w).1 with
  | Ok port =>
      w_out w' =
      w_out w
      ++ (if port =? a_port args then []
          else ["Port " +:+ pretty (a_port args) +:+ " is in use, using "
                +:+ pretty port +:+ " instead."])
      ++ ["Starting MyST preview of " +:+ path_name source;
          "Press Ctrl+C to stop.
"]
  | _ => w_out w' = w_out w
  end.
Proof.
  unfold serve. rewrite bind_unfold.
  destruct (find_free_port E (a_port args) 0 w) as [r1 w1] eqn:Hport.
  pose proof (said_find_free_port E (w_out w) _ _ _ _ _ eq_refl Hport)
    as Hout1.
  cbn [fst]. destruct r1 as [port|e|c|]; try (by intros [= _ <-]).
  rewrite bind_unfold.
  cbv beta in Hout1.
  destruct (port =? a_port args); cbn [negb when mret M_ret tell];
    rewrite !bind_unfold; cbn [tell]; intros Hrun;
    (eapply (said_serving E tmpdir _ args port); [|exact Hrun]);
    cbn [w_out print_out]; rewrite Hout1; by rewrite <- ?app_assoc.
Qed.

Lemma build_launch_witness :
  exists evs,
    w_log first_build.2 = w_log project_world ++ evs
    /\ forall cmd cwd, EvRun cmd cwd ∈ evs ->
         a_build build_args = true /\ cwd = sample_tmpdir
         /\ exists myst_cmd,
              (forall w, find_myst build_env w = (Ok myst_cmd, w))
              /\ cmd = myst_cmd ++ ["build"; "--html"]
                       ++ (if a_execute build_args then ["--execute"]
                           else []).
Proof.
  apply (build_launch build_env build_args project_world sample_tmpdir
           (mkdtemp build_env project_world).2 first_build.1).
  - apply run_eq. vm_compute. reflexivity.
  - unfold first_build. by destruct (main build_env build_args project_world).
Defined.

Lemma browser_opened_witness :
  exists evs,
    w_log (main busy_env notes_args project_world).2
    = w_log project_world ++ evs
    /\ forall url, EvBrowser url ∈ evs ->
         a_build notes_args = false /\ a_no_open notes_args = false
         /\ port_up busy_env = true
         /\ exists port, chosen_port busy_env notes_args port
                         /\ url = "http://localhost:" +:+ pretty port.
Proof.
  apply (browser_opened busy_env notes_args project_world sample_tmpdir
           staged_w1 (main busy_env notes_args project_world).1).
  - unfold staged_w1. apply run_eq. vm_compute. reflexivity.
  - by destruct (main busy_env notes_args project_world).
Defined.

Lemma nothing_started_without_renderer_witness :
  exists evs,
    w_log (main bare_env notes_args project_world).2
    = w_log project_world ++ evs
    /\ Forall no_launch evs.
Proof.
  apply (nothing_started_without_renderer bare_env notes_args project_world
           (SysExit 1)).
  - split; reflexivity.
  - apply run_eq. vm_compute. reflexivity.
Defined.

Lemma staging_failure_reported_witness :
  exit_status (main brittle_env notes_args project_world).1 = Some 0
  /\ w_err (main brittle_env notes_args project_world).2
     = w_err project_world
       ++ ["Error: " +:+ msg (os_error "symlink failed"
                                       (sample_tmpdir ++ ["img"]))]
  /\ w_out (main brittle_env notes_args project_world).2
     = w_out project_world
  /\ exists evs,
       w_log (main brittle_env notes_args project_world).2
       = w_log project_world ++ evs
       /\ Forall no_launch evs.
Proof.
  apply (staging_failure_reported brittle_env notes_args project_world
           ["proj"; "notes.md"] sample_tmpdir
           (mkdtemp brittle_env project_world).2
           (os_error "symlink failed" (sample_tmpdir ++ ["img"]))
           (stage brittle_env notes_args ["proj"; "notes.md"] sample_tmpdir
              (set_proc false (mkdtemp brittle_env project_world).2)).2).
  - vm_compute. reflexivity.
  - apply run_eq. vm_compute. reflexivity.
  - reflexivity.
  - apply run_eq. vm_compute. reflexivity.
  - by destruct (main brittle_env notes_args project_world).
Defined.



Lemma serve_announces_witness :
  match (find_free_port busy_env (a_port notes_args) 0 staged_w1).1 with
  | Ok port =>
      w_out (serve busy_env sample_tmpdir ["proj"; "notes.md"] notes_args
               ["/usr/bin/myst"] staged_w1).2 =
      w_out staged_w1
      ++ (if port =? a_port notes_args then []
          else ["Port " +:+ pretty (a_port notes_args) +:+ " is in use, using "
                +:+ pretty port +:+ " instead."])
      ++ ["Starting MyST preview of " +:+ path_name ["proj"; "notes.md"];
          "Press Ctrl+C to stop.
"]
  | _ =>
      w_out (serve busy_env sample_tmpdir ["proj"; "notes.md"] notes_args
               ["/usr/bin/myst"] staged_w1).2 = w_out staged_w1
  end.
Proof.
  apply (serve_announces busy_env sample_tmpdir ["proj"; "notes.md"]
           notes_args ["/usr/bin/myst"] staged_w1 (Ok tt)).
  apply run_eq. vm_compute. reflexivity.
Defined.
